(** * The 2D physics kernel of ten-minute-physics-note

    A shallow embedding of the physics code of the four demos

    - [src/ch-03/index.js]           (module [Ch03]):      many balls, pairwise
      collisions, walls inset by the radius;
    - [src/ch-03-practice/index.js]  (module [Practice]):  one ball, the cue,
      walls tested on the centre;
    - [src/ch-03-practice/index3.js] (module [Practice3]): balls with their own
      gravity, pairwise collisions, damped walls;
    - [src/unnamed/part_000]         (module [Part000]):   one ball under
      gravity, walls tested on the centre.

    JavaScript numbers are idealised as real numbers: [Math.sqrt] is [sqrt],
    [Math.exp] is [exp], [Math.PI] is [PI], [Math.min] is [Rmin], and the
    rounding of IEEE-754 doubles is left out, as are [NaN] and the infinities:
    no statement below rests on the value of a division by zero.  Objects
    mutated in place become records passed in and returned; [Date.now()]
    becomes an explicit argument [now]. *)

From Stdlib Require Import Reals Lra Psatz Bool String.
From Stdlib Require Import List.
Import ListNotations.

Open Scope R_scope.

(** ** Comparisons of numbers, as booleans *)

(** [a < b] *)
Definition lt_b (a b : R) : bool := if Rlt_dec a b then true else false.

(** [a > b] *)
Definition gt_b (a b : R) : bool := if Rgt_dec a b then true else false.

(** [a === b] *)
Definition eq_b (a b : R) : bool := if Req_dec_T a b then true else false.

(** ** Vectors

    The three vector classes ([Vector2] of ch-03, [Vector] of the practice
    files) hold the same two fields; one record serves them all, and each
    module below translates the methods of its own class. *)

Record Vector2 : Type := mkVector2 { x : R; y : R }.

(** * src/ch-03/index.js *)

Module Ch03.

(** [Vector2.add(v, s = 1.0)] *)
Definition add (this v : Vector2) (s : R) : Vector2 :=
  {| x := x this + x v * s; y := y this + y v * s |}.

(** [Vector2.addVectors(a, b)] *)
Definition addVectors (a b : Vector2) : Vector2 :=
  {| x := x a + x b; y := y a + y b |}.

(** [Vector2.subtract(v, s = 1.0)] *)
Definition subtract (this v : Vector2) (s : R) : Vector2 :=
  {| x := x this - x v * s; y := y this - y v * s |}.

(** [Vector2.subtractVectors(a, b)] *)
Definition subtractVectors (a b : Vector2) : Vector2 :=
  {| x := x a - x b; y := y a - y b |}.

(** [Vector2.length()] *)
Definition length (this : Vector2) : R :=
  sqrt (x this * x this + y this * y this).

(** [Vector2.scale(s)] *)
Definition scale (this : Vector2) (s : R) : Vector2 :=
  {| x := x this * s; y := y this * s |}.

(** [Vector2.dot(v)] *)
Definition dot (this v : Vector2) : R :=
  x this * x v + y this * y v.

(** [class Ball]: the constructor clones [pos] and [vel], so a ball owns
    its vectors. *)
Record Ball : Type := mkBall
  { radius : R; mass : R; pos : Vector2; vel : Vector2 }.

Definition set_pos (b : Ball) (p : Vector2) : Ball :=
  {| radius := radius b; mass := mass b; pos := p; vel := vel b |}.

Definition set_vel (b : Ball) (v : Vector2) : Ball :=
  {| radius := radius b; mass := mass b; pos := pos b; vel := v |}.

(** [ball.pos.x = v], and the three other field assignments *)
Definition set_pos_x (b : Ball) (v : R) : Ball :=
  set_pos b {| x := v; y := y (pos b) |}.

Definition set_pos_y (b : Ball) (v : R) : Ball :=
  set_pos b {| x := x (pos b); y := v |}.

Definition set_vel_x (b : Ball) (v : R) : Ball :=
  set_vel b {| x := v; y := y (vel b) |}.

Definition set_vel_y (b : Ball) (v : R) : Ball :=
  set_vel b {| x := x (vel b); y := v |}.

(** [Ball.simulate(dt, gravity)]: the second statement reads the velocity
    the first one has just written. *)
Definition simulate (this : Ball) (dt : R) (gravity : Vector2) : Ball :=
  let this := set_vel this (add (vel this) gravity dt) in
  set_pos this (add (pos this) (vel this) dt).

(** The two post-collision speeds along the contact normal
    ([newV1], [newV2] of [handleBallsCollision]). *)
Definition newV1 (m1 m2 v1 v2 restitution : R) : R :=
  (m1 * v1 + m2 * v2 - m2 * (v1 - v2) * restitution) / (m1 + m2).

Definition newV2 (m1 m2 v1 v2 restitution : R) : R :=
  (m1 * v1 + m2 * v2 - m1 * (v2 - v1) * restitution) / (m1 + m2).

(** [Core.handleBallsCollision(ball1, ball2, restitution)]; the two balls,
    mutated in place by the source, are returned as a pair. *)
Definition handleBallsCollision (ball1 ball2 : Ball) (restitution : R)
  : Ball * Ball :=
  let dir := subtractVectors (pos ball2) (pos ball1) in
  let d := length dir in
  if eq_b d 0 || gt_b d (radius ball1 + radius ball2) then (ball1, ball2)
  else
    let dir := scale dir (1 / d) in
    let corr := (radius ball1 + radius ball2 - d) / 2 in
    let ball1 := set_pos ball1 (add (pos ball1) dir (- corr)) in
    let ball2 := set_pos ball2 (add (pos ball2) dir corr) in
    let v1 := dot (vel ball1) dir in
    let v2 := dot (vel ball2) dir in
    let m1 := mass ball1 in
    let m2 := mass ball2 in
    let nv1 := newV1 m1 m2 v1 v2 restitution in
    let nv2 := newV2 m1 m2 v1 v2 restitution in
    let ball1 := set_vel ball1 (add (vel ball1) dir (nv1 - v1)) in
    let ball2 := set_vel ball2 (add (vel ball2) dir (nv2 - v2)) in
    (ball1, ball2).

(** The four tests of [Core.handleWallsCollision], in the order of the
    source; each one reads the ball the previous one has left. *)
Definition hitLeft (ball : Ball) : Ball :=
  if lt_b (x (pos ball)) (radius ball)
  then set_vel_x (set_pos_x ball (radius ball)) (- x (vel ball))
  else ball.

Definition hitRight (ball : Ball) (worldSize : Vector2) : Ball :=
  if gt_b (x (pos ball)) (x worldSize - radius ball)
  then set_vel_x (set_pos_x ball (x worldSize - radius ball)) (- x (vel ball))
  else ball.

Definition hitBottom (ball : Ball) : Ball :=
  if lt_b (y (pos ball)) (radius ball)
  then set_vel_y (set_pos_y ball (radius ball)) (- y (vel ball))
  else ball.

Definition hitTop (ball : Ball) (worldSize : Vector2) : Ball :=
  if gt_b (y (pos ball)) (y worldSize - radius ball)
  then set_vel_y (set_pos_y ball (y worldSize - radius ball)) (- y (vel ball))
  else ball.

(** [Core.handleWallsCollision(ball, worldSize)] *)
Definition handleWallsCollision (ball : Ball) (worldSize : Vector2) : Ball :=
  hitTop (hitBottom (hitRight (hitLeft ball) worldSize)) worldSize.

(** The unit vector from the centre of [ball1] to the centre of [ball2]
    ([dir] after [dir.scale(1.0 / d)]), and the distance of the centres. *)
Definition distance (ball1 ball2 : Ball) : R :=
  length (subtractVectors (pos ball2) (pos ball1)).

Definition normal (ball1 ball2 : Ball) : Vector2 :=
  scale (subtractVectors (pos ball2) (pos ball1)) (1 / distance ball1 ball2).

(** [class Scene]: the sizes of the canvas, set from the window by [init],
    and the fields the simulation reads. *)
Record Scene : Type := mkScene
  { balls : list Ball;
    canvas_width : R;
    canvas_height : R;
    minScale : R;
    cScale : R;
    simWidth : R;
    simHeight : R;
    worldSize : Vector2;
    Scene_gravity : Vector2;
    restitution : R }.

(** [Scene.init()], on a canvas of the given sizes and an empty [balls] *)
Definition init (canvas_width canvas_height minScale : R) : Scene :=
  let cScale := Rmin canvas_width canvas_height / minScale in
  let simWidth := canvas_width / cScale in
  let simHeight := canvas_height / cScale in
  {| balls := [];
     canvas_width := canvas_width;
     canvas_height := canvas_height;
     minScale := minScale;
     cScale := cScale;
     simWidth := simWidth;
     simHeight := simHeight;
     worldSize := {| x := simWidth; y := simHeight |};
     Scene_gravity := {| x := 0; y := 0 |};
     restitution := 1 |}.

(** One turn of the loop of [Scene.setupBalls()]: the ball number [i],
    where [random k] is the result of the call number [k] of
    [Math.random()]; a turn makes five calls, in the order radius, position,
    velocity. *)
Definition randomBall (this : Scene) (random : nat -> R) (i : nat) : Ball :=
  let radius := 0.05 + random (5 * i)%nat * 0.1 in
  let mass := PI * radius * radius in
  let pos := {| x := random (5 * i + 1)%nat * simWidth this;
                y := random (5 * i + 2)%nat * simHeight this |} in
  let vel := {| x := - 1 + 2 * random (5 * i + 3)%nat;
                y := - 1 + 2 * random (5 * i + 4)%nat |} in
  {| radius := radius; mass := mass; pos := pos; vel := vel |}.

Definition set_balls (this : Scene) (bs : list Ball) : Scene :=
  {| balls := bs;
     canvas_width := canvas_width this;
     canvas_height := canvas_height this;
     minScale := minScale this;
     cScale := cScale this;
     simWidth := simWidth this;
     simHeight := simHeight this;
     worldSize := worldSize this;
     Scene_gravity := Scene_gravity this;
     restitution := restitution this |}.

(** [Scene.setupBalls()]: twenty balls are pushed. *)
Definition setupBalls (this : Scene) (random : nat -> R) : Scene :=
  set_balls this (balls this ++ map (randomBall this random) (seq 0 20)).

(** [new Scene(canvas, minScale)] *)
Definition new_Scene (canvas_width canvas_height minScale : R)
  (random : nat -> R) : Scene :=
  setupBalls (init canvas_width canvas_height minScale) random.

(** [class Core] *)
Record Core : Type := mkCore
  { gravity : Vector2; isRunning : bool; timeStep : R; scene : Scene }.

(** [new Core(scene)] *)
Definition new_Core (scene : Scene) : Core :=
  {| gravity := {| x := 0; y := 0 |}; isRunning := true;
     timeStep := 1 / 60; scene := scene |}.

(** The inner loop of [Core.simulate]: [ball1] meets every later ball in
    turn, and both balls of a pair are updated. *)
Fixpoint collideWith (ball1 : Ball) (later : list Ball) (restitution : R)
  : Ball * list Ball :=
  match later with
  | [] => (ball1, [])
  | ball2 :: later' =>
      let (ball1, ball2) := handleBallsCollision ball1 ball2 restitution in
      let (ball1, later') := collideWith ball1 later' restitution in
      (ball1, ball2 :: later')
  end.

(** The outer loop of [Core.simulate] from the first of the [n] balls not
    yet visited: the ball is moved, meets the later balls, and is put back
    between the walls. *)
Fixpoint simulateFrom (this : Core) (n : nat) (bs : list Ball) : list Ball :=
  match n, bs with
  | S n', ball1 :: later =>
      let ball1 := simulate ball1 (timeStep this) (gravity this) in
      let (ball1, later) :=
        collideWith ball1 later (restitution (scene this)) in
      let ball1 := handleWallsCollision ball1 (worldSize (scene this)) in
      ball1 :: simulateFrom this n' later
  | _, _ => bs
  end.

(** [Core.simulate()] *)
Definition Core_simulate (this : Core) : Core :=
  {| gravity := gravity this; isRunning := isRunning this;
     timeStep := timeStep this;
     scene :=
       set_balls (scene this)
         (simulateFrom this (List.length (balls (scene this)))
            (balls (scene this))) |}.


End Ch03.

(** * src/ch-03-practice/index.js *)

Module Practice.

(** [Vector.set(v)] *)
Definition set (this v : Vector2) : Vector2 := {| x := x v; y := y v |}.

(** [Vector.clone()] *)
Definition clone (this : Vector2) : Vector2 := {| x := x this; y := y this |}.

(** [Vector.add(v, s = 1)] *)
Definition add (this v : Vector2) (s : R) : Vector2 :=
  {| x := x this + x v * s; y := y this + y v * s |}.

(** [Vector.subtract(v)] *)
Definition subtract (this v : Vector2) : Vector2 :=
  {| x := x this - x v; y := y this - y v |}.

(** [Vector.scale(s)] *)
Definition scale (this : Vector2) (s : R) : Vector2 :=
  {| x := x this * s; y := y this * s |}.

(** [Vector.length()] *)
Definition length (this : Vector2) : R :=
  sqrt (x this * x this + y this * y this).

(** [Vector.normalize()] *)
Definition normalize (this : Vector2) : Vector2 :=
  let len := length this in
  if gt_b len 0 then scale this (1 / len) else this.

(** [static Vector.subtract(a, b)] *)
Definition Vector_subtract (a b : Vector2) : Vector2 :=
  {| x := x a - x b; y := y a - y b |}.

(** [class Ball extends PhysicsObject] *)
Record Ball : Type := mkBall
  { radius : R; mass : R; pos : Vector2; vel : Vector2 }.

Definition set_pos (b : Ball) (p : Vector2) : Ball :=
  {| radius := radius b; mass := mass b; pos := p; vel := vel b |}.

Definition set_vel (b : Ball) (v : Vector2) : Ball :=
  {| radius := radius b; mass := mass b; pos := pos b; vel := v |}.

Definition set_pos_x (b : Ball) (v : R) : Ball :=
  set_pos b {| x := v; y := y (pos b) |}.

Definition set_pos_y (b : Ball) (v : R) : Ball :=
  set_pos b {| x := x (pos b); y := v |}.

Definition set_vel_x (b : Ball) (v : R) : Ball :=
  set_vel b {| x := v; y := y (vel b) |}.

Definition set_vel_y (b : Ball) (v : R) : Ball :=
  set_vel b {| x := x (vel b); y := v |}.

(** [PhysicsObject.simulate(dt)] *)
Definition simulate (this : Ball) (dt : R) : Ball :=
  set_pos this (add (pos this) (vel this) dt).

(** [PhysicsObject.applyForce(force, dt)] *)
Definition applyForce (this : Ball) (force : Vector2) (dt : R) : Ball :=
  set_vel this (add (vel this) force (dt / mass this)).

(** [class Cue]; [angle] is [None] where the source holds [undefined]. *)
Record Cue : Type := mkCue
  { power : R;
    direction : Vector2;
    angle : option R;
    isCharging : bool;
    startChargeTime : R;
    shift : R }.

(** [new Cue()] *)
Definition new_Cue : Cue :=
  {| power := 0; direction := {| x := 0; y := 0 |}; angle := None;
     isCharging := false; startChargeTime := 0; shift := 0 |}.

(** [Cue.startCharge()], with the value of [Date.now()] as [now] *)
Definition startCharge (this : Cue) (now : R) : Cue :=
  {| power := power this; direction := direction this; angle := angle this;
     isCharging := true; startChargeTime := now; shift := shift this |}.

(** [Cue.getCurveValue(maxValue, minValue, x)] *)
Definition getCurveValue (maxValue minValue x : R) : R :=
  let K := 3 in
  maxValue - (maxValue - minValue) * exp (- K * x).

Definition MIN_POWER : R := 10.
Definition MAX_POWER : R := 100.
Definition CHARGE_TIME : R := 2000.
Definition MIN_SHIFT : R := 0.
Definition MAX_SHIFT : R := 30.

(** [Cue.updateCharge()], with the value of [Date.now()] as [now] *)
Definition updateCharge (this : Cue) (now : R) : Cue :=
  if negb (isCharging this) then this
  else
    let elapsedTime := now - startChargeTime this in
    let normalizedTime := Rmin (elapsedTime / CHARGE_TIME) 1 in
    {| power := getCurveValue MAX_POWER MIN_POWER normalizedTime;
       direction := direction this; angle := angle this;
       isCharging := isCharging this;
       startChargeTime := startChargeTime this;
       shift := getCurveValue MAX_SHIFT MIN_SHIFT normalizedTime |}.

(** [Cue.reset()] *)
Definition reset (this : Cue) : Cue :=
  {| power := 0; direction := direction this; angle := None;
     isCharging := false; startChargeTime := 0; shift := shift this |}.

(** [Cue.release(ball)]: the cue and the ball after the call *)
Definition release (this : Cue) (ball : Ball) : Cue * Ball :=
  if negb (isCharging this) then (this, ball)
  else
    let stickMass := PI * 0.5 * 0.5 * 2 in
    let stickVel := power this / 2 in
    let ballVelAfter := (stickMass * stickVel) / mass ball in
    let ball :=
      set_vel ball (add (vel ball) (direction this) (- ballVelAfter)) in
    (reset this, ball).

(** [class World] *)
Record World : Type := mkWorld
  { size : Vector2; gravity : Vector2; restitution : R }.

(** [new World(width, height)] *)
Definition new_World (width height : R) : World :=
  {| size := {| x := width; y := height |};
     gravity := {| x := 0; y := 0 |};
     restitution := 1 |}.

(** The four tests of [World.handleWallCollision], in the order of the
    source: they compare the centre of the ball with the wall. *)
Definition hitRight (this : World) (ball : Ball) : Ball :=
  if gt_b (x (pos ball)) (x (size this))
  then set_vel_x (set_pos_x ball (x (size this))) (- x (vel ball))
  else ball.

Definition hitLeft (ball : Ball) : Ball :=
  if lt_b (x (pos ball)) 0
  then set_vel_x (set_pos_x ball 0) (- x (vel ball))
  else ball.

Definition hitBottom (ball : Ball) : Ball :=
  if lt_b (y (pos ball)) 0
  then set_vel_y (set_pos_y ball 0) (- y (vel ball))
  else ball.

Definition hitTop (this : World) (ball : Ball) : Ball :=
  if gt_b (y (pos ball)) (y (size this))
  then set_vel_y (set_pos_y ball (y (size this))) (- y (vel ball))
  else ball.

(** [World.handleWallCollision(ball)] *)
Definition handleWallCollision (this : World) (ball : Ball) : Ball :=
  hitTop this (hitBottom (hitLeft (hitRight this ball))).

(** [class Game], without its renderer *)
Record Game : Type := mkGame { world : World; ball : Ball; cue : Cue }.

(** [Game.handleKeyDown(e)], with [e.code] as [code] *)
Definition handleKeyDown (this : Game) (code : string) (now : R) : Game :=
  if String.eqb code "Space" && negb (isCharging (cue this))
  then {| world := world this; ball := ball this;
          cue := startCharge (cue this) now |}
  else this.

(** [Game.handleKeyUp(e)] *)
Definition handleKeyUp (this : Game) (code : string) : Game :=
  if String.eqb code "Space"
  then let (c, b) := release (cue this) (ball this) in
       {| world := world this; ball := b; cue := c |}
  else this.

(** The state part of [Game.update], one animation frame *)
Definition update (this : Game) (now : R) : Game :=
  let b := simulate (ball this) (1 / 60) in
  let b := handleWallCollision (world this) b in
  {| world := world this; ball := b; cue := updateCharge (cue this) now |}.

(** [Math.atan2(y, x)] on real numbers; the sign of a zero is not
    modelled. *)
Definition atan2 (y x : R) : R :=
  if gt_b x 0 then atan (y / x)
  else if lt_b x 0 then
         if lt_b y 0 then atan (y / x) - PI else atan (y / x) + PI
  else if gt_b y 0 then PI / 2
  else if lt_b y 0 then - (PI / 2)
  else 0.

(** The remainder [a % b] on real numbers: [a] less [b] times the quotient
    rounded towards zero. *)
Definition js_rem (a b : R) : R :=
  let q := a / b in
  let t := if lt_b q 0 then (- Int_part (- q))%Z else Int_part q in
  a - b * IZR t.

(** [Cue.calculateAngle(vector)] *)
Definition calculateAngle (vector : Vector2) : R :=
  let degrees := atan2 (y vector) (x vector) * (180 / PI) in
  js_rem (degrees + 360) 360.

(** [Cue.updateDirection(ballPos, mousePos)] *)
Definition updateDirection (this : Cue) (ballPos mousePos : Vector2) : Cue :=
  let direction := normalize (Vector_subtract mousePos ballPos) in
  {| power := power this; direction := direction;
     angle := Some (calculateAngle direction);
     isCharging := isCharging this;
     startChargeTime := startChargeTime this; shift := shift this |}.

(** [class Renderer]: the sizes of the canvas and the two scales *)
Record Renderer : Type := mkRenderer
  { canvas_width : R; canvas_height : R;
    simScaleLength : R; Renderer_scale : R }.

(** [new Renderer(canvas)], whose [updateScale()] sets the canvas from the
    sizes of the window *)
Definition new_Renderer (innerWidth innerHeight : R) : Renderer :=
  let simScaleLength := 20 in
  let canvas_width := innerWidth - 20 in
  let canvas_height := innerHeight - 100 in
  {| canvas_width := canvas_width; canvas_height := canvas_height;
     simScaleLength := simScaleLength;
     Renderer_scale := Rmin canvas_width canvas_height / simScaleLength |}.

(** [Renderer.toCanvasX], [toCanvasY], [toWorldX], [toWorldY] *)
Definition toCanvasX (this : Renderer) (x : R) : R := x * Renderer_scale this.

Definition toCanvasY (this : Renderer) (y : R) : R :=
  canvas_height this - y * Renderer_scale this.

Definition toWorldX (this : Renderer) (canvasX : R) : R :=
  canvasX / Renderer_scale this.

Definition toWorldY (this : Renderer) (canvasY : R) : R :=
  (canvas_height this - canvasY) / Renderer_scale this.

(** [Game.initBall()], with the two results of [Math.random()] *)
Definition initBall (w : World) (random1 random2 : R) : Ball :=
  let radius := 0.5 in
  {| radius := radius; mass := PI * radius * radius;
     pos := {| x := random1 * x (size w); y := random2 * y (size w) |};
     vel := {| x := 0; y := 0 |} |}.

(** [Game.handleMouseMove(e)]: the pointer at [(ex, ey)] on a canvas whose
    bounding rectangle starts at [(rectx, recty)] *)
Definition handleMouseMove (r : Renderer) (this : Game)
  (ex ey rectx recty : R) : Game :=
  let mousePos := {| x := toWorldX r (ex - rectx);
                     y := toWorldY r (ey - recty) |} in
  {| world := world this; ball := ball this;
     cue := updateDirection (cue this) (pos (ball this)) mousePos |}.

(** [new Game(canvas)]: the constructor ends with a first call of
    [update]. *)
Definition new_Game (r : Renderer) (random1 random2 now : R) : Game :=
  let w := new_World (canvas_width r / Renderer_scale r)
             (canvas_height r / Renderer_scale r) in
  update {| world := w; ball := initBall w random1 random2; cue := new_Cue |}
    now.

(** The events the game listens to, and the animation frame. *)
Inductive Event : Type :=
| MouseMove (ex ey rectx recty : R)
| KeyDown (code : string) (now : R)
| KeyUp (code : string)
| Frame (now : R).

Definition dispatch (r : Renderer) (this : Game) (e : Event) : Game :=
  match e with
  | MouseMove ex ey rectx recty => handleMouseMove r this ex ey rectx recty
  | KeyDown code now => handleKeyDown this code now
  | KeyUp code => handleKeyUp this code
  | Frame now => update this now
  end.

(** The game after a sequence of events. *)
Definition run (r : Renderer) (this : Game) (es : list Event) : Game :=
  fold_left (dispatch r) es this.


End Practice.

(** * src/ch-03-practice/index3.js *)

Module Practice3.

(** [Vector.add(v, s = 1)] *)
Definition add (this v : Vector2) (s : R) : Vector2 :=
  {| x := x this + x v * s; y := y this + y v * s |}.

(** [Vector.subtract(v1, v2)] *)
Definition subtract (v1 v2 : Vector2) : Vector2 :=
  {| x := x v1 - x v2; y := y v1 - y v2 |}.

(** [Vector.scale(s)] *)
Definition scale (this : Vector2) (s : R) : Vector2 :=
  {| x := x this * s; y := y this * s |}.

(** [Vector.length()] *)
Definition length (this : Vector2) : R :=
  sqrt (x this * x this + y this * y this).

(** [Vector.dot(v)] *)
Definition dot (this v : Vector2) : R :=
  x this * x v + y this * y v.

(** [class Ball] *)
Record Ball : Type := mkBall
  { pos : Vector2; vel : Vector2; radius : R; color : string;
    mass : R; gravity : Vector2 }.

(** [new Ball({ pos, vel, radius, color, gravity })]: the mass is the area
    of the disc; a missing colour or gravity takes its default.  With
    [color || 'red'] the empty string, the one falsy string, is replaced by
    the default as well; a gravity vector is an object and always kept. *)
Definition new_Ball (pos vel : Vector2) (radius : R)
  (color : option string) (gravity : option Vector2) : Ball :=
  {| pos := pos; vel := vel; radius := radius;
     color := match color with
              | Some (String a c) => String a c
              | Some EmptyString | None => "red"%string
              end;
     mass := PI * radius * radius;
     gravity := match gravity with
                | Some g => g
                | None => {| x := 0; y := - 9.81 |}
                end |}.

Definition set_pos (b : Ball) (p : Vector2) : Ball :=
  {| pos := p; vel := vel b; radius := radius b; color := color b;
     mass := mass b; gravity := gravity b |}.

Definition set_vel (b : Ball) (v : Vector2) : Ball :=
  {| pos := pos b; vel := v; radius := radius b; color := color b;
     mass := mass b; gravity := gravity b |}.

Definition set_pos_x (b : Ball) (v : R) : Ball :=
  set_pos b {| x := v; y := y (pos b) |}.

Definition set_pos_y (b : Ball) (v : R) : Ball :=
  set_pos b {| x := x (pos b); y := v |}.

Definition set_vel_x (b : Ball) (v : R) : Ball :=
  set_vel b {| x := v; y := y (vel b) |}.

Definition set_vel_y (b : Ball) (v : R) : Ball :=
  set_vel b {| x := x (vel b); y := v |}.

(** [Ball.update(dt)] *)
Definition update (this : Ball) (dt : R) : Ball :=
  let this := set_vel this (add (vel this) (gravity this) dt) in
  set_pos this (add (pos this) (vel this) dt).

(** The canvas of the [Renderer], by its two sizes, and [scale = 20] *)
Record Renderer : Type := mkRenderer
  { canvas_width : R; canvas_height : R }.

Definition renderer_scale : R := 20.

(** The four tests of [Renderer.handleWallCollision], in the order of the
    source *)
Definition hitTop (this : Renderer) (ball : Ball) : Ball :=
  if gt_b (y (pos ball) + radius ball) (canvas_height this / renderer_scale)
  then set_vel_y
         (set_pos_y ball (canvas_height this / renderer_scale - radius ball))
         (- y (vel ball) * 0.9)
  else ball.

Definition hitBottom (ball : Ball) : Ball :=
  if lt_b (y (pos ball) - radius ball) 0
  then set_vel_y (set_pos_y ball (radius ball)) (- y (vel ball) * 0.9)
  else ball.

Definition hitRight (this : Renderer) (ball : Ball) : Ball :=
  if gt_b (x (pos ball) + radius ball) (canvas_width this / renderer_scale)
  then set_vel_x
         (set_pos_x ball (canvas_width this / renderer_scale - radius ball))
         (- x (vel ball) * 0.9)
  else ball.

Definition hitLeft (ball : Ball) : Ball :=
  if lt_b (x (pos ball) - radius ball) 0
  then set_vel_x (set_pos_x ball (radius ball)) (- x (vel ball) * 0.9)
  else ball.

(** [Renderer.handleWallCollision(ball)] *)
Definition handleWallCollision (this : Renderer) (ball : Ball) : Ball :=
  hitLeft (hitRight this (hitBottom (hitTop this ball))).

Definition newV1 (m1 m2 v1 v2 restitution : R) : R :=
  (m1 * v1 + m2 * v2 - m2 * (v1 - v2) * restitution) / (m1 + m2).

Definition newV2 (m1 m2 v1 v2 restitution : R) : R :=
  (m1 * v1 + m2 * v2 - m1 * (v2 - v1) * restitution) / (m1 + m2).

(** [Renderer.handleBallsCollision(ball1, ball2, restitution)] *)
Definition handleBallsCollision (ball1 ball2 : Ball) (restitution : R)
  : Ball * Ball :=
  let dir := subtract (pos ball2) (pos ball1) in
  let d := length dir in
  if eq_b d 0 || gt_b d (radius ball1 + radius ball2) then (ball1, ball2)
  else
    let dir := scale dir (1 / d) in
    let corr := (radius ball1 + radius ball2 - d) / 2 in
    let ball1 := set_pos ball1 (add (pos ball1) dir (- corr)) in
    let ball2 := set_pos ball2 (add (pos ball2) dir corr) in
    let v1 := dot (vel ball1) dir in
    let v2 := dot (vel ball2) dir in
    let m1 := mass ball1 in
    let m2 := mass ball2 in
    let nv1 := newV1 m1 m2 v1 v2 restitution in
    let nv2 := newV2 m1 m2 v1 v2 restitution in
    let ball1 := set_vel ball1 (add (vel ball1) dir (nv1 - v1)) in
    let ball2 := set_vel ball2 (add (vel ball2) dir (nv2 - v2)) in
    (ball1, ball2).

Definition distance (ball1 ball2 : Ball) : R :=
  length (subtract (pos ball2) (pos ball1)).

Definition normal (ball1 ball2 : Ball) : Vector2 :=
  scale (subtract (pos ball2) (pos ball1)) (1 / distance ball1 ball2).

Definition set_gravity (b : Ball) (g : Vector2) : Ball :=
  {| pos := pos b; vel := vel b; radius := radius b; color := color b;
     mass := mass b; gravity := g |}.

(** [Ball.updateGravity(gravity)] *)
Definition updateGravity (this : Ball) (g : Vector2) : Ball :=
  set_gravity this (add (gravity this) g 1).

(** [Renderer.kickBall(ball, dir)] *)
Definition kickBall (ball : Ball) (dir : Vector2) : Ball :=
  let ball := updateGravity ball {| x := 0; y := - 9.81 |} in
  set_vel ball (add (vel ball) dir 20).

(** [Renderer.cX(x)] and [Renderer.cY(y)] *)
Definition cX (x : R) : R := x * renderer_scale.

Definition cY (this : Renderer) (y : R) : R :=
  canvas_height this - y * renderer_scale.

(** The position of a click in the world, as the click listener computes
    it *)
Definition pointerPos (this : Renderer) (clientX clientY : R) : Vector2 :=
  {| x := clientX / renderer_scale;
     y := (canvas_height this - clientY) / renderer_scale |}.

(** The click listener, on the first ball of the renderer *)
Definition onClick (this : Renderer) (ball0 : Ball) (clientX clientY : R)
  : Ball :=
  let pointerPos := pointerPos this clientX clientY in
  let len := length pointerPos in
  let dir := scale pointerPos (1 / len) in
  kickBall ball0 dir.

(** [addBall(renderer)]: the ball the page starts with *)
Definition firstBall : Ball :=
  new_Ball {| x := 1; y := 1 |} {| x := 0; y := 0 |} 0.5
    (Some "red"%string) (Some {| x := 0; y := 0 |}).


End Practice3.

(** * src/unnamed/part_000 *)

Module Part000.

(** [class Ball]: position and velocity are plain number fields. *)
Record Ball : Type := mkBall
  { radius : R; x : R; y : R; vx : R; vy : R }.

(** [Ball.move(timeStep)] *)
Definition move (this : Ball) (timeStep : R) : Ball :=
  {| radius := radius this;
     x := x this + vx this * timeStep;
     y := y this + vy this * timeStep;
     vx := vx this; vy := vy this |}.

(** [Ball.applyGravity(gx, gy, timeStep)] *)
Definition applyGravity (this : Ball) (gx gy timeStep : R) : Ball :=
  {| radius := radius this; x := x this; y := y this;
     vx := vx this + gx * timeStep;
     vy := vy this + gy * timeStep |}.

(** The part of [class Scene] the physics reads *)
Record Scene : Type := mkScene { simWidth : R; simHeight : R }.

(** [class Core]: the gravity and the time step are instance fields. *)
Record Core : Type := mkCore
  { gravity_x : R; gravity_y : R; timeStep : R; scene : Scene; ball : Ball }.

(** [new Core(scene, ball)] *)
Definition new_Core (scene : Scene) (ball : Ball) : Core :=
  {| gravity_x := 0; gravity_y := - 10; timeStep := 1 / 60;
     scene := scene; ball := ball |}.

Definition set_ball (this : Core) (b : Ball) : Core :=
  {| gravity_x := gravity_x this; gravity_y := gravity_y this;
     timeStep := timeStep this; scene := scene this; ball := b |}.

(** The three tests of [Core.handleCollision]; there is none for the
    ceiling. *)
Definition hitLeft (b : Ball) : Ball :=
  if lt_b (x b) 0
  then {| radius := radius b; x := 0; y := y b; vx := - vx b; vy := vy b |}
  else b.

Definition hitRight (s : Scene) (b : Ball) : Ball :=
  if gt_b (x b) (simWidth s)
  then {| radius := radius b; x := simWidth s; y := y b;
          vx := - vx b; vy := vy b |}
  else b.

Definition hitGround (b : Ball) : Ball :=
  if lt_b (y b) 0
  then {| radius := radius b; x := x b; y := 0; vx := vx b; vy := - vy b |}
  else b.

(** [Core.handleCollision()] *)
Definition handleCollision (this : Core) : Core :=
  set_ball this (hitGround (hitRight (scene this) (hitLeft (ball this)))).

(** [Core.simulate()] *)
Definition simulate (this : Core) : Core :=
  let this :=
    set_ball this
      (applyGravity (ball this) (gravity_x this) (gravity_y this)
         (timeStep this)) in
  let this := set_ball this (move (ball this) (timeStep this)) in
  handleCollision this.

(** [Scene.init()], on a canvas of the given sizes: the two sizes of the
    world *)
Definition init (canvas_width canvas_height minScale : R) : Scene :=
  let cScale := Rmin canvas_width canvas_height / minScale in
  {| simWidth := canvas_width / cScale;
     simHeight := canvas_height / cScale |}.

(** The ball and the scene of the page: [new Ball(0.2, 0.2, 0.2, 10, 15)]
    and [new Scene(canvasEl, 20, ball)] *)
Definition pageBall : Ball :=
  {| radius := 0.2; x := 0.2; y := 0.2; vx := 10; vy := 15 |}.

Definition pageCore (canvas_width canvas_height : R) : Core :=
  new_Core (init canvas_width canvas_height 20) pageBall.


End Part000.

(** * A ball of index3.js seen as a ball of ch-03

    The physics fields of the two classes are the same; the colour and the
    gravity of the ball play no part in a collision. *)

Definition forget (b : Practice3.Ball) : Ch03.Ball :=
  {| Ch03.radius := Practice3.radius b;
     Ch03.mass := Practice3.mass b;
     Ch03.pos := Practice3.pos b;
     Ch03.vel := Practice3.vel b |}.

(** The kinetic energy of a ball of mass [m] moving at speed [v] along the
    contact normal. *)
Definition kinetic (m v : R) : R := 1 / 2 * m * (v * v).

(** A ball fits a world when the world is at least one diameter of the ball
    wide and high; it lies inside the walls when its centre is one radius
    away from each wall at least. *)
Definition fitsWorld (w : Vector2) (b : Ch03.Ball) : Prop :=
  Ch03.radius b <= x w - Ch03.radius b /\
  Ch03.radius b <= y w - Ch03.radius b.

Definition insideWalls (w : Vector2) (b : Ch03.Ball) : Prop :=
  Ch03.radius b <= x (Ch03.pos b) <= x w - Ch03.radius b /\
  Ch03.radius b <= y (Ch03.pos b) <= y w - Ch03.radius b.


(** * Sample states *)

(** A cue that has been charging since time 1000, and an idle one. *)
Definition chargingCue : Practice.Cue :=
  {| Practice.power := 55; Practice.direction := mkVector2 1 0;
     Practice.angle := Some 0; Practice.isCharging := true;
     Practice.startChargeTime := 1000; Practice.shift := 15 |}.

Definition idleCue : Practice.Cue :=
  {| Practice.power := 0; Practice.direction := mkVector2 1 0;
     Practice.angle := Some 0; Practice.isCharging := false;
     Practice.startChargeTime := 0; Practice.shift := 15 |}.

(** The ball of the game, of radius 0.5, at rest. *)
Definition cueBall : Practice.Ball :=
  {| Practice.radius := 0.5; Practice.mass := PI * 0.5 * 0.5;
     Practice.pos := mkVector2 3 4; Practice.vel := mkVector2 0 0 |}.

Definition chargingGame : Practice.Game :=
  {| Practice.world := Practice.new_World 10 10;
     Practice.ball := cueBall; Practice.cue := chargingCue |}.

Definition idleGame : Practice.Game :=
  {| Practice.world := Practice.new_World 10 10;
     Practice.ball := cueBall; Practice.cue := idleCue |}.

(** The body of the boundary example: radius 0.5, centre at (-0.1, 5),
    moving to the left and up, in a world 10 wide and 10 high. *)
Definition wallBall : Ch03.Ball :=
  {| Ch03.radius := 0.5; Ch03.mass := PI * 0.5 * 0.5;
     Ch03.pos := mkVector2 (- 0.1) 5; Ch03.vel := mkVector2 (- 2) 1 |}.

Definition practiceBall : Practice.Ball :=
  {| Practice.radius := 0.5; Practice.mass := PI * 0.5 * 0.5;
     Practice.pos := mkVector2 (- 0.1) 5; Practice.vel := mkVector2 (- 2) 1 |}.

Definition wallWorld : Vector2 := mkVector2 10 10.

Definition practiceWorld : Practice.World := Practice.new_World 10 10.

(** A ball of index3.js touching the left wall of a 400 x 300 canvas. *)
Definition dampedWallBall : Practice3.Ball :=
  Practice3.new_Ball (mkVector2 0.2 5) (mkVector2 (- 2) 1) 0.5 None None.

Definition dampedCanvas : Practice3.Renderer :=
  {| Practice3.canvas_width := 400; Practice3.canvas_height := 300 |}.

(** A ball of radius 1 in a world only 1.5 wide, and a ball of radius 2 in a
    world only 3 wide: both are past the left wall only, and move to the
    right. *)
Definition narrowBall : Ch03.Ball :=
  {| Ch03.radius := 1; Ch03.mass := PI * 1 * 1;
     Ch03.pos := mkVector2 0.2 5; Ch03.vel := mkVector2 1 0 |}.

Definition narrowWorld : Vector2 := mkVector2 1.5 10.

Definition tightBall : Ch03.Ball :=
  {| Ch03.radius := 2; Ch03.mass := PI * 2 * 2;
     Ch03.pos := mkVector2 1 5; Ch03.vel := mkVector2 3 0 |}.

Definition tightWorld : Vector2 := mkVector2 3 12.

(** A ball past the left wall that already moves back into the world, in
    ch-03 and in part_000. *)
Definition inwardBall : Ch03.Ball :=
  {| Ch03.radius := 0.5; Ch03.mass := PI * 0.5 * 0.5;
     Ch03.pos := mkVector2 0.2 5; Ch03.vel := mkVector2 2 0 |}.

Definition inwardCore : Part000.Core :=
  Part000.new_Core {| Part000.simWidth := 20; Part000.simHeight := 30 |}
    {| Part000.radius := 0.2; Part000.x := - 0.1; Part000.y := 3;
       Part000.vx := 10; Part000.vy := 15 |}.

(** Two overlapping balls of ch-03 with centres 5 apart and radii 3 and 2.5,
    and the same two as balls of index3.js. *)
Definition ballA : Ch03.Ball :=
  {| Ch03.radius := 3; Ch03.mass := PI * 3 * 3;
     Ch03.pos := mkVector2 0 0; Ch03.vel := mkVector2 2 1 |}.

Definition ballB : Ch03.Ball :=
  {| Ch03.radius := 2.5; Ch03.mass := PI * 2.5 * 2.5;
     Ch03.pos := mkVector2 3 4; Ch03.vel := mkVector2 (- 1) 0 |}.

Definition discA : Practice3.Ball :=
  Practice3.new_Ball (mkVector2 0 0) (mkVector2 2 1) 3 None None.

Definition discB : Practice3.Ball :=
  Practice3.new_Ball (mkVector2 3 4) (mkVector2 (- 1) 0) 2.5
    (Some "blue"%string) (Some (mkVector2 0 0)).

(** A ball of radius [1 / sqrt PI], whose mass [PI * radius * radius], as
    [Scene.setupBalls] computes it, is 1. *)
Definition unitRadius : R := 1 / sqrt PI.

Definition unitBall (p v : Vector2) : Ch03.Ball :=
  {| Ch03.radius := unitRadius; Ch03.mass := PI * unitRadius * unitRadius;
     Ch03.pos := p; Ch03.vel := v |}.

(** The moving ball at the origin and the resting ball at [(d, 0)] of the
    head-on scenario. *)
Definition striker : Ch03.Ball := unitBall (mkVector2 0 0) (mkVector2 1 0).

Definition target (d : R) : Ch03.Ball :=
  unitBall (mkVector2 d 0) (mkVector2 0 0).

(** A scene of ch-03 with the two sample balls in a world 10 by 10, on a
    canvas 500 by 500. *)
Definition sampleScene : Ch03.Scene :=
  {| Ch03.balls := [ballA; ballB];
     Ch03.canvas_width := 500; Ch03.canvas_height := 500;
     Ch03.minScale := 10; Ch03.cScale := 50;
     Ch03.simWidth := 10; Ch03.simHeight := 10;
     Ch03.worldSize := mkVector2 10 10;
     Ch03.Scene_gravity := mkVector2 0 0;
     Ch03.restitution := 1 |}.

Definition sampleCore : Ch03.Core := Ch03.new_Core sampleScene.

(** A ball of radius 2 that just touches [ballA]. *)
Definition ballC : Ch03.Ball :=
  {| Ch03.radius := 2; Ch03.mass := PI * 2 * 2;
     Ch03.pos := mkVector2 3 4; Ch03.vel := mkVector2 0 0 |}.

(** A source of random numbers that always answers one half. *)
Definition halves : nat -> R := fun _ => 0.5.

(** * Properties *)

(** ** Comparisons *)

Lemma lt_b_true (a b : R) : a < b -> lt_b a b = true.
Proof. intros H. unfold lt_b. destruct (Rlt_dec a b); [reflexivity | lra]. Qed.

Lemma lt_b_false (a b : R) : b <= a -> lt_b a b = false.
Proof. intros H. unfold lt_b. destruct (Rlt_dec a b); [lra | reflexivity]. Qed.

Lemma gt_b_true (a b : R) : b < a -> gt_b a b = true.
Proof. intros H. unfold gt_b. destruct (Rgt_dec a b); [reflexivity | lra]. Qed.

Lemma gt_b_false (a b : R) : a <= b -> gt_b a b = false.
Proof. intros H. unfold gt_b. destruct (Rgt_dec a b); [lra | reflexivity]. Qed.

Lemma eq_b_true (a b : R) : a = b -> eq_b a b = true.
Proof.
  intros H. unfold eq_b. destruct (Req_dec_T a b); [reflexivity | lra].
Qed.

Lemma eq_b_false (a b : R) : a <> b -> eq_b a b = false.
Proof.
  intros H. unfold eq_b.
  destruct (Req_dec_T a b); [contradiction | reflexivity].
Qed.

(** Decide every comparison in the goal both ways and let linear arithmetic
    discard the impossible combinations. *)
Ltac by_cases :=
  unfold lt_b, gt_b, eq_b;
  repeat match goal with
    | |- context [Rlt_dec ?a ?b] => destruct (Rlt_dec a b)
    | |- context [Rgt_dec ?a ?b] => destruct (Rgt_dec a b)
    | |- context [Req_dec_T ?a ?b] => destruct (Req_dec_T a b)
    end;
  simpl in *; try lra.

(** ** The integrator *)

Section Integrator.

(** C2. One integration step writes the velocity first and moves the body with
    the velocity just written: in ch-03 ([Ball.simulate]) and in part_000
    ([applyGravity] then [move], the first two statements of [Core.simulate],
    whose result is what [handleCollision] then receives) the new velocity is
    the old one plus gravity times [dt], and the new position is the old one
    plus the new velocity times [dt], for every [dt].  A body at rest under
    gravity (0, -9.81) with [dt = 1] ends with velocity (0, -9.81) and has
    moved by that velocity, not stayed in place. *)
Theorem C2_velocity_before_position :
  (forall (b : Ch03.Ball) (dt : R) (g : Vector2),
      let b' := Ch03.simulate b dt g in
      x (Ch03.vel b') = x (Ch03.vel b) + x g * dt /\
      y (Ch03.vel b') = y (Ch03.vel b) + y g * dt /\
      x (Ch03.pos b') = x (Ch03.pos b) + x (Ch03.vel b') * dt /\
      y (Ch03.pos b') = y (Ch03.pos b) + y (Ch03.vel b') * dt /\
      Ch03.radius b' = Ch03.radius b /\ Ch03.mass b' = Ch03.mass b) /\
  (forall (b : Part000.Ball) (gx gy dt : R),
      let b' := Part000.move (Part000.applyGravity b gx gy dt) dt in
      Part000.vx b' = Part000.vx b + gx * dt /\
      Part000.vy b' = Part000.vy b + gy * dt /\
      Part000.x b' = Part000.x b + Part000.vx b' * dt /\
      Part000.y b' = Part000.y b + Part000.vy b' * dt /\
      Part000.radius b' = Part000.radius b) /\
  (forall c : Part000.Core,
      Part000.simulate c =
      Part000.handleCollision
        (Part000.set_ball c
           (Part000.move
              (Part000.applyGravity (Part000.ball c) (Part000.gravity_x c)
                 (Part000.gravity_y c) (Part000.timeStep c))
              (Part000.timeStep c)))) /\
  (forall (r m : R) (p : Vector2),
      let b' := Ch03.simulate (Ch03.mkBall r m p (mkVector2 0 0)) 1
                  (mkVector2 0 (- 9.81)) in
      Ch03.vel b' = mkVector2 0 (- 9.81) /\
      Ch03.pos b' = mkVector2 (x p) (y p - 9.81) /\
      Ch03.pos b' <> p) /\
  (forall (r px py : R),
      let b' := Part000.move
                  (Part000.applyGravity (Part000.mkBall r px py 0 0)
                     0 (- 9.81) 1) 1 in
      Part000.vx b' = 0 /\ Part000.vy b' = - 9.81 /\
      Part000.x b' = px /\ Part000.y b' = py - 9.81).
Proof.
  split; [| split; [| split; [| split]]].
  - intros b dt g; simpl; repeat split; reflexivity.
  - intros b gx gy dt; simpl; repeat split; reflexivity.
  - reflexivity.
  - intros r m [px py]; simpl; split; [| split].
    + unfold Ch03.add, Ch03.set_vel; simpl; f_equal; lra.
    + unfold Ch03.add; simpl; f_equal; lra.
    + unfold Ch03.add; simpl; intros E.
      assert (H : py + (0 + - 9.81 * 1) * 1 = py) by (injection E; auto).
      lra.
  - intros r px py; simpl; repeat split; lra.
Qed.

End Integrator.


(** ** The cue *)

Section CueStateMachine.

Import Practice.

Lemma Rmin_mono_l (a b c : R) : a <= b -> Rmin a c <= Rmin b c.
Proof.
  intros H. unfold Rmin.
  destruct (Rle_dec a c), (Rle_dec b c); lra.
Qed.

Lemma exp_le_mono (a b : R) : a <= b -> exp a <= exp b.
Proof.
  intros [H | ->]; [left; now apply exp_increasing | right; reflexivity].
Qed.

Lemma getCurveValue_eq (maxValue minValue a : R) :
  getCurveValue maxValue minValue a
  = maxValue - (maxValue - minValue) * exp (- 3 * a).
Proof.
  unfold getCurveValue. cbv zeta.
  replace (- (3) * a) with (- 3 * a) by lra. reflexivity.
Qed.

Lemma getCurveValue_mono (maxValue minValue a b : R) :
  minValue <= maxValue -> a <= b ->
  getCurveValue maxValue minValue a <= getCurveValue maxValue minValue b.
Proof.
  intros Hm Hab. rewrite !getCurveValue_eq.
  assert (He : exp (- 3 * b) <= exp (- 3 * a)) by (apply exp_le_mono; lra).
  assert (0 <= (maxValue - minValue) * (exp (- 3 * a) - exp (- 3 * b)))
    by (apply Rmult_le_pos; lra).
  lra.
Qed.

Lemma getCurveValue_below_max (maxValue minValue a : R) :
  minValue < maxValue -> getCurveValue maxValue minValue a < maxValue.
Proof.
  intros Hm. rewrite getCurveValue_eq.
  assert (0 < (maxValue - minValue) * exp (- 3 * a))
    by (apply Rmult_lt_0_compat; [lra | apply exp_pos]).
  lra.
Qed.

Lemma updateCharge_charging (c : Cue) (now : R) :
  isCharging c = true ->
  updateCharge c now =
  {| power := getCurveValue MAX_POWER MIN_POWER
                (Rmin ((now - startChargeTime c) / CHARGE_TIME) 1);
     direction := direction c; angle := angle c;
     isCharging := true; startChargeTime := startChargeTime c;
     shift := getCurveValue MAX_SHIFT MIN_SHIFT
                (Rmin ((now - startChargeTime c) / CHARGE_TIME) 1) |}.
Proof. intros H. unfold updateCharge. rewrite H. reflexivity. Qed.

(** At the moment the charge starts the curve gives the two minima. *)
Example charge_starts_at_minimum :
  power (updateCharge (startCharge idleCue 500) 500) = MIN_POWER /\
  shift (updateCharge (startCharge idleCue 500) 500) = MIN_SHIFT.
Proof.
  rewrite updateCharge_charging by reflexivity. simpl.
  assert (H0 : Rmin ((500 - 500) / CHARGE_TIME) 1 = 0).
  { unfold CHARGE_TIME. rewrite Rmin_left; lra. }
  rewrite H0, !getCurveValue_eq. replace (- 3 * 0) with 0 by lra.
  rewrite exp_0. unfold MAX_POWER, MIN_POWER, MAX_SHIFT, MIN_SHIFT.
  split; lra.
Qed.

(** C3, as the code has it.  While the cue is charging, two successive
    [updateCharge] calls at times [t1 <= t2] give a power and a draw-back
    offset that do not decrease, each the value of the ease-out curve
    [max - (max - min) * exp (-3 * min (elapsed / 2000) 1)].  Once the elapsed
    time is at least 2000 ms both values stay constant, at
    [100 - 90 * exp (-3)] and [30 - 30 * exp (-3)], strictly below
    [MAX_POWER] and [MAX_SHIFT]. *)
Theorem C3_charge_curve_monotone (c : Cue) (t1 t2 : R) :
  isCharging c = true -> t1 <= t2 ->
  let c1 := updateCharge c t1 in
  let c2 := updateCharge c1 t2 in
  power c1 <= power c2 /\
  shift c1 <= shift c2 /\
  power c2 =
    getCurveValue MAX_POWER MIN_POWER
      (Rmin ((t2 - startChargeTime c) / CHARGE_TIME) 1) /\
  shift c2 =
    getCurveValue MAX_SHIFT MIN_SHIFT
      (Rmin ((t2 - startChargeTime c) / CHARGE_TIME) 1) /\
  (CHARGE_TIME <= t2 - startChargeTime c ->
   power c2 = 100 - 90 * exp (- 3) /\
   shift c2 = 30 - 30 * exp (- 3) /\
   power c2 < MAX_POWER /\ shift c2 < MAX_SHIFT).
Proof.
  intros Hc Ht c1 c2. subst c2 c1.
  rewrite (updateCharge_charging c t1 Hc).
  rewrite updateCharge_charging by reflexivity. simpl.
  assert (Hn : Rmin ((t1 - startChargeTime c) / CHARGE_TIME) 1
               <= Rmin ((t2 - startChargeTime c) / CHARGE_TIME) 1).
  { apply Rmin_mono_l. unfold CHARGE_TIME. lra. }
  split; [| split; [| split; [| split]]].
  - apply getCurveValue_mono; [unfold MIN_POWER, MAX_POWER; lra | exact Hn].
  - apply getCurveValue_mono; [unfold MIN_SHIFT, MAX_SHIFT; lra | exact Hn].
  - reflexivity.
  - reflexivity.
  - intros Hsat.
    assert (H1 : Rmin ((t2 - startChargeTime c) / CHARGE_TIME) 1 = 1).
    { apply Rmin_right. unfold CHARGE_TIME in *. lra. }
    rewrite H1, !getCurveValue_eq.
    unfold MAX_POWER, MIN_POWER, MAX_SHIFT, MIN_SHIFT.
    replace (- 3 * 1) with (- 3) by lra.
    pose proof (exp_pos (- 3)). repeat split; lra.
Qed.

(** At times 1500 and 3500 a cue charging since 1000 has gone past the
    charge time between the two samples. *)
Lemma C3_charge_curve_monotone_witness :
  power (updateCharge chargingCue 1500)
  <= power (updateCharge (updateCharge chargingCue 1500) 3500) /\
  power (updateCharge (updateCharge chargingCue 1500) 3500)
  = 100 - 90 * exp (- 3).
Proof.
  assert (Hc : isCharging chargingCue = true) by reflexivity.
  assert (Ht : 1500 <= 3500) by lra.
  destruct (C3_charge_curve_monotone chargingCue 1500 3500 Hc Ht)
    as (Hp & _ & _ & _ & Hsat).
  split; [exact Hp |].
  apply Hsat. unfold CHARGE_TIME. simpl. lra.
Defined.

(** C3, as the claim has it, fails: at exactly 2000 ms of charge the power is
    not [MAX_POWER] and the offset is not [MAX_SHIFT]. *)
Lemma C3_saturation_is_below_max :
  isCharging chargingCue = true /\
  CHARGE_TIME <= 3000 - startChargeTime chargingCue /\
  power (updateCharge chargingCue 3000) <> MAX_POWER /\
  shift (updateCharge chargingCue 3000) <> MAX_SHIFT.
Proof.
  split; [reflexivity | split; [unfold CHARGE_TIME; simpl; lra |]].
  assert (H1 : Rmin ((3000 - 1000) / CHARGE_TIME) 1 = 1).
  { apply Rmin_right. unfold CHARGE_TIME. lra. }
  unfold updateCharge. simpl. rewrite H1.
  rewrite !getCurveValue_eq.
  unfold MAX_POWER, MIN_POWER, MAX_SHIFT, MIN_SHIFT.
  pose proof (exp_pos (- 3 * 1)). split; lra.
Qed.

(** C8, as the code has it.  The guard sits in the key handler:
    [handleKeyDown] leaves the whole game, the cue and its start time
    included, unchanged while the cue is charging, whatever the key, and
    unchanged for every key other than Space, whatever the state; from the
    idle state the Space key calls [startCharge].  So only a Space key-down
    handled in the idle state changes anything, and what it does is the call
    of [startCharge].  [startCharge] itself has no guard: it always sets the
    charging flag, records [now] as the start time and leaves the other
    fields alone. *)
Theorem C8_guard_in_key_handler :
  (forall (g : Game) (code : string) (now : R),
      isCharging (cue g) = true -> handleKeyDown g code now = g) /\
  (forall (g : Game) (code : string) (now : R),
      code <> "Space"%string -> handleKeyDown g code now = g) /\
  (forall (g : Game) (now : R),
      isCharging (cue g) = false ->
      handleKeyDown g "Space" now =
      {| world := world g; ball := ball g; cue := startCharge (cue g) now |}) /\
  (forall (g : Game) (code : string) (now : R),
      handleKeyDown g code now <> g ->
      code = "Space"%string /\
      isCharging (cue g) = false /\
      handleKeyDown g code now =
      {| world := world g; ball := ball g; cue := startCharge (cue g) now |}) /\
  (forall (c : Cue) (now : R),
      isCharging (startCharge c now) = true /\
      startChargeTime (startCharge c now) = now /\
      power (startCharge c now) = power c /\
      shift (startCharge c now) = shift c /\
      direction (startCharge c now) = direction c /\
      angle (startCharge c now) = angle c).
Proof.
  split; [| split; [| split; [| split]]].
  - intros g code now H. unfold handleKeyDown. rewrite H.
    rewrite andb_false_r. reflexivity.
  - intros g code now H. unfold handleKeyDown.
    apply String.eqb_neq in H. rewrite H. reflexivity.
  - intros g now H. unfold handleKeyDown. rewrite H. reflexivity.
  - intros g code now. unfold handleKeyDown.
    destruct (String.eqb code "Space") eqn:E;
      destruct (isCharging (cue g)) eqn:C; cbn [andb negb]; intros H;
      try (exfalso; apply H; reflexivity).
    apply String.eqb_eq in E. repeat split. exact E.
  - intros c now. repeat split.
Qed.

Lemma C8_guard_in_key_handler_witness :
  handleKeyDown chargingGame "Space" 1500 = chargingGame /\
  handleKeyDown idleGame "Enter" 1500 = idleGame /\
  startChargeTime (cue (handleKeyDown idleGame "Space" 1500)) = 1500 /\
  handleKeyDown idleGame "Space" 1500 =
  {| world := world idleGame; ball := ball idleGame;
     cue := startCharge (cue idleGame) 1500 |}.
Proof.
  split; [| split; [| split]].
  - apply (proj1 C8_guard_in_key_handler chargingGame "Space"%string 1500).
    reflexivity.
  - apply (proj1 (proj2 C8_guard_in_key_handler) idleGame "Enter"%string 1500).
    apply String.eqb_neq. reflexivity.
  - rewrite (proj1 (proj2 (proj2 C8_guard_in_key_handler)) idleGame 1500);
      reflexivity.
  - apply (proj1 (proj2 (proj2 (proj2 C8_guard_in_key_handler)))
             idleGame "Space"%string 1500).
    intros E.
    assert (H : isCharging (cue (handleKeyDown idleGame "Space" 1500))
                = isCharging (cue idleGame)) by (rewrite E; reflexivity).
    vm_compute in H. discriminate H.
Defined.

(** C8, as the claim has it, fails: [startCharge] called on a cue charging
    since 1000 overwrites the start time. *)
Lemma C8_startCharge_overwrites_start_time :
  isCharging chargingCue = true /\
  startCharge chargingCue 1500 <> chargingCue /\
  startChargeTime (startCharge chargingCue 1500) = 1500 /\
  startChargeTime chargingCue = 1000.
Proof.
  repeat split.
  intros E.
  assert (H : startChargeTime (startCharge chargingCue 1500)
              = startChargeTime chargingCue) by (rewrite E; reflexivity).
  simpl in H. lra.
Qed.

(** C9. Releasing a charging cue sets the power to 0, the charging flag to
    false, the start time to 0 and the angle to undefined; the draw-back
    offset keeps the value it had before the release. *)
Theorem C9_release_keeps_shift (c : Cue) (b : Ball) :
  isCharging c = true ->
  let c' := fst (release c b) in
  power c' = 0 /\
  isCharging c' = false /\
  startChargeTime c' = 0 /\
  angle c' = None /\
  shift c' = shift c.
Proof.
  intros H. unfold release. rewrite H. simpl. repeat split.
Qed.

Lemma C9_release_keeps_shift_witness :
  isCharging chargingCue = true /\
  power (fst (release chargingCue cueBall)) = 0 /\
  shift (fst (release chargingCue cueBall)) = 15.
Proof.
  assert (Hc : isCharging chargingCue = true) by reflexivity.
  destruct (C9_release_keeps_shift chargingCue cueBall Hc)
    as (Hp & _ & _ & _ & Hs).
  split; [exact Hc | split; [exact Hp | exact Hs]].
Defined.

End CueStateMachine.

(** ** The walls *)

Section Walls.

(** Unfold the wall tests of the four files down to the comparisons. *)
Ltac walls :=
  unfold Ch03.handleWallsCollision, Ch03.hitTop, Ch03.hitBottom,
    Ch03.hitRight, Ch03.hitLeft, Ch03.set_vel_x, Ch03.set_vel_y,
    Ch03.set_pos_x, Ch03.set_pos_y, Ch03.set_pos, Ch03.set_vel,
    Practice.handleWallCollision, Practice.hitTop, Practice.hitBottom,
    Practice.hitRight, Practice.hitLeft, Practice.set_vel_x,
    Practice.set_vel_y, Practice.set_pos_x, Practice.set_pos_y,
    Practice.set_pos, Practice.set_vel,
    Practice3.handleWallCollision, Practice3.hitTop, Practice3.hitBottom,
    Practice3.hitRight, Practice3.hitLeft, Practice3.set_vel_x,
    Practice3.set_vel_y, Practice3.set_pos_x, Practice3.set_pos_y,
    Practice3.set_pos, Practice3.set_vel, Practice3.renderer_scale,
    Part000.handleCollision, Part000.hitGround, Part000.hitRight,
    Part000.hitLeft, Part000.set_ball;
  simpl.

(** The vertical tests of ch-03 leave the horizontal fields and the radius
    alone, and the horizontal tests the vertical fields. *)
Lemma Ch03_hitTop_frame (b : Ch03.Ball) (w : Vector2) :
  x (Ch03.pos (Ch03.hitTop b w)) = x (Ch03.pos b) /\
  x (Ch03.vel (Ch03.hitTop b w)) = x (Ch03.vel b) /\
  Ch03.radius (Ch03.hitTop b w) = Ch03.radius b.
Proof. walls. by_cases; auto. Qed.

Lemma Ch03_hitBottom_frame (b : Ch03.Ball) :
  x (Ch03.pos (Ch03.hitBottom b)) = x (Ch03.pos b) /\
  x (Ch03.vel (Ch03.hitBottom b)) = x (Ch03.vel b) /\
  Ch03.radius (Ch03.hitBottom b) = Ch03.radius b.
Proof. walls. by_cases; auto. Qed.

Lemma Ch03_hitLeft_frame (b : Ch03.Ball) :
  y (Ch03.pos (Ch03.hitLeft b)) = y (Ch03.pos b) /\
  y (Ch03.vel (Ch03.hitLeft b)) = y (Ch03.vel b) /\
  Ch03.radius (Ch03.hitLeft b) = Ch03.radius b.
Proof. walls. by_cases; auto. Qed.

Lemma Ch03_hitRight_frame (b : Ch03.Ball) (w : Vector2) :
  y (Ch03.pos (Ch03.hitRight b w)) = y (Ch03.pos b) /\
  y (Ch03.vel (Ch03.hitRight b w)) = y (Ch03.vel b) /\
  Ch03.radius (Ch03.hitRight b w) = Ch03.radius b.
Proof. walls. by_cases; auto. Qed.

(** In a world at least as wide as the ball, a ball of ch-03 whose edge is
    past the left or the right wall is put back at one radius from that wall
    with its horizontal velocity negated, and is left alone horizontally
    otherwise. *)
Lemma Ch03_walls_x (b : Ch03.Ball) (w : Vector2) :
  Ch03.radius b <= x w - Ch03.radius b ->
  let b' := Ch03.handleWallsCollision b w in
  (x (Ch03.pos b) < Ch03.radius b ->
   x (Ch03.pos b') = Ch03.radius b /\ x (Ch03.vel b') = - x (Ch03.vel b)) /\
  (x (Ch03.pos b) > x w - Ch03.radius b ->
   x (Ch03.pos b') = x w - Ch03.radius b /\
   x (Ch03.vel b') = - x (Ch03.vel b)) /\
  (Ch03.radius b <= x (Ch03.pos b) <= x w - Ch03.radius b ->
   x (Ch03.pos b') = x (Ch03.pos b) /\ x (Ch03.vel b') = x (Ch03.vel b)).
Proof.
  intros Hw b'. subst b'. unfold Ch03.handleWallsCollision.
  destruct (Ch03_hitTop_frame
              (Ch03.hitBottom (Ch03.hitRight (Ch03.hitLeft b) w)) w)
    as (-> & -> & _).
  destruct (Ch03_hitBottom_frame (Ch03.hitRight (Ch03.hitLeft b) w))
    as (-> & -> & _).
  destruct b as [r m [px py] [ux uy]], w as [ww wh]. simpl in Hw.
  walls. repeat split; intros; by_cases.
Qed.

Lemma Ch03_walls_y (b : Ch03.Ball) (w : Vector2) :
  Ch03.radius b <= y w - Ch03.radius b ->
  let b' := Ch03.handleWallsCollision b w in
  (y (Ch03.pos b) < Ch03.radius b ->
   y (Ch03.pos b') = Ch03.radius b /\ y (Ch03.vel b') = - y (Ch03.vel b)) /\
  (y (Ch03.pos b) > y w - Ch03.radius b ->
   y (Ch03.pos b') = y w - Ch03.radius b /\
   y (Ch03.vel b') = - y (Ch03.vel b)) /\
  (Ch03.radius b <= y (Ch03.pos b) <= y w - Ch03.radius b ->
   y (Ch03.pos b') = y (Ch03.pos b) /\ y (Ch03.vel b') = y (Ch03.vel b)).
Proof.
  intros Hw b'. subst b'. unfold Ch03.handleWallsCollision.
  destruct (Ch03_hitRight_frame (Ch03.hitLeft b) w) as (Hp & Hv & Hr).
  destruct (Ch03_hitLeft_frame b) as (Hp' & Hv' & Hr').
  rewrite Hp' in Hp. rewrite Hv' in Hv. rewrite Hr' in Hr.
  destruct (Ch03.hitRight (Ch03.hitLeft b) w) as [r1 m1 [px1 py1] [ux1 uy1]].
  destruct b as [r m [px py] [ux uy]], w as [ww wh]. simpl in *. subst.
  walls. repeat split; intros; by_cases.
Qed.

(** The same for the damped walls of index3.js, which tests the vertical
    walls first. *)
Lemma Practice3_hitLeft_frame (b : Practice3.Ball) :
  y (Practice3.pos (Practice3.hitLeft b)) = y (Practice3.pos b) /\
  y (Practice3.vel (Practice3.hitLeft b)) = y (Practice3.vel b) /\
  Practice3.radius (Practice3.hitLeft b) = Practice3.radius b.
Proof. walls. by_cases; auto. Qed.

Lemma Practice3_hitRight_frame (rd : Practice3.Renderer) (b : Practice3.Ball) :
  y (Practice3.pos (Practice3.hitRight rd b)) = y (Practice3.pos b) /\
  y (Practice3.vel (Practice3.hitRight rd b)) = y (Practice3.vel b) /\
  Practice3.radius (Practice3.hitRight rd b) = Practice3.radius b.
Proof. walls. by_cases; auto. Qed.

Lemma Practice3_hitTop_frame (rd : Practice3.Renderer) (b : Practice3.Ball) :
  x (Practice3.pos (Practice3.hitTop rd b)) = x (Practice3.pos b) /\
  x (Practice3.vel (Practice3.hitTop rd b)) = x (Practice3.vel b) /\
  Practice3.radius (Practice3.hitTop rd b) = Practice3.radius b.
Proof. walls. by_cases; auto. Qed.

Lemma Practice3_hitBottom_frame (b : Practice3.Ball) :
  x (Practice3.pos (Practice3.hitBottom b)) = x (Practice3.pos b) /\
  x (Practice3.vel (Practice3.hitBottom b)) = x (Practice3.vel b) /\
  Practice3.radius (Practice3.hitBottom b) = Practice3.radius b.
Proof. walls. by_cases; auto. Qed.

Lemma Practice3_walls_x (rd : Practice3.Renderer) (b : Practice3.Ball) :
  Practice3.radius b
  <= Practice3.canvas_width rd / 20 - Practice3.radius b ->
  let b' := Practice3.handleWallCollision rd b in
  (x (Practice3.pos b) - Practice3.radius b < 0 ->
   x (Practice3.pos b') = Practice3.radius b /\
   x (Practice3.vel b') = - x (Practice3.vel b) * 0.9) /\
  (x (Practice3.pos b) + Practice3.radius b
   > Practice3.canvas_width rd / 20 ->
   x (Practice3.pos b')
   = Practice3.canvas_width rd / 20 - Practice3.radius b /\
   x (Practice3.vel b') = - x (Practice3.vel b) * 0.9).
Proof.
  intros Hw b'. subst b'. unfold Practice3.handleWallCollision.
  destruct (Practice3_hitBottom_frame (Practice3.hitTop rd b))
    as (Hp & Hv & Hr).
  destruct (Practice3_hitTop_frame rd b) as (Hp' & Hv' & Hr').
  rewrite Hp' in Hp. rewrite Hv' in Hv. rewrite Hr' in Hr.
  destruct (Practice3.hitBottom (Practice3.hitTop rd b))
    as [[px1 py1] [ux1 uy1] r1 c1 m1 g1].
  destruct b as [[px py] [ux uy] r c m g], rd as [cw ch]. simpl in *. subst.
  walls. repeat split; intros; by_cases.
Qed.

Lemma Practice3_walls_y (rd : Practice3.Renderer) (b : Practice3.Ball) :
  Practice3.radius b
  <= Practice3.canvas_height rd / 20 - Practice3.radius b ->
  let b' := Practice3.handleWallCollision rd b in
  (y (Practice3.pos b) - Practice3.radius b < 0 ->
   y (Practice3.pos b') = Practice3.radius b /\
   y (Practice3.vel b') = - y (Practice3.vel b) * 0.9) /\
  (y (Practice3.pos b) + Practice3.radius b
   > Practice3.canvas_height rd / 20 ->
   y (Practice3.pos b')
   = Practice3.canvas_height rd / 20 - Practice3.radius b /\
   y (Practice3.vel b') = - y (Practice3.vel b) * 0.9).
Proof.
  intros Hw b'. subst b'. unfold Practice3.handleWallCollision.
  destruct (Practice3_hitLeft_frame
              (Practice3.hitRight rd
                 (Practice3.hitBottom (Practice3.hitTop rd b))))
    as (-> & -> & _).
  destruct (Practice3_hitRight_frame rd
              (Practice3.hitBottom (Practice3.hitTop rd b)))
    as (-> & -> & _).
  destruct b as [[px py] [ux uy] r c m g], rd as [cw ch]. simpl in Hw.
  walls. repeat split; intros; by_cases.
Qed.

(** The walls of ch-03-practice/index.js compare the centre of the ball with
    the wall and put the centre on the wall. *)
Lemma Practice_hitTop_frame (w : Practice.World) (b : Practice.Ball) :
  x (Practice.pos (Practice.hitTop w b)) = x (Practice.pos b) /\
  x (Practice.vel (Practice.hitTop w b)) = x (Practice.vel b).
Proof. walls. by_cases; auto. Qed.

Lemma Practice_hitBottom_frame (b : Practice.Ball) :
  x (Practice.pos (Practice.hitBottom b)) = x (Practice.pos b) /\
  x (Practice.vel (Practice.hitBottom b)) = x (Practice.vel b).
Proof. walls. by_cases; auto. Qed.

Lemma Practice_walls_x (w : Practice.World) (b : Practice.Ball) :
  0 <= x (Practice.size w) ->
  let b' := Practice.handleWallCollision w b in
  (x (Practice.pos b) < 0 ->
   x (Practice.pos b') = 0 /\ x (Practice.vel b') = - x (Practice.vel b)) /\
  (x (Practice.pos b) > x (Practice.size w) ->
   x (Practice.pos b') = x (Practice.size w) /\
   x (Practice.vel b') = - x (Practice.vel b)).
Proof.
  intros Hw b'. subst b'. unfold Practice.handleWallCollision.
  destruct (Practice_hitTop_frame w
              (Practice.hitBottom (Practice.hitLeft (Practice.hitRight w b))))
    as (-> & ->).
  destruct (Practice_hitBottom_frame (Practice.hitLeft (Practice.hitRight w b)))
    as (-> & ->).
  destruct b as [r m [px py] [ux uy]], w as [[ww wh] g e]. simpl in Hw.
  walls. repeat split; intros; by_cases.
Qed.

(** The walls of part_000, tested on the centre as well; the ground test
    leaves the horizontal fields alone. *)
Lemma Part000_hitGround_frame (b : Part000.Ball) :
  Part000.x (Part000.hitGround b) = Part000.x b /\
  Part000.vx (Part000.hitGround b) = Part000.vx b.
Proof. walls. by_cases; auto. Qed.

Lemma Part000_hitLeft_frame (b : Part000.Ball) :
  Part000.y (Part000.hitLeft b) = Part000.y b /\
  Part000.vy (Part000.hitLeft b) = Part000.vy b.
Proof. walls. by_cases; auto. Qed.

Lemma Part000_hitRight_frame (s : Part000.Scene) (b : Part000.Ball) :
  Part000.y (Part000.hitRight s b) = Part000.y b /\
  Part000.vy (Part000.hitRight s b) = Part000.vy b.
Proof. walls. by_cases; auto. Qed.

Lemma Part000_walls_x (c : Part000.Core) :
  0 <= Part000.simWidth (Part000.scene c) ->
  let b := Part000.ball c in
  let b' := Part000.ball (Part000.handleCollision c) in
  (Part000.x b < 0 ->
   Part000.x b' = 0 /\ Part000.vx b' = - Part000.vx b) /\
  (Part000.x b > Part000.simWidth (Part000.scene c) ->
   Part000.x b' = Part000.simWidth (Part000.scene c) /\
   Part000.vx b' = - Part000.vx b).
Proof.
  intros Hw b b'. subst b b'. unfold Part000.handleCollision. simpl.
  destruct (Part000_hitGround_frame
              (Part000.hitRight (Part000.scene c)
                 (Part000.hitLeft (Part000.ball c))))
    as (-> & ->).
  destruct c as [gx gy ts [sw sh] [r px py ux uy]]. simpl in Hw.
  walls. repeat split; intros; by_cases.
Qed.

Lemma Part000_walls_y (c : Part000.Core) :
  let b := Part000.ball c in
  let b' := Part000.ball (Part000.handleCollision c) in
  Part000.y b < 0 ->
  Part000.y b' = 0 /\ Part000.vy b' = - Part000.vy b.
Proof.
  intros b b'. subst b b'. unfold Part000.handleCollision. simpl.
  destruct (Part000_hitRight_frame (Part000.scene c)
              (Part000.hitLeft (Part000.ball c))) as (Hp & Hv).
  destruct (Part000_hitLeft_frame (Part000.ball c)) as (Hp' & Hv').
  rewrite Hp' in Hp. rewrite Hv' in Hv.
  destruct (Part000.hitRight (Part000.scene c)
              (Part000.hitLeft (Part000.ball c))) as [r1 px1 py1 ux1 uy1].
  simpl in *. subst. intros Hy.
  unfold Part000.hitGround. rewrite lt_b_true by exact Hy. simpl. auto.
Qed.

Lemma Practice_hitLeft_frame (b : Practice.Ball) :
  y (Practice.pos (Practice.hitLeft b)) = y (Practice.pos b) /\
  y (Practice.vel (Practice.hitLeft b)) = y (Practice.vel b).
Proof. walls. by_cases; auto. Qed.

Lemma Practice_hitRight_frame (w : Practice.World) (b : Practice.Ball) :
  y (Practice.pos (Practice.hitRight w b)) = y (Practice.pos b) /\
  y (Practice.vel (Practice.hitRight w b)) = y (Practice.vel b).
Proof. walls. by_cases; auto. Qed.

Lemma Practice_walls_y (w : Practice.World) (b : Practice.Ball) :
  0 <= y (Practice.size w) ->
  let b' := Practice.handleWallCollision w b in
  (y (Practice.pos b) < 0 ->
   y (Practice.pos b') = 0 /\ y (Practice.vel b') = - y (Practice.vel b)) /\
  (y (Practice.pos b) > y (Practice.size w) ->
   y (Practice.pos b') = y (Practice.size w) /\
   y (Practice.vel b') = - y (Practice.vel b)).
Proof.
  intros Hw b'. subst b'. unfold Practice.handleWallCollision.
  destruct (Practice_hitLeft_frame (Practice.hitRight w b)) as (Hp & Hv).
  destruct (Practice_hitRight_frame w b) as (Hp' & Hv').
  rewrite Hp' in Hp. rewrite Hv' in Hv.
  destruct (Practice.hitLeft (Practice.hitRight w b))
    as [r1 m1 [px1 py1] [ux1 uy1]].
  destruct b as [r m [px py] [ux uy]], w as [[ww wh] g e]. simpl in *. subst.
  walls. repeat split; intros; by_cases.
Qed.

(** C4, as the code has it.  In a world at least one ball diameter wide and
    high, the walls of ch-03 put a ball whose edge has crossed a wall back at
    exactly one radius from that wall and negate the matching velocity
    component; the walls of index3.js do the same and multiply the negated
    component by 0.9.  The walls of ch-03-practice/index.js test the centre
    of the ball, not its edge, put the centre on the wall itself and negate
    the component.  The body at (-0.1, 5) of radius 0.5 in a world 10 wide
    ends, in ch-03, at [x = 0.5] with the horizontal velocity negated. *)
Theorem C4_wall_clamp_and_reflect :
  (forall (b : Ch03.Ball) (w : Vector2),
      Ch03.radius b <= x w - Ch03.radius b ->
      Ch03.radius b <= y w - Ch03.radius b ->
      let b' := Ch03.handleWallsCollision b w in
      (x (Ch03.pos b) < Ch03.radius b ->
       x (Ch03.pos b') = Ch03.radius b /\
       x (Ch03.vel b') = - x (Ch03.vel b)) /\
      (x (Ch03.pos b) > x w - Ch03.radius b ->
       x (Ch03.pos b') = x w - Ch03.radius b /\
       x (Ch03.vel b') = - x (Ch03.vel b)) /\
      (y (Ch03.pos b) < Ch03.radius b ->
       y (Ch03.pos b') = Ch03.radius b /\
       y (Ch03.vel b') = - y (Ch03.vel b)) /\
      (y (Ch03.pos b) > y w - Ch03.radius b ->
       y (Ch03.pos b') = y w - Ch03.radius b /\
       y (Ch03.vel b') = - y (Ch03.vel b))) /\
  (forall (rd : Practice3.Renderer) (b : Practice3.Ball),
      Practice3.radius b
      <= Practice3.canvas_width rd / 20 - Practice3.radius b ->
      Practice3.radius b
      <= Practice3.canvas_height rd / 20 - Practice3.radius b ->
      let b' := Practice3.handleWallCollision rd b in
      (x (Practice3.pos b) - Practice3.radius b < 0 ->
       x (Practice3.pos b') = Practice3.radius b /\
       x (Practice3.vel b') = - x (Practice3.vel b) * 0.9) /\
      (x (Practice3.pos b) + Practice3.radius b
       > Practice3.canvas_width rd / 20 ->
       x (Practice3.pos b')
       = Practice3.canvas_width rd / 20 - Practice3.radius b /\
       x (Practice3.vel b') = - x (Practice3.vel b) * 0.9) /\
      (y (Practice3.pos b) - Practice3.radius b < 0 ->
       y (Practice3.pos b') = Practice3.radius b /\
       y (Practice3.vel b') = - y (Practice3.vel b) * 0.9) /\
      (y (Practice3.pos b) + Practice3.radius b
       > Practice3.canvas_height rd / 20 ->
       y (Practice3.pos b')
       = Practice3.canvas_height rd / 20 - Practice3.radius b /\
       y (Practice3.vel b') = - y (Practice3.vel b) * 0.9)) /\
  (forall (w : Practice.World) (b : Practice.Ball),
      0 <= x (Practice.size w) ->
      0 <= y (Practice.size w) ->
      let b' := Practice.handleWallCollision w b in
      (x (Practice.pos b) < 0 ->
       x (Practice.pos b') = 0 /\
       x (Practice.vel b') = - x (Practice.vel b)) /\
      (x (Practice.pos b) > x (Practice.size w) ->
       x (Practice.pos b') = x (Practice.size w) /\
       x (Practice.vel b') = - x (Practice.vel b)) /\
      (y (Practice.pos b) < 0 ->
       y (Practice.pos b') = 0 /\
       y (Practice.vel b') = - y (Practice.vel b)) /\
      (y (Practice.pos b) > y (Practice.size w) ->
       y (Practice.pos b') = y (Practice.size w) /\
       y (Practice.vel b') = - y (Practice.vel b))) /\
  (forall (m h : R) (v : Vector2),
      let b' := Ch03.handleWallsCollision
                  (Ch03.mkBall 0.5 m (mkVector2 (- 0.1) 5) v)
                  (mkVector2 10 h) in
      x (Ch03.pos b') = 0.5 /\ x (Ch03.vel b') = - x v).
Proof.
  split; [| split; [| split]].
  - intros b w Hx Hy b'.
    destruct (Ch03_walls_x b w Hx) as (Hl & Hr & _).
    destruct (Ch03_walls_y b w Hy) as (Hb & Ht & _).
    repeat split; intros;
      first [ now apply Hl | now apply Hr | now apply Hb | now apply Ht ].
  - intros rd b Hx Hy b'.
    destruct (Practice3_walls_x rd b Hx) as (Hl & Hr).
    destruct (Practice3_walls_y rd b Hy) as (Hb & Ht).
    repeat split; intros;
      first [ now apply Hl | now apply Hr | now apply Hb | now apply Ht ].
  - intros w b Hx Hy b'.
    destruct (Practice_walls_x w b Hx) as (Hl & Hr).
    destruct (Practice_walls_y w b Hy) as (Hb & Ht).
    repeat split; intros;
      first [ now apply Hl | now apply Hr | now apply Hb | now apply Ht ].
  - intros m h v b'. subst b'.
    apply (Ch03_walls_x (Ch03.mkBall 0.5 m (mkVector2 (- 0.1) 5) v)
             (mkVector2 10 h)); simpl; lra.
Qed.

Lemma C4_wall_clamp_and_reflect_witness :
  (x (Ch03.pos (Ch03.handleWallsCollision wallBall wallWorld)) = 0.5 /\
   x (Ch03.vel (Ch03.handleWallsCollision wallBall wallWorld)) = 2) /\
  (x (Practice3.pos (Practice3.handleWallCollision dampedCanvas dampedWallBall))
   = 0.5 /\
   x (Practice3.vel (Practice3.handleWallCollision dampedCanvas dampedWallBall))
   = 1.8) /\
  (x (Practice.pos (Practice.handleWallCollision practiceWorld practiceBall))
   = 0 /\
   x (Practice.vel (Practice.handleWallCollision practiceWorld practiceBall))
   = 2).
Proof.
  destruct C4_wall_clamp_and_reflect as (H1 & H3 & Hp & _).
  split; [| split].
  - assert (Hx : Ch03.radius wallBall <= x wallWorld - Ch03.radius wallBall)
      by (simpl; lra).
    assert (Hy : Ch03.radius wallBall <= y wallWorld - Ch03.radius wallBall)
      by (simpl; lra).
    destruct (H1 wallBall wallWorld Hx Hy) as (Hl & _).
    assert (Hc : x (Ch03.pos wallBall) < Ch03.radius wallBall) by (simpl; lra).
    destruct (Hl Hc) as (Ep & Ev). rewrite Ep, Ev. simpl. split; lra.
  - assert (Hx : Practice3.radius dampedWallBall
                 <= Practice3.canvas_width dampedCanvas / 20
                    - Practice3.radius dampedWallBall) by (simpl; lra).
    assert (Hy : Practice3.radius dampedWallBall
                 <= Practice3.canvas_height dampedCanvas / 20
                    - Practice3.radius dampedWallBall) by (simpl; lra).
    destruct (H3 dampedCanvas dampedWallBall Hx Hy) as (Hl & _).
    assert (Hc : x (Practice3.pos dampedWallBall)
                 - Practice3.radius dampedWallBall < 0) by (simpl; lra).
    destruct (Hl Hc) as (Ep & Ev). rewrite Ep, Ev. simpl. split; lra.
  - assert (Hx : 0 <= x (Practice.size practiceWorld)) by (simpl; lra).
    assert (Hy : 0 <= y (Practice.size practiceWorld)) by (simpl; lra).
    destruct (Hp practiceWorld practiceBall Hx Hy) as (Hl & _).
    assert (Hc : x (Practice.pos practiceBall) < 0) by (simpl; lra).
    destruct (Hl Hc) as (Ep & Ev). rewrite Ep, Ev. simpl. split; lra.
Defined.

(** C4, as the claim has it, fails twice.  In ch-03-practice/index.js the
    body at (-0.1, 5) of radius 0.5 ends with its centre on the wall, at
    [x = 0], not at 0.5.  In ch-03 a ball of radius 1 at [x = 0.2] in a world
    1.5 wide is past the left wall, is reflected there and again at the right
    wall: it ends at [x = 0.5], not at one radius from the left wall, with
    its velocity as it was. *)
Lemma C4_centre_walls_and_narrow_world :
  (x (Practice.pos practiceBall) - Practice.radius practiceBall < 0 /\
   x (Practice.pos (Practice.handleWallCollision practiceWorld practiceBall))
   = 0 /\
   x (Practice.pos (Practice.handleWallCollision practiceWorld practiceBall))
   <> 0.5) /\
  (x (Ch03.pos narrowBall) < Ch03.radius narrowBall /\
   x (Ch03.pos (Ch03.handleWallsCollision narrowBall narrowWorld))
   <> Ch03.radius narrowBall /\
   x (Ch03.vel (Ch03.handleWallsCollision narrowBall narrowWorld))
   = x (Ch03.vel narrowBall) /\
   x (Ch03.vel (Ch03.handleWallsCollision narrowBall narrowWorld))
   <> - x (Ch03.vel narrowBall)).
Proof.
  assert (Ep : x (Practice.pos
                    (Practice.handleWallCollision practiceWorld practiceBall))
               = 0).
  { apply (Practice_walls_x practiceWorld practiceBall); simpl; lra. }
  assert (En : Ch03.hitRight (Ch03.hitLeft narrowBall) narrowWorld
               = Ch03.mkBall 1 (PI * 1 * 1) (mkVector2 (1.5 - 1) 5)
                   (mkVector2 (- - 1) 0)).
  { unfold Ch03.hitLeft, narrowBall, narrowWorld. simpl.
    rewrite lt_b_true by lra. unfold Ch03.hitRight. simpl.
    rewrite gt_b_true by lra. reflexivity. }
  assert (Ex : x (Ch03.pos (Ch03.handleWallsCollision narrowBall narrowWorld))
               = 1.5 - 1).
  { unfold Ch03.handleWallsCollision.
    destruct (Ch03_hitTop_frame
                (Ch03.hitBottom (Ch03.hitRight (Ch03.hitLeft narrowBall)
                                   narrowWorld)) narrowWorld) as (-> & _).
    destruct (Ch03_hitBottom_frame
                (Ch03.hitRight (Ch03.hitLeft narrowBall) narrowWorld))
      as (-> & _).
    rewrite En. reflexivity. }
  assert (Ev : x (Ch03.vel (Ch03.handleWallsCollision narrowBall narrowWorld))
               = - - 1).
  { unfold Ch03.handleWallsCollision.
    destruct (Ch03_hitTop_frame
                (Ch03.hitBottom (Ch03.hitRight (Ch03.hitLeft narrowBall)
                                   narrowWorld)) narrowWorld) as (_ & -> & _).
    destruct (Ch03_hitBottom_frame
                (Ch03.hitRight (Ch03.hitLeft narrowBall) narrowWorld))
      as (_ & -> & _).
    rewrite En. reflexivity. }
  rewrite Ep, Ex, Ev. simpl. repeat split; lra.
Qed.

(** C10, as the code has it.  In a world at least one ball diameter wide and
    high (ch-03), of non-negative width (part_000), the reflection depends on
    the position alone: a ball past a wall has the matching velocity
    component negated whatever its sign, so a ball that was already moving
    back into the world leaves the resolver moving towards the wall. *)
Theorem C10_reflection_ignores_direction :
  (forall (b : Ch03.Ball) (w : Vector2),
      Ch03.radius b <= x w - Ch03.radius b ->
      Ch03.radius b <= y w - Ch03.radius b ->
      let b' := Ch03.handleWallsCollision b w in
      (x (Ch03.pos b) < Ch03.radius b \/ x (Ch03.pos b) > x w - Ch03.radius b ->
       x (Ch03.vel b') = - x (Ch03.vel b)) /\
      (y (Ch03.pos b) < Ch03.radius b \/ y (Ch03.pos b) > y w - Ch03.radius b ->
       y (Ch03.vel b') = - y (Ch03.vel b)) /\
      (x (Ch03.pos b) < Ch03.radius b -> 0 < x (Ch03.vel b) ->
       x (Ch03.vel b') < 0) /\
      (x (Ch03.pos b) > x w - Ch03.radius b -> x (Ch03.vel b) < 0 ->
       0 < x (Ch03.vel b')) /\
      (y (Ch03.pos b) < Ch03.radius b -> 0 < y (Ch03.vel b) ->
       y (Ch03.vel b') < 0) /\
      (y (Ch03.pos b) > y w - Ch03.radius b -> y (Ch03.vel b) < 0 ->
       0 < y (Ch03.vel b'))) /\
  (forall c : Part000.Core,
      0 <= Part000.simWidth (Part000.scene c) ->
      let b := Part000.ball c in
      let b' := Part000.ball (Part000.handleCollision c) in
      (Part000.x b < 0 \/ Part000.x b > Part000.simWidth (Part000.scene c) ->
       Part000.vx b' = - Part000.vx b) /\
      (Part000.y b < 0 -> Part000.vy b' = - Part000.vy b) /\
      (Part000.x b < 0 -> 0 < Part000.vx b -> Part000.vx b' < 0) /\
      (Part000.x b > Part000.simWidth (Part000.scene c) ->
       Part000.vx b < 0 -> 0 < Part000.vx b') /\
      (Part000.y b < 0 -> 0 < Part000.vy b -> Part000.vy b' < 0)).
Proof.
  split.
  - intros b w Hx Hy b'.
    destruct (Ch03_walls_x b w Hx) as (Hl & Hr & _).
    destruct (Ch03_walls_y b w Hy) as (Hb & Ht & _).
    fold b' in Hl, Hr, Hb, Ht.
    repeat split.
    + intros [H | H]; [apply (Hl H) | apply (Hr H)].
    + intros [H | H]; [apply (Hb H) | apply (Ht H)].
    + intros H Hv. destruct (Hl H) as (_ & E). lra.
    + intros H Hv. destruct (Hr H) as (_ & E). lra.
    + intros H Hv. destruct (Hb H) as (_ & E). lra.
    + intros H Hv. destruct (Ht H) as (_ & E). lra.
  - intros c Hw b b'.
    destruct (Part000_walls_x c Hw) as (Hl & Hr).
    pose proof (Part000_walls_y c) as Hg.
    fold b b' in Hl, Hr, Hg.
    repeat split.
    + intros [H | H]; [apply (Hl H) | apply (Hr H)].
    + intros H. apply (Hg H).
    + intros H Hv. destruct (Hl H) as (_ & E). lra.
    + intros H Hv. destruct (Hr H) as (_ & E). lra.
    + intros H Hv. destruct (Hg H) as (_ & E). lra.
Qed.

Lemma C10_reflection_ignores_direction_witness :
  (0 < x (Ch03.vel inwardBall) /\
   x (Ch03.vel (Ch03.handleWallsCollision inwardBall wallWorld)) < 0) /\
  (0 < Part000.vx (Part000.ball inwardCore) /\
   Part000.vx (Part000.ball (Part000.handleCollision inwardCore)) < 0).
Proof.
  destruct C10_reflection_ignores_direction as (H3 & H0).
  split.
  - assert (Hx : Ch03.radius inwardBall
                 <= x wallWorld - Ch03.radius inwardBall) by (simpl; lra).
    assert (Hy : Ch03.radius inwardBall
                 <= y wallWorld - Ch03.radius inwardBall) by (simpl; lra).
    destruct (H3 inwardBall wallWorld Hx Hy) as (_ & _ & Hl & _).
    assert (Hc : x (Ch03.pos inwardBall) < Ch03.radius inwardBall)
      by (simpl; lra).
    assert (Hv : 0 < x (Ch03.vel inwardBall)) by (simpl; lra).
    split; [exact Hv | exact (Hl Hc Hv)].
  - assert (Hw : 0 <= Part000.simWidth (Part000.scene inwardCore))
      by (simpl; lra).
    destruct (H0 inwardCore Hw) as (_ & _ & Hl & _).
    assert (Hc : Part000.x (Part000.ball inwardCore) < 0) by (simpl; lra).
    assert (Hv : 0 < Part000.vx (Part000.ball inwardCore)) by (simpl; lra).
    split; [exact Hv | exact (Hl Hc Hv)].
Defined.

(** C10, as the claim has it, fails where the world is narrower than the
    ball: a ball of radius 2 at [x = 1] in a world 3 wide is past the left
    wall only and moves to the right; it is reflected at the left wall, put
    at [x = 2], found past the right wall and reflected again, and leaves
    with the velocity it came with. *)
Lemma C10_double_reflection_in_tight_world :
  x (Ch03.pos tightBall) < Ch03.radius tightBall /\
  ~ x (Ch03.pos tightBall) > x tightWorld - Ch03.radius tightBall /\
  0 < x (Ch03.vel tightBall) /\
  x (Ch03.vel (Ch03.handleWallsCollision tightBall tightWorld))
  = x (Ch03.vel tightBall) /\
  x (Ch03.vel (Ch03.handleWallsCollision tightBall tightWorld))
  <> - x (Ch03.vel tightBall).
Proof.
  assert (En : Ch03.hitRight (Ch03.hitLeft tightBall) tightWorld
               = Ch03.mkBall 2 (PI * 2 * 2) (mkVector2 (3 - 2) 5)
                   (mkVector2 (- - 3) 0)).
  { unfold Ch03.hitLeft, tightBall, tightWorld. simpl.
    rewrite lt_b_true by lra. unfold Ch03.hitRight. simpl.
    rewrite gt_b_true by lra. reflexivity. }
  assert (Ev : x (Ch03.vel (Ch03.handleWallsCollision tightBall tightWorld))
               = - - 3).
  { unfold Ch03.handleWallsCollision.
    destruct (Ch03_hitTop_frame
                (Ch03.hitBottom (Ch03.hitRight (Ch03.hitLeft tightBall)
                                   tightWorld)) tightWorld) as (_ & -> & _).
    destruct (Ch03_hitBottom_frame
                (Ch03.hitRight (Ch03.hitLeft tightBall) tightWorld))
      as (_ & -> & _).
    rewrite En. reflexivity. }
  rewrite Ev. simpl. repeat split; lra.
Qed.

End Walls.

(** ** Collisions of two balls *)

Section PairCollision.

Lemma square_sum_nonneg (a b : R) : 0 <= a * a + b * b.
Proof. nra. Qed.

Lemma length_nonneg (v : Vector2) : 0 <= Ch03.length v.
Proof. apply sqrt_pos. Qed.

Lemma length_square (v : Vector2) :
  Ch03.length v * Ch03.length v = x v * x v + y v * y v.
Proof. unfold Ch03.length. apply sqrt_sqrt. apply square_sum_nonneg. Qed.

(** A vector divided by its length has length one: the contact normal is a
    unit vector. *)
Lemma scale_unit (v : Vector2) :
  Ch03.length v <> 0 ->
  Ch03.dot (Ch03.scale v (1 / Ch03.length v))
    (Ch03.scale v (1 / Ch03.length v)) = 1.
Proof.
  intros Hd. pose proof (length_square v) as Hsq.
  destruct v as [vx vy]. unfold Ch03.dot, Ch03.scale.
  cbn [x y] in *.
  set (d := Ch03.length (mkVector2 vx vy)) in *.
  replace (vx * (1 / d) * (vx * (1 / d)) + vy * (1 / d) * (vy * (1 / d)))
    with ((vx * vx + vy * vy) / (d * d)) by (field; exact Hd).
  rewrite <- Hsq. field. exact Hd.
Qed.

Lemma normal_unit (b1 b2 : Ch03.Ball) :
  Ch03.distance b1 b2 <> 0 ->
  Ch03.dot (Ch03.normal b1 b2) (Ch03.normal b1 b2) = 1.
Proof. intros Hd. unfold Ch03.normal. apply scale_unit. exact Hd. Qed.

(** What the resolver does to a pair it does not skip. *)
Lemma collision_eq (b1 b2 : Ch03.Ball) (e : R) :
  Ch03.distance b1 b2 <> 0 ->
  Ch03.distance b1 b2 <= Ch03.radius b1 + Ch03.radius b2 ->
  let n := Ch03.normal b1 b2 in
  let corr := (Ch03.radius b1 + Ch03.radius b2 - Ch03.distance b1 b2) / 2 in
  let v1 := Ch03.dot (Ch03.vel b1) n in
  let v2 := Ch03.dot (Ch03.vel b2) n in
  Ch03.handleBallsCollision b1 b2 e =
  (Ch03.mkBall (Ch03.radius b1) (Ch03.mass b1)
     (Ch03.add (Ch03.pos b1) n (- corr))
     (Ch03.add (Ch03.vel b1) n
        (Ch03.newV1 (Ch03.mass b1) (Ch03.mass b2) v1 v2 e - v1)),
   Ch03.mkBall (Ch03.radius b2) (Ch03.mass b2)
     (Ch03.add (Ch03.pos b2) n corr)
     (Ch03.add (Ch03.vel b2) n
        (Ch03.newV2 (Ch03.mass b1) (Ch03.mass b2) v1 v2 e - v2))).
Proof.
  intros Hd Hr n corr v1 v2. unfold Ch03.handleBallsCollision.
  fold (Ch03.distance b1 b2).
  rewrite (eq_b_false _ _ Hd), (gt_b_false _ _ Hr). reflexivity.
Qed.

(** What it does to a pair it skips: nothing. *)
Lemma collision_skipped (b1 b2 : Ch03.Ball) (e : R) :
  Ch03.distance b1 b2 = 0 \/
  Ch03.distance b1 b2 > Ch03.radius b1 + Ch03.radius b2 ->
  Ch03.handleBallsCollision b1 b2 e = (b1, b2).
Proof.
  intros H. unfold Ch03.handleBallsCollision. fold (Ch03.distance b1 b2).
  destruct H as [H | H].
  - rewrite (eq_b_true _ _ H). reflexivity.
  - rewrite (gt_b_true _ _ H), orb_true_r. reflexivity.
Qed.

(** The resolver of index3.js is the resolver of ch-03 on the physics
    fields. *)
Lemma forget_collision (c1 c2 : Practice3.Ball) (e : R) :
  (forget (fst (Practice3.handleBallsCollision c1 c2 e)),
   forget (snd (Practice3.handleBallsCollision c1 c2 e)))
  = Ch03.handleBallsCollision (forget c1) (forget c2) e.
Proof.
  unfold Practice3.handleBallsCollision, Ch03.handleBallsCollision.
  change (Practice3.length
            (Practice3.subtract (Practice3.pos c2) (Practice3.pos c1)))
    with (Ch03.distance (forget c1) (forget c2)).
  change (Ch03.length
            (Ch03.subtractVectors (Ch03.pos (forget c2))
               (Ch03.pos (forget c1))))
    with (Ch03.distance (forget c1) (forget c2)).
  change (Practice3.radius c1 + Practice3.radius c2)
    with (Ch03.radius (forget c1) + Ch03.radius (forget c2)).
  destruct (eq_b (Ch03.distance (forget c1) (forget c2)) 0
            || gt_b (Ch03.distance (forget c1) (forget c2))
                 (Ch03.radius (forget c1) + Ch03.radius (forget c2)));
    reflexivity.
Qed.

Lemma momentum_formula (m1 m2 v1 v2 e : R) :
  m1 + m2 <> 0 ->
  m1 * Ch03.newV1 m1 m2 v1 v2 e + m2 * Ch03.newV2 m1 m2 v1 v2 e
  = m1 * v1 + m2 * v2.
Proof. intros H. unfold Ch03.newV1, Ch03.newV2. field. exact H. Qed.

(** After the velocity update the speed of each ball along the normal is the
    new speed of the formulas. *)
Lemma dot_add_normal (u n : Vector2) (k : R) :
  Ch03.dot n n = 1 ->
  Ch03.dot (Ch03.add u n (k - Ch03.dot u n)) n = k.
Proof.
  unfold Ch03.dot, Ch03.add. simpl. intros H.
  replace ((x u + x n * (k - (x u * x n + y u * y n))) * x n
           + (y u + y n * (k - (x u * x n + y u * y n))) * y n)
    with (x u * x n + y u * y n
          + (k - (x u * x n + y u * y n)) * (x n * x n + y n * y n)) by ring.
  rewrite H. ring.
Qed.

(** The fields of the two balls after a collision that is not skipped. *)
Lemma collision_normal_speeds (b1 b2 : Ch03.Ball) (e : R) :
  Ch03.distance b1 b2 <> 0 ->
  Ch03.distance b1 b2 <= Ch03.radius b1 + Ch03.radius b2 ->
  let n := Ch03.normal b1 b2 in
  let v1 := Ch03.dot (Ch03.vel b1) n in
  let v2 := Ch03.dot (Ch03.vel b2) n in
  let b1' := fst (Ch03.handleBallsCollision b1 b2 e) in
  let b2' := snd (Ch03.handleBallsCollision b1 b2 e) in
  Ch03.dot (Ch03.vel b1') n
  = Ch03.newV1 (Ch03.mass b1) (Ch03.mass b2) v1 v2 e /\
  Ch03.dot (Ch03.vel b2') n
  = Ch03.newV2 (Ch03.mass b1) (Ch03.mass b2) v1 v2 e /\
  Ch03.mass b1' = Ch03.mass b1 /\
  Ch03.mass b2' = Ch03.mass b2.
Proof.
  intros Hd Hr n v1 v2 b1' b2'. subst b1' b2'.
  rewrite (collision_eq b1 b2 e Hd Hr). cbn [fst snd Ch03.vel Ch03.mass].
  pose proof (normal_unit b1 b2 Hd) as Hu.
  repeat split; apply dot_add_normal; exact Hu.
Qed.

(** After the positional correction the centres are exactly one sum of the
    radii apart. *)
Lemma separated (p1 p2 : Vector2) (r1 r2 : R) :
  let v := Ch03.subtractVectors p2 p1 in
  let d := Ch03.length v in
  let n := Ch03.scale v (1 / d) in
  let corr := (r1 + r2 - d) / 2 in
  d <> 0 -> d <= r1 + r2 ->
  Ch03.length
    (Ch03.subtractVectors (Ch03.add p2 n corr) (Ch03.add p1 n (- corr)))
  = r1 + r2.
Proof.
  intros v d n corr Hd Hr.
  pose proof (length_square v) as Hsq. fold d in Hsq.
  pose proof (length_nonneg v) as Hpos. fold d in Hpos.
  subst n corr. destruct p1 as [x1 y1], p2 as [x2 y2].
  unfold Ch03.length at 1.
  unfold Ch03.subtractVectors, Ch03.add, Ch03.scale. cbn [x y].
  subst v. unfold Ch03.subtractVectors in *. cbn [x y] in *.
  apply sqrt_lem_1.
  - apply square_sum_nonneg.
  - lra.
  - replace ((x2 + (x2 - x1) * (1 / d) * ((r1 + r2 - d) / 2)
              - (x1 + (x2 - x1) * (1 / d) * - ((r1 + r2 - d) / 2)))
             * (x2 + (x2 - x1) * (1 / d) * ((r1 + r2 - d) / 2)
                - (x1 + (x2 - x1) * (1 / d) * - ((r1 + r2 - d) / 2)))
             + (y2 + (y2 - y1) * (1 / d) * ((r1 + r2 - d) / 2)
                - (y1 + (y2 - y1) * (1 / d) * - ((r1 + r2 - d) / 2)))
               * (y2 + (y2 - y1) * (1 / d) * ((r1 + r2 - d) / 2)
                  - (y1 + (y2 - y1) * (1 / d) * - ((r1 + r2 - d) / 2))))
      with (((x2 - x1) * (x2 - x1) + (y2 - y1) * (y2 - y1))
            * ((r1 + r2) * (r1 + r2)) / (d * d)) by (field; exact Hd).
    rewrite <- Hsq. field. exact Hd.
Qed.

Lemma energy_formula (m1 m2 v1 v2 e : R) :
  0 <= m1 -> 0 <= m2 -> m1 + m2 <> 0 -> 0 <= e <= 1 ->
  kinetic m1 (Ch03.newV1 m1 m2 v1 v2 e) + kinetic m2 (Ch03.newV2 m1 m2 v1 v2 e)
  <= kinetic m1 v1 + kinetic m2 v2.
Proof.
  intros H1 H2 H12 He.
  assert (Hq : 0 <= 1 - e * e) by nra.
  assert (Hs : 0 <= (v1 - v2) * (v1 - v2)).
  { replace ((v1 - v2) * (v1 - v2))
      with ((v1 - v2) * (v1 - v2) + 0 * 0) by ring.
    apply square_sum_nonneg. }
  assert (Hm : 0 <= m1 * m2 / (m1 + m2)).
  { apply Rmult_le_pos; [apply Rmult_le_pos; assumption |].
    apply Rlt_le, Rinv_0_lt_compat. lra. }
  assert (E : kinetic m1 v1 + kinetic m2 v2
              - (kinetic m1 (Ch03.newV1 m1 m2 v1 v2 e)
                 + kinetic m2 (Ch03.newV2 m1 m2 v1 v2 e))
              = m1 * m2 / (m1 + m2) * (1 - e * e)
                * ((v1 - v2) * (v1 - v2)) / 2).
  { unfold kinetic, Ch03.newV1, Ch03.newV2. field. exact H12. }
  assert (0 <= m1 * m2 / (m1 + m2) * (1 - e * e) * ((v1 - v2) * (v1 - v2))).
  { apply Rmult_le_pos; [apply Rmult_le_pos |]; assumption. }
  lra.
Qed.

Lemma collision_positions (b1 b2 : Ch03.Ball) (e : R) :
  Ch03.distance b1 b2 <> 0 ->
  Ch03.distance b1 b2 <= Ch03.radius b1 + Ch03.radius b2 ->
  let n := Ch03.normal b1 b2 in
  let corr := (Ch03.radius b1 + Ch03.radius b2 - Ch03.distance b1 b2) / 2 in
  let b1' := fst (Ch03.handleBallsCollision b1 b2 e) in
  let b2' := snd (Ch03.handleBallsCollision b1 b2 e) in
  Ch03.pos b1' = Ch03.add (Ch03.pos b1) n (- corr) /\
  Ch03.pos b2' = Ch03.add (Ch03.pos b2) n corr /\
  Ch03.dot n n = 1 /\
  Ch03.distance b1' b2' = Ch03.radius b1 + Ch03.radius b2.
Proof.
  intros Hd Hr n corr b1' b2'. subst b1' b2'.
  rewrite (collision_eq b1 b2 e Hd Hr). cbn [fst snd].
  split; [reflexivity | split; [reflexivity | split]].
  - apply normal_unit. exact Hd.
  - unfold Ch03.distance at 1. cbn [Ch03.pos].
    apply (separated (Ch03.pos b1) (Ch03.pos b2)); assumption.
Qed.

(** The two lemmas above for the resolver of index3.js. *)
Lemma forget_fst (c1 c2 : Practice3.Ball) (e : R) :
  forget (fst (Practice3.handleBallsCollision c1 c2 e))
  = fst (Ch03.handleBallsCollision (forget c1) (forget c2) e).
Proof. rewrite <- forget_collision. reflexivity. Qed.

Lemma forget_snd (c1 c2 : Practice3.Ball) (e : R) :
  forget (snd (Practice3.handleBallsCollision c1 c2 e))
  = snd (Ch03.handleBallsCollision (forget c1) (forget c2) e).
Proof. rewrite <- forget_collision. reflexivity. Qed.

Lemma collision_normal_speeds3 (c1 c2 : Practice3.Ball) (e : R) :
  Practice3.distance c1 c2 <> 0 ->
  Practice3.distance c1 c2 <= Practice3.radius c1 + Practice3.radius c2 ->
  let n := Practice3.normal c1 c2 in
  let v1 := Practice3.dot (Practice3.vel c1) n in
  let v2 := Practice3.dot (Practice3.vel c2) n in
  let c1' := fst (Practice3.handleBallsCollision c1 c2 e) in
  let c2' := snd (Practice3.handleBallsCollision c1 c2 e) in
  Practice3.dot (Practice3.vel c1') n
  = Practice3.newV1 (Practice3.mass c1) (Practice3.mass c2) v1 v2 e /\
  Practice3.dot (Practice3.vel c2') n
  = Practice3.newV2 (Practice3.mass c1) (Practice3.mass c2) v1 v2 e /\
  Practice3.mass c1' = Practice3.mass c1 /\
  Practice3.mass c2' = Practice3.mass c2.
Proof.
  intros Hd Hr.
  pose proof (collision_normal_speeds (forget c1) (forget c2) e Hd Hr) as H.
  cbv zeta in H |- *. rewrite <- forget_fst, <- forget_snd in H. exact H.
Qed.

Lemma collision_positions3 (c1 c2 : Practice3.Ball) (e : R) :
  Practice3.distance c1 c2 <> 0 ->
  Practice3.distance c1 c2 <= Practice3.radius c1 + Practice3.radius c2 ->
  let n := Practice3.normal c1 c2 in
  let corr :=
    (Practice3.radius c1 + Practice3.radius c2 - Practice3.distance c1 c2)
    / 2 in
  let c1' := fst (Practice3.handleBallsCollision c1 c2 e) in
  let c2' := snd (Practice3.handleBallsCollision c1 c2 e) in
  Practice3.pos c1' = Practice3.add (Practice3.pos c1) n (- corr) /\
  Practice3.pos c2' = Practice3.add (Practice3.pos c2) n corr /\
  Practice3.dot n n = 1 /\
  Practice3.distance c1' c2' = Practice3.radius c1 + Practice3.radius c2.
Proof.
  intros Hd Hr.
  pose proof (collision_positions (forget c1) (forget c2) e Hd Hr) as H.
  cbv zeta in H |- *. rewrite <- forget_fst, <- forget_snd in H. exact H.
Qed.

Lemma squares_positive (r1 r2 : R) : 0 < r1 + r2 -> 0 < r1 * r1 + r2 * r2.
Proof.
  intros H.
  assert (H1 : 0 < (r1 + r2) * (r1 + r2)) by (apply Rmult_lt_0_compat; lra).
  pose proof (square_sum_nonneg (r1 - r2) 0) as H2.
  lra.
Qed.

(** A ball of index3.js has the area of its disc as mass: two such balls
    that collide have a positive total mass. *)
Lemma disc_masses_positive (c1 c2 : Practice3.Ball) :
  Practice3.mass c1 = PI * Practice3.radius c1 * Practice3.radius c1 ->
  Practice3.mass c2 = PI * Practice3.radius c2 * Practice3.radius c2 ->
  Practice3.distance c1 c2 <> 0 ->
  Practice3.distance c1 c2 <= Practice3.radius c1 + Practice3.radius c2 ->
  0 < Practice3.mass c1 + Practice3.mass c2.
Proof.
  intros E1 E2 Hd Hr.
  pose proof (length_nonneg
                (Practice3.subtract (Practice3.pos c2) (Practice3.pos c1)))
    as Hpos.
  change (0 <= Practice3.distance c1 c2) in Hpos.
  rewrite E1, E2.
  set (r1 := Practice3.radius c1) in *. set (r2 := Practice3.radius c2) in *.
  assert (Hs : 0 < r1 * r1 + r2 * r2) by (apply squares_positive; lra).
  replace (PI * r1 * r1 + PI * r2 * r2) with (PI * (r1 * r1 + r2 * r2)) by ring.
  apply Rmult_lt_0_compat; [apply PI_RGT_0 | exact Hs].
Qed.

Lemma distance_ballA_ballB : Ch03.distance ballA ballB = 5.
Proof.
  unfold Ch03.distance, Ch03.length, Ch03.subtractVectors, ballA, ballB.
  cbn [Ch03.pos x y]. apply sqrt_lem_1; lra.
Qed.

Lemma distance_discA_discB : Practice3.distance discA discB = 5.
Proof. exact distance_ballA_ballB. Qed.

(** The two sample balls overlap by 0.5 along the direction (3/5, 4/5): each
    is moved back by 0.25 along it. *)
Example ballA_ballB_pushed_apart :
  Ch03.pos (fst (Ch03.handleBallsCollision ballA ballB 1))
  = mkVector2 (- 0.15) (- 0.2) /\
  Ch03.pos (snd (Ch03.handleBallsCollision ballA ballB 1))
  = mkVector2 3.15 4.2.
Proof.
  assert (Hd : Ch03.distance ballA ballB <> 0)
    by (rewrite distance_ballA_ballB; lra).
  assert (Hr : Ch03.distance ballA ballB
               <= Ch03.radius ballA + Ch03.radius ballB)
    by (rewrite distance_ballA_ballB; simpl; lra).
  destruct (collision_positions ballA ballB 1 Hd Hr) as (E1 & E2 & _).
  rewrite E1, E2. unfold Ch03.normal. rewrite distance_ballA_ballB.
  unfold Ch03.add, Ch03.scale, Ch03.subtractVectors, ballA, ballB.
  cbn [Ch03.pos Ch03.radius x y]. split; f_equal; lra.
Qed.

(** C1. For a pair the resolver does not skip, with restitution 1, the
    momentum along the contact normal is the same before and after:
    [m1 * v1 + m2 * v2] equals [m1 * newV1 + m2 * newV2] for the two
    post-collision speeds of the resolver, which are the speeds along the
    normal of the two balls it returns.  In ch-03, where the mass is given to
    the constructor, the total mass has to be nonzero; in index3.js the mass
    is the area of the disc, and that follows. *)
Theorem C1_normal_momentum_conserved :
  (forall b1 b2 : Ch03.Ball,
      Ch03.distance b1 b2 <> 0 ->
      Ch03.distance b1 b2 <= Ch03.radius b1 + Ch03.radius b2 ->
      Ch03.mass b1 + Ch03.mass b2 <> 0 ->
      let n := Ch03.normal b1 b2 in
      let m1 := Ch03.mass b1 in
      let m2 := Ch03.mass b2 in
      let v1 := Ch03.dot (Ch03.vel b1) n in
      let v2 := Ch03.dot (Ch03.vel b2) n in
      let b1' := fst (Ch03.handleBallsCollision b1 b2 1) in
      let b2' := snd (Ch03.handleBallsCollision b1 b2 1) in
      m1 * v1 + m2 * v2
      = m1 * Ch03.newV1 m1 m2 v1 v2 1 + m2 * Ch03.newV2 m1 m2 v1 v2 1 /\
      Ch03.dot (Ch03.vel b1') n = Ch03.newV1 m1 m2 v1 v2 1 /\
      Ch03.dot (Ch03.vel b2') n = Ch03.newV2 m1 m2 v1 v2 1 /\
      m1 * v1 + m2 * v2
      = Ch03.mass b1' * Ch03.dot (Ch03.vel b1') n
        + Ch03.mass b2' * Ch03.dot (Ch03.vel b2') n) /\
  (forall c1 c2 : Practice3.Ball,
      Practice3.mass c1 = PI * Practice3.radius c1 * Practice3.radius c1 ->
      Practice3.mass c2 = PI * Practice3.radius c2 * Practice3.radius c2 ->
      Practice3.distance c1 c2 <> 0 ->
      Practice3.distance c1 c2 <= Practice3.radius c1 + Practice3.radius c2 ->
      let n := Practice3.normal c1 c2 in
      let m1 := Practice3.mass c1 in
      let m2 := Practice3.mass c2 in
      let v1 := Practice3.dot (Practice3.vel c1) n in
      let v2 := Practice3.dot (Practice3.vel c2) n in
      let c1' := fst (Practice3.handleBallsCollision c1 c2 1) in
      let c2' := snd (Practice3.handleBallsCollision c1 c2 1) in
      m1 * v1 + m2 * v2
      = m1 * Practice3.newV1 m1 m2 v1 v2 1
        + m2 * Practice3.newV2 m1 m2 v1 v2 1 /\
      Practice3.dot (Practice3.vel c1') n = Practice3.newV1 m1 m2 v1 v2 1 /\
      Practice3.dot (Practice3.vel c2') n = Practice3.newV2 m1 m2 v1 v2 1 /\
      m1 * v1 + m2 * v2
      = Practice3.mass c1' * Practice3.dot (Practice3.vel c1') n
        + Practice3.mass c2' * Practice3.dot (Practice3.vel c2') n).
Proof.
  split.
  - intros b1 b2 Hd Hr Hm n m1 m2 v1 v2 b1' b2'.
    destruct (collision_normal_speeds b1 b2 1 Hd Hr) as (E1 & E2 & M1 & M2).
    fold n v1 v2 b1' b2' m1 m2 in E1, E2, M1, M2.
    pose proof (momentum_formula m1 m2 v1 v2 1 Hm) as Hp.
    rewrite E1, E2, M1, M2. repeat split; auto.
  - intros c1 c2 A1 A2 Hd Hr n m1 m2 v1 v2 c1' c2'.
    destruct (collision_normal_speeds3 c1 c2 1 Hd Hr) as (E1 & E2 & M1 & M2).
    fold n v1 v2 c1' c2' m1 m2 in E1, E2, M1, M2.
    assert (Hm : m1 + m2 <> 0).
    { pose proof (disc_masses_positive c1 c2 A1 A2 Hd Hr). subst m1 m2. lra. }
    pose proof (momentum_formula m1 m2 v1 v2 1 Hm) as Hp.
    change (m1 * Practice3.newV1 m1 m2 v1 v2 1
            + m2 * Practice3.newV2 m1 m2 v1 v2 1 = m1 * v1 + m2 * v2) in Hp.
    rewrite E1, E2, M1, M2. repeat split; auto.
Qed.

Lemma C1_normal_momentum_conserved_witness :
  (let n := Ch03.normal ballA ballB in
   Ch03.mass ballA * Ch03.dot (Ch03.vel ballA) n
   + Ch03.mass ballB * Ch03.dot (Ch03.vel ballB) n
   = Ch03.mass (fst (Ch03.handleBallsCollision ballA ballB 1))
     * Ch03.dot (Ch03.vel (fst (Ch03.handleBallsCollision ballA ballB 1))) n
     + Ch03.mass (snd (Ch03.handleBallsCollision ballA ballB 1))
       * Ch03.dot (Ch03.vel (snd (Ch03.handleBallsCollision ballA ballB 1))) n)
  /\
  (let n := Practice3.normal discA discB in
   Practice3.mass discA * Practice3.dot (Practice3.vel discA) n
   + Practice3.mass discB * Practice3.dot (Practice3.vel discB) n
   = Practice3.mass (fst (Practice3.handleBallsCollision discA discB 1))
     * Practice3.dot
         (Practice3.vel (fst (Practice3.handleBallsCollision discA discB 1))) n
     + Practice3.mass (snd (Practice3.handleBallsCollision discA discB 1))
       * Practice3.dot
           (Practice3.vel (snd (Practice3.handleBallsCollision discA discB 1)))
           n).
Proof.
  destruct C1_normal_momentum_conserved as (H3 & Hp).
  split.
  - assert (Hd : Ch03.distance ballA ballB <> 0)
      by (rewrite distance_ballA_ballB; lra).
    assert (Hr : Ch03.distance ballA ballB
                 <= Ch03.radius ballA + Ch03.radius ballB)
      by (rewrite distance_ballA_ballB; simpl; lra).
    assert (Hm : Ch03.mass ballA + Ch03.mass ballB <> 0)
      by (pose proof PI_RGT_0; simpl; lra).
    exact (proj2 (proj2 (proj2 (H3 ballA ballB Hd Hr Hm)))).
  - assert (Hd : Practice3.distance discA discB <> 0)
      by (rewrite distance_discA_discB; lra).
    assert (Hr : Practice3.distance discA discB
                 <= Practice3.radius discA + Practice3.radius discB)
      by (rewrite distance_discA_discB; simpl; lra).
    exact (proj2 (proj2 (proj2 (Hp discA discB eq_refl eq_refl Hd Hr)))).
Defined.

(** C6. For a pair with centres at a nonzero distance [d] no larger than the
    sum of the radii, the resolver moves the first ball by [- corr] and the
    second by [+ corr] along the unit vector from the first centre to the
    second, with [corr = (r1 + r2 - d) / 2], the same for both and free of
    the masses; afterwards the centres are exactly [r1 + r2] apart. *)
Theorem C6_overlap_split_equally :
  (forall (b1 b2 : Ch03.Ball) (e : R),
      Ch03.distance b1 b2 <> 0 ->
      Ch03.distance b1 b2 <= Ch03.radius b1 + Ch03.radius b2 ->
      let n := Ch03.normal b1 b2 in
      let corr :=
        (Ch03.radius b1 + Ch03.radius b2 - Ch03.distance b1 b2) / 2 in
      let b1' := fst (Ch03.handleBallsCollision b1 b2 e) in
      let b2' := snd (Ch03.handleBallsCollision b1 b2 e) in
      Ch03.pos b1' = Ch03.add (Ch03.pos b1) n (- corr) /\
      Ch03.pos b2' = Ch03.add (Ch03.pos b2) n corr /\
      Ch03.dot n n = 1 /\
      Ch03.distance b1' b2' = Ch03.radius b1 + Ch03.radius b2) /\
  (forall (c1 c2 : Practice3.Ball) (e : R),
      Practice3.distance c1 c2 <> 0 ->
      Practice3.distance c1 c2 <= Practice3.radius c1 + Practice3.radius c2 ->
      let n := Practice3.normal c1 c2 in
      let corr :=
        (Practice3.radius c1 + Practice3.radius c2 - Practice3.distance c1 c2)
        / 2 in
      let c1' := fst (Practice3.handleBallsCollision c1 c2 e) in
      let c2' := snd (Practice3.handleBallsCollision c1 c2 e) in
      Practice3.pos c1' = Practice3.add (Practice3.pos c1) n (- corr) /\
      Practice3.pos c2' = Practice3.add (Practice3.pos c2) n corr /\
      Practice3.dot n n = 1 /\
      Practice3.distance c1' c2' = Practice3.radius c1 + Practice3.radius c2).
Proof.
  split.
  - intros b1 b2 e Hd Hr. exact (collision_positions b1 b2 e Hd Hr).
  - intros c1 c2 e Hd Hr. exact (collision_positions3 c1 c2 e Hd Hr).
Qed.

Lemma C6_overlap_split_equally_witness :
  Ch03.distance (fst (Ch03.handleBallsCollision ballA ballB 1))
    (snd (Ch03.handleBallsCollision ballA ballB 1)) = 5.5 /\
  Practice3.distance (fst (Practice3.handleBallsCollision discA discB 0.9))
    (snd (Practice3.handleBallsCollision discA discB 0.9)) = 5.5.
Proof.
  destruct C6_overlap_split_equally as (H3 & Hp).
  split.
  - assert (Hd : Ch03.distance ballA ballB <> 0)
      by (rewrite distance_ballA_ballB; lra).
    assert (Hr : Ch03.distance ballA ballB
                 <= Ch03.radius ballA + Ch03.radius ballB)
      by (rewrite distance_ballA_ballB; simpl; lra).
    rewrite (proj2 (proj2 (proj2 (H3 ballA ballB 1 Hd Hr)))). simpl. lra.
  - assert (Hd : Practice3.distance discA discB <> 0)
      by (rewrite distance_discA_discB; lra).
    assert (Hr : Practice3.distance discA discB
                 <= Practice3.radius discA + Practice3.radius discB)
      by (rewrite distance_discA_discB; simpl; lra).
    rewrite (proj2 (proj2 (proj2 (Hp discA discB 0.9 Hd Hr)))). simpl. lra.
Defined.

(** C7. For a pair of balls that the resolver does not skip, of masses that
    are not negative and not both zero, and a restitution between 0 and 1,
    the kinetic energy of the speeds along the normal after the velocity
    update, [1/2 * m1 * newV1 * newV1 + 1/2 * m2 * newV2 * newV2], is at most
    the one before. *)
Theorem C7_normal_energy_not_increased (b1 b2 : Ch03.Ball) (e : R) :
  0 <= e <= 1 ->
  Ch03.distance b1 b2 <> 0 ->
  Ch03.distance b1 b2 <= Ch03.radius b1 + Ch03.radius b2 ->
  0 <= Ch03.mass b1 -> 0 <= Ch03.mass b2 ->
  Ch03.mass b1 + Ch03.mass b2 <> 0 ->
  let n := Ch03.normal b1 b2 in
  let m1 := Ch03.mass b1 in
  let m2 := Ch03.mass b2 in
  let v1 := Ch03.dot (Ch03.vel b1) n in
  let v2 := Ch03.dot (Ch03.vel b2) n in
  let b1' := fst (Ch03.handleBallsCollision b1 b2 e) in
  let b2' := snd (Ch03.handleBallsCollision b1 b2 e) in
  kinetic m1 (Ch03.newV1 m1 m2 v1 v2 e) + kinetic m2 (Ch03.newV2 m1 m2 v1 v2 e)
  <= kinetic m1 v1 + kinetic m2 v2 /\
  kinetic (Ch03.mass b1') (Ch03.dot (Ch03.vel b1') n)
  + kinetic (Ch03.mass b2') (Ch03.dot (Ch03.vel b2') n)
  <= kinetic m1 v1 + kinetic m2 v2.
Proof.
  intros He Hd Hr H1 H2 H12 n m1 m2 v1 v2 b1' b2'.
  destruct (collision_normal_speeds b1 b2 e Hd Hr) as (E1 & E2 & M1 & M2).
  fold n v1 v2 b1' b2' m1 m2 in E1, E2, M1, M2.
  rewrite E1, E2, M1, M2.
  split; apply energy_formula; assumption.
Qed.

Lemma C7_normal_energy_not_increased_witness :
  let n := Ch03.normal ballA ballB in
  kinetic (Ch03.mass (fst (Ch03.handleBallsCollision ballA ballB 0.9)))
    (Ch03.dot (Ch03.vel (fst (Ch03.handleBallsCollision ballA ballB 0.9))) n)
  + kinetic (Ch03.mass (snd (Ch03.handleBallsCollision ballA ballB 0.9)))
      (Ch03.dot (Ch03.vel (snd (Ch03.handleBallsCollision ballA ballB 0.9))) n)
  <= kinetic (Ch03.mass ballA) (Ch03.dot (Ch03.vel ballA) n)
     + kinetic (Ch03.mass ballB) (Ch03.dot (Ch03.vel ballB) n).
Proof.
  assert (He : 0 <= 0.9 <= 1) by lra.
  assert (Hd : Ch03.distance ballA ballB <> 0)
    by (rewrite distance_ballA_ballB; lra).
  assert (Hr : Ch03.distance ballA ballB
               <= Ch03.radius ballA + Ch03.radius ballB)
    by (rewrite distance_ballA_ballB; simpl; lra).
  assert (H1 : 0 <= Ch03.mass ballA) by (pose proof PI_RGT_0; simpl; lra).
  assert (H2 : 0 <= Ch03.mass ballB) by (pose proof PI_RGT_0; simpl; lra).
  assert (H12 : Ch03.mass ballA + Ch03.mass ballB <> 0)
    by (pose proof PI_RGT_0; simpl; lra).
  exact (proj2 (C7_normal_energy_not_increased ballA ballB 0.9
                  He Hd Hr H1 H2 H12)).
Defined.

(** *** The head-on scenario with two balls of mass 1 *)

Lemma sqrt_PI_bounds : 4 / 3 < sqrt PI <= 2.
Proof.
  pose proof PI2_3_2 as Hlow. pose proof PI_4 as Hup.
  split.
  - replace (4 / 3) with (sqrt (4 / 3 * (4 / 3))) by (apply sqrt_square; lra).
    apply sqrt_lt_1; lra.
  - replace 2 with (sqrt (2 * 2)) by (apply sqrt_square; lra).
    apply sqrt_le_1; lra.
Qed.

Lemma unit_mass (p v : Vector2) : Ch03.mass (unitBall p v) = 1.
Proof.
  pose proof sqrt_PI_bounds as Hb.
  assert (Hs : sqrt PI * sqrt PI = PI)
    by (apply sqrt_sqrt; pose proof PI_RGT_0; lra).
  unfold unitBall, unitRadius. cbn [Ch03.mass].
  rewrite <- Hs at 1. field. lra.
Qed.

Lemma two_unit_radii : unitRadius + unitRadius = 2 / sqrt PI.
Proof. pose proof sqrt_PI_bounds. unfold unitRadius. field. lra. Qed.

Lemma two_unit_radii_bounds : 1 <= 2 / sqrt PI < 1.5.
Proof.
  pose proof sqrt_PI_bounds as Hb.
  split.
  - apply Rmult_le_reg_r with (sqrt PI); [lra |].
    replace (2 / sqrt PI * sqrt PI) with 2 by (field; lra). lra.
  - apply Rmult_lt_reg_r with (sqrt PI); [lra |].
    replace (2 / sqrt PI * sqrt PI) with 2 by (field; lra). lra.
Qed.

Lemma distance_striker_target (d : R) :
  0 <= d -> Ch03.distance striker (target d) = d.
Proof.
  intros Hd.
  unfold Ch03.distance, Ch03.length, Ch03.subtractVectors, striker, target,
    unitBall.
  cbn [Ch03.pos x y]. apply sqrt_lem_1; [| exact Hd | ring].
  apply square_sum_nonneg.
Qed.

(** Farther apart than the two radii, the two balls are left as they are. *)
Lemma striker_target_apart (d : R) :
  2 / sqrt PI < d ->
  Ch03.handleBallsCollision striker (target d) 1 = (striker, target d).
Proof.
  intros Hd. pose proof two_unit_radii_bounds as Hb.
  apply collision_skipped. right.
  rewrite distance_striker_target by lra.
  change (d > unitRadius + unitRadius). rewrite two_unit_radii. lra.
Qed.

(** In contact, they exchange their velocities. *)
Lemma striker_target_swap (d : R) :
  0 < d -> d <= 2 / sqrt PI ->
  Ch03.vel (fst (Ch03.handleBallsCollision striker (target d) 1))
  = mkVector2 0 0 /\
  Ch03.vel (snd (Ch03.handleBallsCollision striker (target d) 1))
  = mkVector2 1 0.
Proof.
  intros Hd Hr.
  assert (Hdist : Ch03.distance striker (target d) = d)
    by (apply distance_striker_target; lra).
  assert (Hn : Ch03.normal striker (target d) = mkVector2 1 0).
  { unfold Ch03.normal. rewrite Hdist.
    unfold Ch03.scale, Ch03.subtractVectors, striker, target, unitBall.
    cbn [Ch03.pos x y]. f_equal; field; lra. }
  rewrite collision_eq.
  - rewrite Hn. cbn [fst snd Ch03.vel].
    change (Ch03.mass striker)
      with (Ch03.mass (unitBall (mkVector2 0 0) (mkVector2 1 0))).
    change (Ch03.mass (target d))
      with (Ch03.mass (unitBall (mkVector2 d 0) (mkVector2 0 0))).
    rewrite !unit_mass.
    unfold Ch03.add, Ch03.dot, Ch03.newV1, Ch03.newV2, striker, target,
      unitBall.
    cbn [Ch03.vel x y]. split; f_equal; field.
  - rewrite Hdist. lra.
  - rewrite Hdist. change (d <= unitRadius + unitRadius).
    rewrite two_unit_radii. exact Hr.
Qed.

(** C5, as the code has it.  The two balls have mass 1.  With the second
    centre at [(d, 0)], [d > 0]: when the balls touch or overlap
    ([d <= 2 / sqrt PI]), one call with restitution 1 leaves the first with
    velocity (0, 0) and the second with (1, 0); when they are farther apart,
    as they are at 1.5, the call changes nothing. *)
Theorem C5_head_on_swap_when_in_contact (d : R) :
  0 < d ->
  Ch03.mass striker = 1 /\
  Ch03.mass (target d) = 1 /\
  (d <= 2 / sqrt PI ->
   Ch03.vel (fst (Ch03.handleBallsCollision striker (target d) 1))
   = mkVector2 0 0 /\
   Ch03.vel (snd (Ch03.handleBallsCollision striker (target d) 1))
   = mkVector2 1 0) /\
  (2 / sqrt PI < d ->
   Ch03.handleBallsCollision striker (target d) 1 = (striker, target d)) /\
  2 / sqrt PI < 1.5.
Proof.
  intros Hd.
  split; [apply unit_mass | split; [apply unit_mass | split; [| split]]].
  - intros Hr. apply striker_target_swap; assumption.
  - apply striker_target_apart.
  - apply two_unit_radii_bounds.
Qed.

Lemma C5_head_on_swap_when_in_contact_witness :
  Ch03.vel (fst (Ch03.handleBallsCollision striker (target 1) 1))
  = mkVector2 0 0 /\
  Ch03.vel (snd (Ch03.handleBallsCollision striker (target 1) 1))
  = mkVector2 1 0.
Proof.
  assert (Hd : 0 < 1) by lra.
  destruct (C5_head_on_swap_when_in_contact 1 Hd) as (_ & _ & Hswap & _).
  apply Hswap. apply two_unit_radii_bounds.
Defined.

(** C5, as the claim has it, fails: at (0, 0) and (1.5, 0) the two balls do
    not touch, the resolver skips the pair, and the velocities stay (1, 0)
    and (0, 0). *)
Lemma C5_no_contact_at_distance_1_5 :
  Ch03.handleBallsCollision striker (target 1.5) 1 = (striker, target 1.5) /\
  Ch03.vel (fst (Ch03.handleBallsCollision striker (target 1.5) 1))
  = mkVector2 1 0 /\
  Ch03.vel (snd (Ch03.handleBallsCollision striker (target 1.5) 1))
  = mkVector2 0 0 /\
  Ch03.vel (fst (Ch03.handleBallsCollision striker (target 1.5) 1))
  <> mkVector2 0 0 /\
  Ch03.vel (snd (Ch03.handleBallsCollision striker (target 1.5) 1))
  <> mkVector2 1 0.
Proof.
  assert (E : Ch03.handleBallsCollision striker (target 1.5) 1
              = (striker, target 1.5)).
  { apply striker_target_apart. apply two_unit_radii_bounds. }
  rewrite E. cbn [fst snd]. unfold striker, target, unitBall. cbn [Ch03.vel].
  repeat split.
  - intros H. assert (H1 : 1 = 0) by (injection H; auto). lra.
  - intros H. assert (H1 : 0 = 1) by (injection H; auto). lra.
Qed.

End PairCollision.

(** * Further properties *)

(** ** The pair resolver *)

Section PairResolver.

(** Carry a statement proved for the resolver of ch-03 over to the resolver
    of index3.js. *)
Ltac from_ch03 H :=
  cbv zeta in H |- *;
  rewrite <- ?forget_fst, <- ?forget_snd in H;
  exact H.

Lemma distance_sym (b1 b2 : Ch03.Ball) :
  Ch03.distance b2 b1 = Ch03.distance b1 b2.
Proof.
  unfold Ch03.distance, Ch03.length, Ch03.subtractVectors. cbn [x y].
  f_equal. ring.
Qed.

Lemma distance_same_centre (b1 b2 : Ch03.Ball) :
  Ch03.pos b1 = Ch03.pos b2 -> Ch03.distance b1 b2 = 0.
Proof.
  intros E. unfold Ch03.distance, Ch03.length, Ch03.subtractVectors.
  rewrite E. cbn [x y].
  replace ((x (Ch03.pos b2) - x (Ch03.pos b2))
           * (x (Ch03.pos b2) - x (Ch03.pos b2))
           + (y (Ch03.pos b2) - y (Ch03.pos b2))
             * (y (Ch03.pos b2) - y (Ch03.pos b2))) with 0 by ring.
  apply sqrt_0.
Qed.

Lemma guard_ch03 (b1 b2 : Ch03.Ball) (e : R) :
  (Ch03.pos b1 = Ch03.pos b2 -> Ch03.handleBallsCollision b1 b2 e = (b1, b2))
  /\
  (Ch03.distance b1 b2 > Ch03.radius b1 + Ch03.radius b2 ->
   Ch03.handleBallsCollision b1 b2 e = (b1, b2)).
Proof.
  split; intros H; apply collision_skipped.
  - left. apply distance_same_centre. exact H.
  - right. exact H.
Qed.

(** X1. Two balls whose centres coincide, and two balls whose centres are
    farther apart than the sum of the radii, are returned as they are: the
    resolver never separates balls that sit exactly on each other. *)
Theorem X1_pairs_left_alone :
  (forall (b1 b2 : Ch03.Ball) (e : R),
      (Ch03.pos b1 = Ch03.pos b2 ->
       Ch03.handleBallsCollision b1 b2 e = (b1, b2)) /\
      (Ch03.distance b1 b2 > Ch03.radius b1 + Ch03.radius b2 ->
       Ch03.handleBallsCollision b1 b2 e = (b1, b2))) /\
  (forall (c1 c2 : Practice3.Ball) (e : R),
      (Practice3.pos c1 = Practice3.pos c2 ->
       Practice3.handleBallsCollision c1 c2 e = (c1, c2)) /\
      (Practice3.distance c1 c2 > Practice3.radius c1 + Practice3.radius c2 ->
       Practice3.handleBallsCollision c1 c2 e = (c1, c2))).
Proof.
  split; [exact guard_ch03 |].
  intros c1 c2 e.
  assert (Hskip : Practice3.distance c1 c2 = 0 \/
                  Practice3.distance c1 c2
                  > Practice3.radius c1 + Practice3.radius c2 ->
                  Practice3.handleBallsCollision c1 c2 e = (c1, c2)).
  { intros H. unfold Practice3.handleBallsCollision.
    fold (Practice3.distance c1 c2).
    destruct H as [H | H].
    - rewrite (eq_b_true _ _ H). reflexivity.
    - rewrite (gt_b_true _ _ H), orb_true_r. reflexivity. }
  split; intros H; apply Hskip.
  - left. apply (distance_same_centre (forget c1) (forget c2)). exact H.
  - right. exact H.
Qed.

Lemma X1_pairs_left_alone_witness :
  Ch03.handleBallsCollision striker (target 0) 1 = (striker, target 0) /\
  Ch03.handleBallsCollision striker (target 1.5) 1 = (striker, target 1.5) /\
  Practice3.handleBallsCollision discA discA 0.9 = (discA, discA).
Proof.
  split; [| split].
  - apply (proj1 (proj1 X1_pairs_left_alone striker (target 0) 1)).
    reflexivity.
  - apply (proj2 (proj1 X1_pairs_left_alone striker (target 1.5) 1)).
    rewrite distance_striker_target by lra.
    change (1.5 > unitRadius + unitRadius). rewrite two_unit_radii.
    apply two_unit_radii_bounds.
  - apply (proj1 (proj2 X1_pairs_left_alone discA discA 0.9)). reflexivity.
Defined.

(** The resolver either skips the pair or treats it. *)
Lemma collision_cases (b1 b2 : Ch03.Ball) (e : R) :
  Ch03.handleBallsCollision b1 b2 e = (b1, b2) \/
  (Ch03.distance b1 b2 <> 0 /\
   Ch03.distance b1 b2 <= Ch03.radius b1 + Ch03.radius b2).
Proof.
  destruct (Req_dec_T (Ch03.distance b1 b2) 0) as [H0 | H0].
  - left. apply collision_skipped. left. exact H0.
  - destruct (Rle_dec (Ch03.distance b1 b2) (Ch03.radius b1 + Ch03.radius b2))
      as [Hr | Hr].
    + right. split; assumption.
    + left. apply collision_skipped. right. lra.
Qed.

Lemma frame_ch03 (b1 b2 : Ch03.Ball) (e : R) :
  let n := Ch03.normal b1 b2 in
  let t := mkVector2 (- y n) (x n) in
  let b1' := fst (Ch03.handleBallsCollision b1 b2 e) in
  let b2' := snd (Ch03.handleBallsCollision b1 b2 e) in
  Ch03.radius b1' = Ch03.radius b1 /\
  Ch03.radius b2' = Ch03.radius b2 /\
  Ch03.mass b1' = Ch03.mass b1 /\
  Ch03.mass b2' = Ch03.mass b2 /\
  Ch03.dot (Ch03.vel b1') t = Ch03.dot (Ch03.vel b1) t /\
  Ch03.dot (Ch03.vel b2') t = Ch03.dot (Ch03.vel b2) t.
Proof.
  intros n t b1' b2'. subst b1' b2'.
  destruct (collision_cases b1 b2 e) as [E | [Hd Hr]].
  - rewrite E. cbn [fst snd]. repeat split.
  - rewrite (collision_eq b1 b2 e Hd Hr).
    cbn [fst snd Ch03.radius Ch03.mass Ch03.vel]. fold n.
    repeat split; unfold Ch03.dot, Ch03.add, t; cbn [x y]; ring.
Qed.

(** X2. Whatever the pair and the restitution, the resolver keeps the
    radius and the mass of both balls and the component of each velocity
    across the contact normal: only the speeds along the normal change. *)
Theorem X2_tangential_velocity_kept :
  (forall (b1 b2 : Ch03.Ball) (e : R),
      let n := Ch03.normal b1 b2 in
      let t := mkVector2 (- y n) (x n) in
      let b1' := fst (Ch03.handleBallsCollision b1 b2 e) in
      let b2' := snd (Ch03.handleBallsCollision b1 b2 e) in
      Ch03.radius b1' = Ch03.radius b1 /\
      Ch03.radius b2' = Ch03.radius b2 /\
      Ch03.mass b1' = Ch03.mass b1 /\
      Ch03.mass b2' = Ch03.mass b2 /\
      Ch03.dot (Ch03.vel b1') t = Ch03.dot (Ch03.vel b1) t /\
      Ch03.dot (Ch03.vel b2') t = Ch03.dot (Ch03.vel b2) t) /\
  (forall (c1 c2 : Practice3.Ball) (e : R),
      let n := Practice3.normal c1 c2 in
      let t := mkVector2 (- y n) (x n) in
      let c1' := fst (Practice3.handleBallsCollision c1 c2 e) in
      let c2' := snd (Practice3.handleBallsCollision c1 c2 e) in
      Practice3.radius c1' = Practice3.radius c1 /\
      Practice3.radius c2' = Practice3.radius c2 /\
      Practice3.mass c1' = Practice3.mass c1 /\
      Practice3.mass c2' = Practice3.mass c2 /\
      Practice3.dot (Practice3.vel c1') t
      = Practice3.dot (Practice3.vel c1) t /\
      Practice3.dot (Practice3.vel c2') t = Practice3.dot (Practice3.vel c2) t).
Proof.
  split; [exact frame_ch03 |].
  intros c1 c2 e.
  pose proof (frame_ch03 (forget c1) (forget c2) e) as H.
  from_ch03 H.
Qed.

Lemma momentum_ch03 (b1 b2 : Ch03.Ball) (e : R) :
  Ch03.mass b1 + Ch03.mass b2 <> 0 ->
  let b1' := fst (Ch03.handleBallsCollision b1 b2 e) in
  let b2' := snd (Ch03.handleBallsCollision b1 b2 e) in
  Ch03.mass b1' * x (Ch03.vel b1') + Ch03.mass b2' * x (Ch03.vel b2')
  = Ch03.mass b1 * x (Ch03.vel b1) + Ch03.mass b2 * x (Ch03.vel b2) /\
  Ch03.mass b1' * y (Ch03.vel b1') + Ch03.mass b2' * y (Ch03.vel b2')
  = Ch03.mass b1 * y (Ch03.vel b1) + Ch03.mass b2 * y (Ch03.vel b2).
Proof.
  intros Hm b1' b2'. subst b1' b2'.
  destruct (collision_cases b1 b2 e) as [E | [Hd Hr]].
  - rewrite E. cbn [fst snd]. split; reflexivity.
  - rewrite (collision_eq b1 b2 e Hd Hr).
    cbn [fst snd Ch03.mass Ch03.vel].
    set (n := Ch03.normal b1 b2).
    set (v1 := Ch03.dot (Ch03.vel b1) n). set (v2 := Ch03.dot (Ch03.vel b2) n).
    pose proof (momentum_formula (Ch03.mass b1) (Ch03.mass b2) v1 v2 e Hm)
      as Hp.
    set (nv1 := Ch03.newV1 (Ch03.mass b1) (Ch03.mass b2) v1 v2 e) in *.
    set (nv2 := Ch03.newV2 (Ch03.mass b1) (Ch03.mass b2) v1 v2 e) in *.
    unfold Ch03.add. cbn [x y]. split.
    + replace (Ch03.mass b1 * (x (Ch03.vel b1) + x n * (nv1 - v1))
               + Ch03.mass b2 * (x (Ch03.vel b2) + x n * (nv2 - v2)))
        with (Ch03.mass b1 * x (Ch03.vel b1) + Ch03.mass b2 * x (Ch03.vel b2)
              + x n * (Ch03.mass b1 * nv1 + Ch03.mass b2 * nv2
                       - (Ch03.mass b1 * v1 + Ch03.mass b2 * v2))) by ring.
      rewrite Hp. ring.
    + replace (Ch03.mass b1 * (y (Ch03.vel b1) + y n * (nv1 - v1))
               + Ch03.mass b2 * (y (Ch03.vel b2) + y n * (nv2 - v2)))
        with (Ch03.mass b1 * y (Ch03.vel b1) + Ch03.mass b2 * y (Ch03.vel b2)
              + y n * (Ch03.mass b1 * nv1 + Ch03.mass b2 * nv2
                       - (Ch03.mass b1 * v1 + Ch03.mass b2 * v2))) by ring.
      rewrite Hp. ring.
Qed.

(** X3. For two balls whose total mass is not zero, every call of the
    resolver, skipped or not and whatever the restitution, keeps the total
    momentum [m1 * vel1 + m2 * vel2] as a vector. *)
Theorem X3_momentum_vector_conserved :
  (forall (b1 b2 : Ch03.Ball) (e : R),
      Ch03.mass b1 + Ch03.mass b2 <> 0 ->
      let b1' := fst (Ch03.handleBallsCollision b1 b2 e) in
      let b2' := snd (Ch03.handleBallsCollision b1 b2 e) in
      Ch03.mass b1' * x (Ch03.vel b1') + Ch03.mass b2' * x (Ch03.vel b2')
      = Ch03.mass b1 * x (Ch03.vel b1) + Ch03.mass b2 * x (Ch03.vel b2) /\
      Ch03.mass b1' * y (Ch03.vel b1') + Ch03.mass b2' * y (Ch03.vel b2')
      = Ch03.mass b1 * y (Ch03.vel b1) + Ch03.mass b2 * y (Ch03.vel b2)) /\
  (forall (c1 c2 : Practice3.Ball) (e : R),
      Practice3.mass c1 + Practice3.mass c2 <> 0 ->
      let c1' := fst (Practice3.handleBallsCollision c1 c2 e) in
      let c2' := snd (Practice3.handleBallsCollision c1 c2 e) in
      Practice3.mass c1' * x (Practice3.vel c1')
      + Practice3.mass c2' * x (Practice3.vel c2')
      = Practice3.mass c1 * x (Practice3.vel c1)
        + Practice3.mass c2 * x (Practice3.vel c2) /\
      Practice3.mass c1' * y (Practice3.vel c1')
      + Practice3.mass c2' * y (Practice3.vel c2')
      = Practice3.mass c1 * y (Practice3.vel c1)
        + Practice3.mass c2 * y (Practice3.vel c2)).
Proof.
  split; [exact momentum_ch03 |].
  intros c1 c2 e.
  pose proof (momentum_ch03 (forget c1) (forget c2) e) as H.
  from_ch03 H.
Qed.

Lemma X3_momentum_vector_conserved_witness :
  Ch03.mass (fst (Ch03.handleBallsCollision ballA ballB 0.9))
  * x (Ch03.vel (fst (Ch03.handleBallsCollision ballA ballB 0.9)))
  + Ch03.mass (snd (Ch03.handleBallsCollision ballA ballB 0.9))
    * x (Ch03.vel (snd (Ch03.handleBallsCollision ballA ballB 0.9)))
  = Ch03.mass ballA * x (Ch03.vel ballA)
    + Ch03.mass ballB * x (Ch03.vel ballB) /\
  Practice3.mass (fst (Practice3.handleBallsCollision discA discB 0.9))
  * x (Practice3.vel (fst (Practice3.handleBallsCollision discA discB 0.9)))
  + Practice3.mass (snd (Practice3.handleBallsCollision discA discB 0.9))
    * x (Practice3.vel (snd (Practice3.handleBallsCollision discA discB 0.9)))
  = Practice3.mass discA * x (Practice3.vel discA)
    + Practice3.mass discB * x (Practice3.vel discB).
Proof.
  destruct X3_momentum_vector_conserved as (H3 & Hp).
  split.
  - assert (Hm : Ch03.mass ballA + Ch03.mass ballB <> 0)
      by (pose proof PI_RGT_0; simpl; lra).
    exact (proj1 (H3 ballA ballB 0.9 Hm)).
  - assert (Hm : Practice3.mass discA + Practice3.mass discB <> 0)
      by (pose proof PI_RGT_0; simpl; lra).
    exact (proj1 (Hp discA discB 0.9 Hm)).
Defined.

Lemma restitution_formula (m1 m2 v1 v2 e : R) :
  m1 + m2 <> 0 ->
  Ch03.newV1 m1 m2 v1 v2 e - Ch03.newV2 m1 m2 v1 v2 e = - e * (v1 - v2).
Proof. intros H. unfold Ch03.newV1, Ch03.newV2. field. exact H. Qed.

Lemma restitution_ch03 (b1 b2 : Ch03.Ball) (e : R) :
  Ch03.distance b1 b2 <> 0 ->
  Ch03.distance b1 b2 <= Ch03.radius b1 + Ch03.radius b2 ->
  Ch03.mass b1 + Ch03.mass b2 <> 0 ->
  let n := Ch03.normal b1 b2 in
  let v1 := Ch03.dot (Ch03.vel b1) n in
  let v2 := Ch03.dot (Ch03.vel b2) n in
  let v1' := Ch03.dot (Ch03.vel (fst (Ch03.handleBallsCollision b1 b2 e))) n in
  let v2' := Ch03.dot (Ch03.vel (snd (Ch03.handleBallsCollision b1 b2 e))) n in
  v1' - v2' = - e * (v1 - v2) /\
  (0 < e -> v1 < v2 -> v2' < v1') /\
  (e = 0 ->
   v1' = (Ch03.mass b1 * v1 + Ch03.mass b2 * v2)
         / (Ch03.mass b1 + Ch03.mass b2) /\
   v2' = v1').
Proof.
  intros Hd Hr Hm n v1 v2 v1' v2'.
  destruct (collision_normal_speeds b1 b2 e Hd Hr) as (E1 & E2 & _).
  fold n v1 v2 v1' v2' in E1, E2.
  pose proof (restitution_formula (Ch03.mass b1) (Ch03.mass b2) v1 v2 e Hm)
    as Hrel.
  rewrite <- E1, <- E2 in Hrel.
  split; [exact Hrel | split].
  - intros He Hv.
    assert (0 < e * (v2 - v1)) by (apply Rmult_lt_0_compat; lra). lra.
  - intros He. split.
    + rewrite E1, He. unfold Ch03.newV1. field. exact Hm.
    + rewrite He in Hrel. lra.
Qed.

(** X4. For a pair the resolver treats, of nonzero total mass, the
    difference of the two speeds along the normal after the call is the
    difference before, times minus the restitution.  So with a positive
    restitution a pair that overlaps while it is already moving apart is
    sent back towards each other, and with restitution 0 both balls leave
    with the speed of their centre of mass. *)
Theorem X4_relative_normal_speed_reversed :
  (forall (b1 b2 : Ch03.Ball) (e : R),
      Ch03.distance b1 b2 <> 0 ->
      Ch03.distance b1 b2 <= Ch03.radius b1 + Ch03.radius b2 ->
      Ch03.mass b1 + Ch03.mass b2 <> 0 ->
      let n := Ch03.normal b1 b2 in
      let v1 := Ch03.dot (Ch03.vel b1) n in
      let v2 := Ch03.dot (Ch03.vel b2) n in
      let v1' :=
        Ch03.dot (Ch03.vel (fst (Ch03.handleBallsCollision b1 b2 e))) n in
      let v2' :=
        Ch03.dot (Ch03.vel (snd (Ch03.handleBallsCollision b1 b2 e))) n in
      v1' - v2' = - e * (v1 - v2) /\
      (0 < e -> v1 < v2 -> v2' < v1') /\
      (e = 0 ->
       v1' = (Ch03.mass b1 * v1 + Ch03.mass b2 * v2)
             / (Ch03.mass b1 + Ch03.mass b2) /\
       v2' = v1')) /\
  (forall (c1 c2 : Practice3.Ball) (e : R),
      Practice3.distance c1 c2 <> 0 ->
      Practice3.distance c1 c2 <= Practice3.radius c1 + Practice3.radius c2 ->
      Practice3.mass c1 + Practice3.mass c2 <> 0 ->
      let n := Practice3.normal c1 c2 in
      let v1 := Practice3.dot (Practice3.vel c1) n in
      let v2 := Practice3.dot (Practice3.vel c2) n in
      let v1' :=
        Practice3.dot
          (Practice3.vel (fst (Practice3.handleBallsCollision c1 c2 e))) n in
      let v2' :=
        Practice3.dot
          (Practice3.vel (snd (Practice3.handleBallsCollision c1 c2 e))) n in
      v1' - v2' = - e * (v1 - v2) /\
      (0 < e -> v1 < v2 -> v2' < v1') /\
      (e = 0 ->
       v1' = (Practice3.mass c1 * v1 + Practice3.mass c2 * v2)
             / (Practice3.mass c1 + Practice3.mass c2) /\
       v2' = v1')).
Proof.
  split; [exact restitution_ch03 |].
  intros c1 c2 e.
  pose proof (restitution_ch03 (forget c1) (forget c2) e) as H.
  from_ch03 H.
Qed.

Lemma X4_relative_normal_speed_reversed_witness :
  (let n := Ch03.normal ballA ballB in
   Ch03.dot (Ch03.vel (fst (Ch03.handleBallsCollision ballA ballB 0.9))) n
   - Ch03.dot (Ch03.vel (snd (Ch03.handleBallsCollision ballA ballB 0.9))) n
   = 0.9 * (Ch03.dot (Ch03.vel ballB) n - Ch03.dot (Ch03.vel ballA) n)) /\
  (let n := Practice3.normal discA discB in
   Practice3.dot
     (Practice3.vel (fst (Practice3.handleBallsCollision discA discB 0.9))) n
   - Practice3.dot
       (Practice3.vel (snd (Practice3.handleBallsCollision discA discB 0.9))) n
   = 0.9 * (Practice3.dot (Practice3.vel discB) n
            - Practice3.dot (Practice3.vel discA) n)).
Proof.
  destruct X4_relative_normal_speed_reversed as (H3 & Hp).
  split.
  - assert (Hd : Ch03.distance ballA ballB <> 0)
      by (rewrite distance_ballA_ballB; lra).
    assert (Hr : Ch03.distance ballA ballB
                 <= Ch03.radius ballA + Ch03.radius ballB)
      by (rewrite distance_ballA_ballB; simpl; lra).
    assert (Hm : Ch03.mass ballA + Ch03.mass ballB <> 0)
      by (pose proof PI_RGT_0; simpl; lra).
    pose proof (proj1 (H3 ballA ballB 0.9 Hd Hr Hm)) as H. cbv zeta in H |- *.
    lra.
  - assert (Hd : Practice3.distance discA discB <> 0)
      by (rewrite distance_discA_discB; lra).
    assert (Hr : Practice3.distance discA discB
                 <= Practice3.radius discA + Practice3.radius discB)
      by (rewrite distance_discA_discB; simpl; lra).
    assert (Hm : Practice3.mass discA + Practice3.mass discB <> 0)
      by (pose proof PI_RGT_0; simpl; lra).
    pose proof (proj1 (Hp discA discB 0.9 Hd Hr Hm)) as H. cbv zeta in H |- *.
    lra.
Defined.

Lemma elastic_formula (m1 m2 v1 v2 : R) :
  m1 + m2 <> 0 ->
  kinetic m1 (Ch03.newV1 m1 m2 v1 v2 1) + kinetic m2 (Ch03.newV2 m1 m2 v1 v2 1)
  = kinetic m1 v1 + kinetic m2 v2.
Proof. intros H. unfold kinetic, Ch03.newV1, Ch03.newV2. field. exact H. Qed.

(** X5. With restitution 1, as the scene of ch-03 has it, a pair the
    resolver treats keeps the whole kinetic energy
    [1/2 * m1 * |vel1|^2 + 1/2 * m2 * |vel2|^2] of its two balls. *)
Theorem X5_elastic_collision_keeps_energy (b1 b2 : Ch03.Ball) :
  Ch03.distance b1 b2 <> 0 ->
  Ch03.distance b1 b2 <= Ch03.radius b1 + Ch03.radius b2 ->
  Ch03.mass b1 + Ch03.mass b2 <> 0 ->
  let b1' := fst (Ch03.handleBallsCollision b1 b2 1) in
  let b2' := snd (Ch03.handleBallsCollision b1 b2 1) in
  kinetic (Ch03.mass b1') (Ch03.length (Ch03.vel b1'))
  + kinetic (Ch03.mass b2') (Ch03.length (Ch03.vel b2'))
  = kinetic (Ch03.mass b1) (Ch03.length (Ch03.vel b1))
    + kinetic (Ch03.mass b2) (Ch03.length (Ch03.vel b2)).
Proof.
  intros Hd Hr Hm b1' b2'.
  destruct (frame_ch03 b1 b2 1) as (_ & _ & M1 & M2 & T1 & T2).
  destruct (collision_normal_speeds b1 b2 1 Hd Hr) as (E1 & E2 & _).
  pose proof (normal_unit b1 b2 Hd) as Hu.
  fold b1' b2' in M1, M2, T1, T2, E1, E2.
  set (n := Ch03.normal b1 b2) in *.
  set (t := mkVector2 (- y n) (x n)) in *.
  assert (Hsplit : forall u : Vector2,
             Ch03.length u * Ch03.length u
             = Ch03.dot u n * Ch03.dot u n + Ch03.dot u t * Ch03.dot u t).
  { intros u. rewrite length_square. unfold Ch03.dot in *. unfold t.
    cbn [x y] in *.
    replace ((x u * x n + y u * y n) * (x u * x n + y u * y n)
             + (x u * - y n + y u * x n) * (x u * - y n + y u * x n))
      with ((x u * x u + y u * y u) * (x n * x n + y n * y n)) by ring.
    rewrite Hu. ring. }
  unfold kinetic. rewrite !Hsplit, M1, M2, T1, T2, E1, E2.
  pose proof (elastic_formula (Ch03.mass b1) (Ch03.mass b2)
                (Ch03.dot (Ch03.vel b1) n) (Ch03.dot (Ch03.vel b2) n) Hm)
    as He.
  unfold kinetic in He. lra.
Qed.

Lemma X5_elastic_collision_keeps_energy_witness :
  kinetic (Ch03.mass (fst (Ch03.handleBallsCollision ballA ballB 1)))
    (Ch03.length (Ch03.vel (fst (Ch03.handleBallsCollision ballA ballB 1))))
  + kinetic (Ch03.mass (snd (Ch03.handleBallsCollision ballA ballB 1)))
      (Ch03.length (Ch03.vel (snd (Ch03.handleBallsCollision ballA ballB 1))))
  = kinetic (Ch03.mass ballA) (Ch03.length (Ch03.vel ballA))
    + kinetic (Ch03.mass ballB) (Ch03.length (Ch03.vel ballB)).
Proof.
  assert (Hd : Ch03.distance ballA ballB <> 0)
    by (rewrite distance_ballA_ballB; lra).
  assert (Hr : Ch03.distance ballA ballB
               <= Ch03.radius ballA + Ch03.radius ballB)
    by (rewrite distance_ballA_ballB; simpl; lra).
  assert (Hm : Ch03.mass ballA + Ch03.mass ballB <> 0)
    by (pose proof PI_RGT_0; simpl; lra).
  exact (X5_elastic_collision_keeps_energy ballA ballB Hd Hr Hm).
Defined.

Lemma normal_sym (b1 b2 : Ch03.Ball) :
  Ch03.normal b2 b1 = Ch03.scale (Ch03.normal b1 b2) (- 1).
Proof.
  unfold Ch03.normal. rewrite (distance_sym b1 b2).
  unfold Ch03.scale, Ch03.subtractVectors. cbn [x y]. f_equal; ring.
Qed.

(** X6. The order of the two balls does not matter: the resolver called on
    [(ball2, ball1)] returns the pair it returns on [(ball1, ball2)], the
    other way round. *)
Theorem X6_resolver_symmetric (b1 b2 : Ch03.Ball) (e : R) :
  Ch03.handleBallsCollision b2 b1 e
  = (snd (Ch03.handleBallsCollision b1 b2 e),
     fst (Ch03.handleBallsCollision b1 b2 e)).
Proof.
  destruct (Req_dec_T (Ch03.distance b1 b2) 0) as [H0 | H0].
  { rewrite (collision_skipped b1 b2 e) by (left; exact H0).
    rewrite (collision_skipped b2 b1 e)
      by (left; rewrite distance_sym; exact H0).
    reflexivity. }
  destruct (Rle_dec (Ch03.distance b1 b2) (Ch03.radius b1 + Ch03.radius b2))
    as [Hr | Hr].
  2:{ rewrite (collision_skipped b1 b2 e) by (right; lra).
      rewrite (collision_skipped b2 b1 e)
        by (right; rewrite distance_sym; lra).
      reflexivity. }
  rewrite (collision_eq b1 b2 e H0 Hr).
  rewrite (collision_eq b2 b1 e)
    by (rewrite distance_sym; [exact H0 || lra]).
  rewrite normal_sym, distance_sym. cbn [fst snd].
  set (n := Ch03.normal b1 b2).
  unfold Ch03.add, Ch03.dot, Ch03.scale, Ch03.newV1, Ch03.newV2. cbn [x y].
  replace (Ch03.mass b2 + Ch03.mass b1) with (Ch03.mass b1 + Ch03.mass b2)
    by ring.
  replace (Ch03.radius b2 + Ch03.radius b1)
    with (Ch03.radius b1 + Ch03.radius b2) by ring.
  f_equal; f_equal; f_equal; try ring;
    unfold Rdiv; generalize (/ (Ch03.mass b1 + Ch03.mass b2)); intros; ring.
Qed.

(** X7. The correction of the positions moves the two centres by opposite
    vectors: the point midway between the two centres stays where it was,
    whatever the masses, and two balls that just touch keep their
    positions. *)
Theorem X7_midpoint_of_centres_kept (b1 b2 : Ch03.Ball) (e : R) :
  let b1' := fst (Ch03.handleBallsCollision b1 b2 e) in
  let b2' := snd (Ch03.handleBallsCollision b1 b2 e) in
  Ch03.addVectors (Ch03.pos b1') (Ch03.pos b2')
  = Ch03.addVectors (Ch03.pos b1) (Ch03.pos b2) /\
  (Ch03.distance b1 b2 = Ch03.radius b1 + Ch03.radius b2 ->
   Ch03.pos b1' = Ch03.pos b1 /\ Ch03.pos b2' = Ch03.pos b2).
Proof.
  intros b1' b2'. subst b1' b2'.
  destruct (collision_cases b1 b2 e) as [E | [Hd Hr]].
  - rewrite E. cbn [fst snd].
    split; [reflexivity | intros _; split; reflexivity].
  - rewrite (collision_eq b1 b2 e Hd Hr). cbn [fst snd Ch03.pos].
    split.
    + unfold Ch03.addVectors, Ch03.add. cbn [x y]. f_equal; ring.
    + intros Ht. rewrite Ht.
      replace ((Ch03.radius b1 + Ch03.radius b2
                - (Ch03.radius b1 + Ch03.radius b2)) / 2) with 0 by field.
      unfold Ch03.add. cbn [x y].
      destruct (Ch03.pos b1) as [x1 y1], (Ch03.pos b2) as [x2 y2].
      cbn [x y]. split; f_equal; ring.
Qed.

Lemma X7_midpoint_of_centres_kept_witness :
  Ch03.pos (fst (Ch03.handleBallsCollision ballA ballC 1)) = Ch03.pos ballA /\
  Ch03.pos (snd (Ch03.handleBallsCollision ballA ballC 1)) = Ch03.pos ballC.
Proof.
  apply (proj2 (X7_midpoint_of_centres_kept ballA ballC 1)).
  unfold Ch03.distance, Ch03.length, Ch03.subtractVectors, ballA, ballC.
  cbn [Ch03.pos Ch03.radius x y]. apply sqrt_lem_1; lra.
Defined.

End PairResolver.

(** ** The walls *)

Section WallsMore.

Lemma Ch03_walls_frame (b : Ch03.Ball) (w : Vector2) :
  Ch03.radius (Ch03.handleWallsCollision b w) = Ch03.radius b /\
  Ch03.mass (Ch03.handleWallsCollision b w) = Ch03.mass b.
Proof.
  unfold Ch03.handleWallsCollision, Ch03.hitTop, Ch03.hitBottom,
    Ch03.hitRight, Ch03.hitLeft.
  repeat match goal with
         | |- context [if ?c then _ else _] => destruct c
         end; split; reflexivity.
Qed.

Lemma Ch03_walls_inside (b : Ch03.Ball) (w : Vector2) :
  Ch03.radius b <= x (Ch03.pos b) <= x w - Ch03.radius b ->
  Ch03.radius b <= y (Ch03.pos b) <= y w - Ch03.radius b ->
  Ch03.handleWallsCollision b w = b.
Proof.
  intros Hx Hy. unfold Ch03.handleWallsCollision.
  unfold Ch03.hitLeft. rewrite lt_b_false by lra.
  unfold Ch03.hitRight. rewrite gt_b_false by lra.
  unfold Ch03.hitBottom. rewrite lt_b_false by lra.
  unfold Ch03.hitTop. rewrite gt_b_false by lra.
  reflexivity.
Qed.

Lemma Ch03_walls_contain (b : Ch03.Ball) (w : Vector2) :
  Ch03.radius b <= x w - Ch03.radius b ->
  Ch03.radius b <= y w - Ch03.radius b ->
  let b' := Ch03.handleWallsCollision b w in
  Ch03.radius b <= x (Ch03.pos b') <= x w - Ch03.radius b /\
  Ch03.radius b <= y (Ch03.pos b') <= y w - Ch03.radius b.
Proof.
  intros Hx Hy b'.
  destruct (Ch03_walls_x b w Hx) as (Hl & Hr & Hm).
  destruct (Ch03_walls_y b w Hy) as (Hb & Ht & Hn).
  fold b' in Hl, Hr, Hm, Hb, Ht, Hn.
  split.
  - destruct (Rlt_dec (x (Ch03.pos b)) (Ch03.radius b)) as [H1 | H1].
    { destruct (Hl H1) as (E & _). rewrite E. lra. }
    destruct (Rgt_dec (x (Ch03.pos b)) (x w - Ch03.radius b)) as [H2 | H2].
    { destruct (Hr H2) as (E & _). rewrite E. lra. }
    destruct Hm as (E & _); [lra | rewrite E; lra].
  - destruct (Rlt_dec (y (Ch03.pos b)) (Ch03.radius b)) as [H1 | H1].
    { destruct (Hb H1) as (E & _). rewrite E. lra. }
    destruct (Rgt_dec (y (Ch03.pos b)) (y w - Ch03.radius b)) as [H2 | H2].
    { destruct (Ht H2) as (E & _). rewrite E. lra. }
    destruct Hn as (E & _); [lra | rewrite E; lra].
Qed.

(** Each wall test of ch-03 keeps a velocity component or negates it. *)
Lemma Ch03_walls_speed (b : Ch03.Ball) (w : Vector2) :
  let b' := Ch03.handleWallsCollision b w in
  Rabs (x (Ch03.vel b')) = Rabs (x (Ch03.vel b)) /\
  Rabs (y (Ch03.vel b')) = Rabs (y (Ch03.vel b)).
Proof.
  intros b'. subst b'. unfold Ch03.handleWallsCollision.
  assert (HL : forall c, Rabs (x (Ch03.vel (Ch03.hitLeft c)))
                         = Rabs (x (Ch03.vel c))).
  { intros c. unfold Ch03.hitLeft. destruct (lt_b _ _); cbn;
      [apply Rabs_Ropp | reflexivity]. }
  assert (HR : forall c, Rabs (x (Ch03.vel (Ch03.hitRight c w)))
                         = Rabs (x (Ch03.vel c))).
  { intros c. unfold Ch03.hitRight. destruct (gt_b _ _); cbn;
      [apply Rabs_Ropp | reflexivity]. }
  assert (HB : forall c, Rabs (y (Ch03.vel (Ch03.hitBottom c)))
                         = Rabs (y (Ch03.vel c))).
  { intros c. unfold Ch03.hitBottom. destruct (lt_b _ _); cbn;
      [apply Rabs_Ropp | reflexivity]. }
  assert (HT : forall c, Rabs (y (Ch03.vel (Ch03.hitTop c w)))
                         = Rabs (y (Ch03.vel c))).
  { intros c. unfold Ch03.hitTop. destruct (gt_b _ _); cbn;
      [apply Rabs_Ropp | reflexivity]. }
  split.
  - destruct (Ch03_hitTop_frame
                (Ch03.hitBottom (Ch03.hitRight (Ch03.hitLeft b) w)) w)
      as (_ & -> & _).
    destruct (Ch03_hitBottom_frame (Ch03.hitRight (Ch03.hitLeft b) w))
      as (_ & -> & _).
    rewrite HR, HL. reflexivity.
  - rewrite HT, HB.
    destruct (Ch03_hitRight_frame (Ch03.hitLeft b) w) as (_ & -> & _).
    destruct (Ch03_hitLeft_frame b) as (_ & -> & _).
    reflexivity.
Qed.

(** X8. In ch-03, in a world at least one ball diameter wide and high,
    the wall resolver returns a ball that lies between the four walls, one
    radius inside at least, and leaves such a ball as it is: resolving twice
    is resolving once.  In any world it keeps the radius, the mass and the
    absolute value of each velocity component, hence the speed. *)
Theorem X8_walls_contain_the_ball (b : Ch03.Ball) (w : Vector2) :
  let b' := Ch03.handleWallsCollision b w in
  (Ch03.radius b <= x w - Ch03.radius b ->
   Ch03.radius b <= y w - Ch03.radius b ->
   Ch03.radius b <= x (Ch03.pos b') <= x w - Ch03.radius b /\
   Ch03.radius b <= y (Ch03.pos b') <= y w - Ch03.radius b /\
   Ch03.handleWallsCollision b' w = b') /\
  Ch03.radius b' = Ch03.radius b /\
  Ch03.mass b' = Ch03.mass b /\
  Rabs (x (Ch03.vel b')) = Rabs (x (Ch03.vel b)) /\
  Rabs (y (Ch03.vel b')) = Rabs (y (Ch03.vel b)) /\
  Ch03.length (Ch03.vel b') = Ch03.length (Ch03.vel b).
Proof.
  intros b'.
  destruct (Ch03_walls_frame b w) as (Er & Em).
  destruct (Ch03_walls_speed b w) as (Ex & Ey).
  fold b' in Er, Em, Ex, Ey.
  split; [| repeat split; try assumption].
  - intros Hx Hy.
    destruct (Ch03_walls_contain b w Hx Hy) as (Cx & Cy).
    fold b' in Cx, Cy.
    split; [exact Cx | split; [exact Cy |]].
    apply Ch03_walls_inside; rewrite Er; assumption.
  - unfold Ch03.length. f_equal.
    assert (Hsq : forall a c : R, Rabs a = Rabs c -> a * a = c * c).
    { intros a c H.
      replace (a * a) with (Rabs a * Rabs a)
        by (rewrite <- Rabs_mult; apply Rabs_pos_eq; nra).
      replace (c * c) with (Rabs c * Rabs c)
        by (rewrite <- Rabs_mult; apply Rabs_pos_eq; nra).
      rewrite H. reflexivity. }
    rewrite (Hsq _ _ Ex), (Hsq _ _ Ey). reflexivity.
Qed.

Lemma X8_walls_contain_the_ball_witness :
  0.5 <= x (Ch03.pos (Ch03.handleWallsCollision wallBall wallWorld)) <= 9.5 /\
  Ch03.handleWallsCollision (Ch03.handleWallsCollision wallBall wallWorld)
    wallWorld
  = Ch03.handleWallsCollision wallBall wallWorld.
Proof.
  assert (Hx : Ch03.radius wallBall <= x wallWorld - Ch03.radius wallBall)
    by (simpl; lra).
  assert (Hy : Ch03.radius wallBall <= y wallWorld - Ch03.radius wallBall)
    by (simpl; lra).
  destruct (proj1 (X8_walls_contain_the_ball wallBall wallWorld) Hx Hy)
    as (Cx & _ & Hfix).
  simpl in Cx. split; [lra | exact Hfix].
Defined.

(** *** index3.js *)

Ltac walls3 :=
  unfold Practice3.handleWallCollision, Practice3.hitTop, Practice3.hitBottom,
    Practice3.hitRight, Practice3.hitLeft, Practice3.set_vel_x,
    Practice3.set_vel_y, Practice3.set_pos_x, Practice3.set_pos_y,
    Practice3.set_pos, Practice3.set_vel, Practice3.renderer_scale;
  simpl.

Lemma Practice3_contain_x (rd : Practice3.Renderer) (b : Practice3.Ball) :
  Practice3.radius b
  <= Practice3.canvas_width rd / 20 - Practice3.radius b ->
  let b' := Practice3.handleWallCollision rd b in
  Practice3.radius b <= x (Practice3.pos b')
  <= Practice3.canvas_width rd / 20 - Practice3.radius b.
Proof.
  intros Hw b'. subst b'. unfold Practice3.handleWallCollision.
  destruct (Practice3_hitBottom_frame (Practice3.hitTop rd b))
    as (Hp & Hv & Hr).
  destruct (Practice3_hitTop_frame rd b) as (Hp' & Hv' & Hr').
  rewrite Hp' in Hp. rewrite Hv' in Hv. rewrite Hr' in Hr.
  destruct (Practice3.hitBottom (Practice3.hitTop rd b))
    as [[px1 py1] [ux1 uy1] r1 c1 m1 g1].
  destruct b as [[px py] [ux uy] r c m g], rd as [cw ch]. simpl in *. subst.
  walls3. by_cases.
Qed.

Lemma Practice3_contain_y (rd : Practice3.Renderer) (b : Practice3.Ball) :
  Practice3.radius b
  <= Practice3.canvas_height rd / 20 - Practice3.radius b ->
  let b' := Practice3.handleWallCollision rd b in
  Practice3.radius b <= y (Practice3.pos b')
  <= Practice3.canvas_height rd / 20 - Practice3.radius b.
Proof.
  intros Hw b'. subst b'. unfold Practice3.handleWallCollision.
  destruct (Practice3_hitLeft_frame
              (Practice3.hitRight rd
                 (Practice3.hitBottom (Practice3.hitTop rd b))))
    as (-> & _ & _).
  destruct (Practice3_hitRight_frame rd
              (Practice3.hitBottom (Practice3.hitTop rd b)))
    as (-> & _ & _).
  destruct b as [[px py] [ux uy] r c m g], rd as [cw ch]. simpl in Hw.
  walls3. by_cases.
Qed.

Lemma damped (v : R) : Rabs (- v * 0.9) <= Rabs v.
Proof.
  rewrite Rabs_mult, Rabs_Ropp, (Rabs_pos_eq 0.9) by lra.
  pose proof (Rabs_pos v). lra.
Qed.

Lemma Practice3_walls_slow (rd : Practice3.Renderer) (b : Practice3.Ball) :
  let b' := Practice3.handleWallCollision rd b in
  Rabs (x (Practice3.vel b')) <= Rabs (x (Practice3.vel b)) /\
  Rabs (y (Practice3.vel b')) <= Rabs (y (Practice3.vel b)).
Proof.
  intros b'. subst b'. unfold Practice3.handleWallCollision.
  assert (HL : forall c, Rabs (x (Practice3.vel (Practice3.hitLeft c)))
                         <= Rabs (x (Practice3.vel c))).
  { intros c. unfold Practice3.hitLeft. destruct (lt_b _ _); cbn;
      [apply damped | lra]. }
  assert (HR : forall c, Rabs (x (Practice3.vel (Practice3.hitRight rd c)))
                         <= Rabs (x (Practice3.vel c))).
  { intros c. unfold Practice3.hitRight. destruct (gt_b _ _); cbn;
      [apply damped | lra]. }
  assert (HB : forall c, Rabs (y (Practice3.vel (Practice3.hitBottom c)))
                         <= Rabs (y (Practice3.vel c))).
  { intros c. unfold Practice3.hitBottom. destruct (lt_b _ _); cbn;
      [apply damped | lra]. }
  assert (HT : forall c, Rabs (y (Practice3.vel (Practice3.hitTop rd c)))
                         <= Rabs (y (Practice3.vel c))).
  { intros c. unfold Practice3.hitTop. destruct (gt_b _ _); cbn;
      [apply damped | lra]. }
  split.
  - eapply Rle_trans; [apply HL |]. eapply Rle_trans; [apply HR |].
    destruct (Practice3_hitBottom_frame (Practice3.hitTop rd b))
      as (_ & -> & _).
    destruct (Practice3_hitTop_frame rd b) as (_ & -> & _). lra.
  - destruct (Practice3_hitLeft_frame
                (Practice3.hitRight rd
                   (Practice3.hitBottom (Practice3.hitTop rd b))))
      as (_ & -> & _).
    destruct (Practice3_hitRight_frame rd
                (Practice3.hitBottom (Practice3.hitTop rd b)))
      as (_ & -> & _).
    eapply Rle_trans; [apply HB |]. apply HT.
Qed.

(** X9. In index3.js the wall resolver never makes a velocity component
    larger in absolute value; and when the canvas, divided by the scale 20,
    is at least one ball diameter wide and high, the ball it returns lies
    between the four walls, one radius inside at least. *)
Theorem X9_damped_walls_contain_the_ball
  (rd : Practice3.Renderer) (b : Practice3.Ball) :
  let b' := Practice3.handleWallCollision rd b in
  Rabs (x (Practice3.vel b')) <= Rabs (x (Practice3.vel b)) /\
  Rabs (y (Practice3.vel b')) <= Rabs (y (Practice3.vel b)) /\
  (Practice3.radius b
   <= Practice3.canvas_width rd / 20 - Practice3.radius b ->
   Practice3.radius b
   <= Practice3.canvas_height rd / 20 - Practice3.radius b ->
   Practice3.radius b <= x (Practice3.pos b')
   <= Practice3.canvas_width rd / 20 - Practice3.radius b /\
   Practice3.radius b <= y (Practice3.pos b')
   <= Practice3.canvas_height rd / 20 - Practice3.radius b).
Proof.
  intros b'.
  destruct (Practice3_walls_slow rd b) as (Hx & Hy).
  split; [exact Hx | split; [exact Hy |]].
  intros Wx Wy. split.
  - apply Practice3_contain_x. exact Wx.
  - apply Practice3_contain_y. exact Wy.
Qed.

Lemma X9_damped_walls_contain_the_ball_witness :
  0.5 <= x (Practice3.pos
              (Practice3.handleWallCollision dampedCanvas dampedWallBall))
  <= 19.5.
Proof.
  destruct (X9_damped_walls_contain_the_ball dampedCanvas dampedWallBall)
    as (_ & _ & H).
  assert (Wx : Practice3.radius dampedWallBall
               <= Practice3.canvas_width dampedCanvas / 20
                  - Practice3.radius dampedWallBall) by (simpl; lra).
  assert (Wy : Practice3.radius dampedWallBall
               <= Practice3.canvas_height dampedCanvas / 20
                  - Practice3.radius dampedWallBall) by (simpl; lra).
  destruct (H Wx Wy) as (Cx & _). simpl in Cx. lra.
Defined.

(** *** part_000 *)

Ltac walls0 :=
  unfold Part000.handleCollision, Part000.hitGround, Part000.hitRight,
    Part000.hitLeft, Part000.set_ball;
  simpl.

Lemma Part000_hitGround_cases (b : Part000.Ball) :
  Part000.x (Part000.hitGround b) = Part000.x b /\
  Part000.vx (Part000.hitGround b) = Part000.vx b /\
  Part000.radius (Part000.hitGround b) = Part000.radius b /\
  0 <= Part000.y (Part000.hitGround b) /\
  (0 <= Part000.y b -> Part000.hitGround b = b).
Proof. walls0. by_cases; repeat split; auto; try lra; intros; lra. Qed.

Lemma Part000_sides (s : Part000.Scene) (b : Part000.Ball) :
  let b' := Part000.hitRight s (Part000.hitLeft b) in
  Part000.y b' = Part000.y b /\
  Part000.vy b' = Part000.vy b /\
  Part000.radius b' = Part000.radius b /\
  Rabs (Part000.vx b') = Rabs (Part000.vx b) /\
  (0 <= Part000.simWidth s -> 0 <= Part000.x b' <= Part000.simWidth s) /\
  (0 <= Part000.x b <= Part000.simWidth s -> b' = b).
Proof.
  destruct b as [r px py ux uy], s as [sw sh]. walls0.
  by_cases; repeat split; intros; try lra; try reflexivity;
    rewrite ?Rabs_Ropp, ?Ropp_involutive; try reflexivity; try lra.
Qed.

(** X10. In part_000 the boundary resolver puts the centre of the ball
    back between the two side walls (when the width of the world is not
    negative) and on or above the ground, keeps the absolute value of both
    velocity components, and has no ceiling: a ball between the side walls
    and not below the ground is left as it is, however high it is. *)
Theorem X10_no_ceiling_in_part_000 (c : Part000.Core) :
  let b := Part000.ball c in
  let b' := Part000.ball (Part000.handleCollision c) in
  0 <= Part000.y b' /\
  Rabs (Part000.vx b') = Rabs (Part000.vx b) /\
  Rabs (Part000.vy b') = Rabs (Part000.vy b) /\
  Part000.radius b' = Part000.radius b /\
  (0 <= Part000.simWidth (Part000.scene c) ->
   0 <= Part000.x b' <= Part000.simWidth (Part000.scene c)) /\
  (0 <= Part000.x b <= Part000.simWidth (Part000.scene c) ->
   0 <= Part000.y b -> b' = b).
Proof.
  intros b b'. subst b b'. unfold Part000.handleCollision. simpl.
  destruct (Part000_sides (Part000.scene c) (Part000.ball c))
    as (Sy & Svy & Sr & Svx & Sx & Sfix).
  set (b1 := Part000.hitRight (Part000.scene c)
               (Part000.hitLeft (Part000.ball c))) in *.
  destruct (Part000_hitGround_cases b1) as (Gx & Gvx & Gr & Gy & Gfix).
  repeat split.
  - exact Gy.
  - rewrite Gvx. exact Svx.
  - rewrite <- Svy. unfold Part000.hitGround.
    destruct (lt_b _ _); cbn; [apply Rabs_Ropp | reflexivity].
  - rewrite Gr. exact Sr.
  - rewrite Gx. apply Sx. assumption.
  - rewrite Gx. apply Sx. assumption.
  - intros Hx Hy. rewrite Gfix by (rewrite Sy; exact Hy). apply Sfix. exact Hx.
Qed.

Lemma X10_no_ceiling_in_part_000_witness :
  let c := Part000.set_ball inwardCore
             (Part000.mkBall 0.2 5 1000 10 15) in
  Part000.ball (Part000.handleCollision c) = Part000.ball c.
Proof.
  intros c.
  destruct (X10_no_ceiling_in_part_000 c) as (_ & _ & _ & _ & _ & Hfix).
  apply Hfix; simpl; lra.
Defined.

(** *** ch-03-practice/index.js *)

Ltac wallsP :=
  unfold Practice.handleWallCollision, Practice.hitTop, Practice.hitBottom,
    Practice.hitRight, Practice.hitLeft, Practice.set_vel_x,
    Practice.set_vel_y, Practice.set_pos_x, Practice.set_pos_y,
    Practice.set_pos, Practice.set_vel;
  simpl.

Lemma Practice_walls_frame (w : Practice.World) (b : Practice.Ball) :
  Practice.radius (Practice.handleWallCollision w b) = Practice.radius b /\
  Practice.mass (Practice.handleWallCollision w b) = Practice.mass b.
Proof.
  unfold Practice.handleWallCollision, Practice.hitTop, Practice.hitBottom,
    Practice.hitRight, Practice.hitLeft.
  repeat match goal with
         | |- context [if ?c then _ else _] => destruct c
         end; split; reflexivity.
Qed.

Lemma Practice_contain_x (w : Practice.World) (b : Practice.Ball) :
  0 <= x (Practice.size w) ->
  0 <= x (Practice.pos (Practice.handleWallCollision w b))
  <= x (Practice.size w).
Proof.
  intros Hw. unfold Practice.handleWallCollision.
  destruct (Practice_hitTop_frame w
              (Practice.hitBottom (Practice.hitLeft (Practice.hitRight w b))))
    as (-> & _).
  destruct (Practice_hitBottom_frame (Practice.hitLeft (Practice.hitRight w b)))
    as (-> & _).
  destruct b as [r m [px py] [ux uy]], w as [[ww wh] g e]. simpl in Hw.
  wallsP. by_cases.
Qed.

Lemma Practice_contain_y (w : Practice.World) (b : Practice.Ball) :
  0 <= y (Practice.size w) ->
  0 <= y (Practice.pos (Practice.handleWallCollision w b))
  <= y (Practice.size w).
Proof.
  intros Hw. unfold Practice.handleWallCollision.
  destruct (Practice_hitLeft_frame (Practice.hitRight w b)) as (Hp & _).
  destruct (Practice_hitRight_frame w b) as (Hp' & _).
  rewrite Hp' in Hp.
  destruct (Practice.hitLeft (Practice.hitRight w b))
    as [r1 m1 [px1 py1] [ux1 uy1]].
  destruct b as [r m [px py] [ux uy]], w as [[ww wh] g e]. simpl in *. subst.
  wallsP. by_cases.
Qed.

Lemma Practice_walls_speed (w : Practice.World) (b : Practice.Ball) :
  let b' := Practice.handleWallCollision w b in
  Rabs (x (Practice.vel b')) = Rabs (x (Practice.vel b)) /\
  Rabs (y (Practice.vel b')) = Rabs (y (Practice.vel b)).
Proof.
  intros b'. subst b'. unfold Practice.handleWallCollision.
  assert (HL : forall c, Rabs (x (Practice.vel (Practice.hitLeft c)))
                         = Rabs (x (Practice.vel c))).
  { intros c. unfold Practice.hitLeft. destruct (lt_b _ _); cbn;
      [apply Rabs_Ropp | reflexivity]. }
  assert (HR : forall c, Rabs (x (Practice.vel (Practice.hitRight w c)))
                         = Rabs (x (Practice.vel c))).
  { intros c. unfold Practice.hitRight. destruct (gt_b _ _); cbn;
      [apply Rabs_Ropp | reflexivity]. }
  assert (HB : forall c, Rabs (y (Practice.vel (Practice.hitBottom c)))
                         = Rabs (y (Practice.vel c))).
  { intros c. unfold Practice.hitBottom. destruct (lt_b _ _); cbn;
      [apply Rabs_Ropp | reflexivity]. }
  assert (HT : forall c, Rabs (y (Practice.vel (Practice.hitTop w c)))
                         = Rabs (y (Practice.vel c))).
  { intros c. unfold Practice.hitTop. destruct (gt_b _ _); cbn;
      [apply Rabs_Ropp | reflexivity]. }
  split.
  - destruct (Practice_hitTop_frame w
                (Practice.hitBottom (Practice.hitLeft (Practice.hitRight w b))))
      as (_ & ->).
    destruct (Practice_hitBottom_frame
                (Practice.hitLeft (Practice.hitRight w b))) as (_ & ->).
    rewrite HL, HR. reflexivity.
  - rewrite HT, HB.
    destruct (Practice_hitLeft_frame (Practice.hitRight w b)) as (_ & ->).
    destruct (Practice_hitRight_frame w b) as (_ & ->).
    reflexivity.
Qed.

(** X11. One animation frame of the cue game moves the ball by its
    velocity over 1/60 and resolves the walls: the world, the radius and
    the mass of the ball are kept, and so is the absolute value of each
    velocity component (the gravity of the world is never applied and
    nothing slows the ball down); when the sizes of the world are not
    negative the centre of the ball ends inside the world, walls included.
    Of the cue a frame changes the power and the offset only. *)
Theorem X11_frame_keeps_speed (g : Practice.Game) (now : R) :
  let g' := Practice.update g now in
  Practice.world g' = Practice.world g /\
  Practice.radius (Practice.ball g') = Practice.radius (Practice.ball g) /\
  Practice.mass (Practice.ball g') = Practice.mass (Practice.ball g) /\
  Rabs (x (Practice.vel (Practice.ball g')))
  = Rabs (x (Practice.vel (Practice.ball g))) /\
  Rabs (y (Practice.vel (Practice.ball g')))
  = Rabs (y (Practice.vel (Practice.ball g))) /\
  Practice.isCharging (Practice.cue g') = Practice.isCharging (Practice.cue g)
  /\
  Practice.startChargeTime (Practice.cue g')
  = Practice.startChargeTime (Practice.cue g) /\
  Practice.direction (Practice.cue g') = Practice.direction (Practice.cue g) /\
  Practice.angle (Practice.cue g') = Practice.angle (Practice.cue g) /\
  (0 <= x (Practice.size (Practice.world g)) ->
   0 <= y (Practice.size (Practice.world g)) ->
   0 <= x (Practice.pos (Practice.ball g'))
   <= x (Practice.size (Practice.world g)) /\
   0 <= y (Practice.pos (Practice.ball g'))
   <= y (Practice.size (Practice.world g))).
Proof.
  intros g'. subst g'. unfold Practice.update. cbn [Practice.world
    Practice.ball Practice.cue].
  set (b1 := Practice.simulate (Practice.ball g) (1 / 60)).
  destruct (Practice_walls_frame (Practice.world g) b1) as (Er & Em).
  destruct (Practice_walls_speed (Practice.world g) b1) as (Ex & Ey).
  assert (Hcue : forall c : Practice.Cue,
             Practice.isCharging (Practice.updateCharge c now)
             = Practice.isCharging c /\
             Practice.startChargeTime (Practice.updateCharge c now)
             = Practice.startChargeTime c /\
             Practice.direction (Practice.updateCharge c now)
             = Practice.direction c /\
             Practice.angle (Practice.updateCharge c now) = Practice.angle c).
  { intros [p d a ch st sh]. unfold Practice.updateCharge.
    destruct ch; cbn; repeat split. }
  destruct (Hcue (Practice.cue g)) as (C1 & C2 & C3 & C4).
  split; [reflexivity |].
  split; [rewrite Er; reflexivity |].
  split; [rewrite Em; reflexivity |].
  split; [rewrite Ex; reflexivity |].
  split; [rewrite Ey; reflexivity |].
  split; [exact C1 |]. split; [exact C2 |]. split; [exact C3 |].
  split; [exact C4 |].
  intros Hx Hy. split.
  - apply Practice_contain_x. exact Hx.
  - apply Practice_contain_y. exact Hy.
Qed.

Lemma X11_frame_keeps_speed_witness :
  0 <= x (Practice.pos (Practice.ball (Practice.update chargingGame 1500)))
  <= 10.
Proof.
  destruct (X11_frame_keeps_speed chargingGame 1500)
    as (_ & _ & _ & _ & _ & _ & _ & _ & _ & H).
  assert (Hx : 0 <= x (Practice.size (Practice.world chargingGame)))
    by (simpl; lra).
  assert (Hy : 0 <= y (Practice.size (Practice.world chargingGame)))
    by (simpl; lra).
  destruct (H Hx Hy) as (Cx & _). simpl in Cx. exact Cx.
Defined.

End WallsMore.

(** ** The simulation step of ch-03 *)

Section SimulationStep.

Lemma collideWith_frame (later : list Ch03.Ball) :
  forall (b1 : Ch03.Ball) (e : R),
    Ch03.radius (fst (Ch03.collideWith b1 later e)) = Ch03.radius b1 /\
    Ch03.mass (fst (Ch03.collideWith b1 later e)) = Ch03.mass b1 /\
    map Ch03.radius (snd (Ch03.collideWith b1 later e))
    = map Ch03.radius later /\
    map Ch03.mass (snd (Ch03.collideWith b1 later e)) = map Ch03.mass later.
Proof.
  induction later as [| b2 later IH]; intros b1 e.
  - cbn. repeat split.
  - cbn [Ch03.collideWith].
    destruct (frame_ch03 b1 b2 e) as (R1 & R2 & M1 & M2 & _).
    destruct (Ch03.handleBallsCollision b1 b2 e) as [c1 c2].
    cbn [fst snd] in R1, R2, M1, M2.
    specialize (IH c1 e).
    destruct (Ch03.collideWith c1 later e) as [d1 later'].
    cbn [fst snd] in IH |- *.
    destruct IH as (I1 & I2 & I3 & I4).
    repeat split.
    + rewrite I1. exact R1.
    + rewrite I2. exact M1.
    + cbn [map]. rewrite R2, I3. reflexivity.
    + cbn [map]. rewrite M2, I4. reflexivity.
Qed.

Lemma simulateFrom_spec (c : Ch03.Core) (n : nat) :
  forall bs : list Ch03.Ball,
    n = List.length bs ->
    let w := Ch03.worldSize (Ch03.scene c) in
    map Ch03.radius (Ch03.simulateFrom c n bs) = map Ch03.radius bs /\
    map Ch03.mass (Ch03.simulateFrom c n bs) = map Ch03.mass bs /\
    (Forall (fitsWorld w) bs ->
     Forall (insideWalls w) (Ch03.simulateFrom c n bs)).
Proof.
  induction n as [| n IH]; intros bs Hn w.
  - destruct bs; [| discriminate]. cbn. repeat split. intros _. constructor.
  - destruct bs as [| b1 later]; [discriminate |].
    cbn [Ch03.simulateFrom].
    set (b1s := Ch03.simulate b1 (Ch03.timeStep c) (Ch03.gravity c)).
    destruct (collideWith_frame later b1s
                (Ch03.restitution (Ch03.scene c))) as (F1 & F2 & F3 & F4).
    destruct (Ch03.collideWith b1s later (Ch03.restitution (Ch03.scene c)))
      as [b1c later'].
    cbn [fst snd] in F1, F2, F3, F4.
    assert (Hlen : n = List.length later').
    { cbn in Hn. injection Hn as Hn.
      rewrite <- (length_map Ch03.radius later'), F3, length_map. exact Hn. }
    destruct (IH later' Hlen) as (I1 & I2 & I3). fold w in I3.
    destruct (Ch03_walls_frame b1c w) as (Wr & Wm).
    fold w.
    assert (Er : Ch03.radius (Ch03.handleWallsCollision b1c w)
                 = Ch03.radius b1).
    { rewrite Wr, F1. reflexivity. }
    repeat split.
    + cbn [map]. rewrite Er, I1, F3. reflexivity.
    + cbn [map]. rewrite Wm, F2, I2, F4. reflexivity.
    + intros Hfit. inversion Hfit as [| ? ? Hb1 Hlater]; subst.
      constructor.
      * destruct Hb1 as (Hx & Hy).
        assert (Hx' : Ch03.radius b1c <= x w - Ch03.radius b1c)
          by (rewrite F1; exact Hx).
        assert (Hy' : Ch03.radius b1c <= y w - Ch03.radius b1c)
          by (rewrite F1; exact Hy).
        destruct (Ch03_walls_contain b1c w Hx' Hy') as (Cx & Cy).
        unfold insideWalls. rewrite Wr. split; assumption.
      * apply I3.
        clear - Hlater F3. revert later' F3.
        induction Hlater as [| a l Ha Hl IHl]; intros later' F3.
        -- destruct later'; [constructor | discriminate].
        -- destruct later' as [| a' l']; [discriminate |].
           cbn [map] in F3. injection F3 as Ea El.
           constructor; [| apply IHl; exact El].
           unfold fitsWorld in *. rewrite Ea. exact Ha.
Qed.

(** X12. One call of [Core.simulate] of ch-03 keeps the number of balls and
    the radius and the mass of each ball, in their order, and the fields of
    the core and of the scene other than the balls.  When the world is at
    least one diameter wide and high for every ball, every ball lies
    between the four walls after the call: each ball is last touched by its
    own wall test. *)
Theorem X12_step_keeps_balls_inside (c : Ch03.Core) :
  let w := Ch03.worldSize (Ch03.scene c) in
  let bs := Ch03.balls (Ch03.scene c) in
  let c' := Ch03.Core_simulate c in
  let bs' := Ch03.balls (Ch03.scene c') in
  List.length bs' = List.length bs /\
  map Ch03.radius bs' = map Ch03.radius bs /\
  map Ch03.mass bs' = map Ch03.mass bs /\
  Ch03.worldSize (Ch03.scene c') = w /\
  Ch03.restitution (Ch03.scene c') = Ch03.restitution (Ch03.scene c) /\
  Ch03.gravity c' = Ch03.gravity c /\
  Ch03.timeStep c' = Ch03.timeStep c /\
  (Forall (fun b => Ch03.radius b <= x w - Ch03.radius b /\
                    Ch03.radius b <= y w - Ch03.radius b) bs ->
   Forall (fun b =>
             Ch03.radius b <= x (Ch03.pos b) <= x w - Ch03.radius b /\
             Ch03.radius b <= y (Ch03.pos b) <= y w - Ch03.radius b) bs').
Proof.
  intros w bs c' bs'. subst c' bs'. cbn [Ch03.Core_simulate Ch03.scene
    Ch03.set_balls Ch03.balls Ch03.worldSize Ch03.restitution Ch03.gravity
    Ch03.timeStep].
  destruct (simulateFrom_spec c (List.length bs) bs eq_refl) as (I1 & I2 & I3).
  fold bs.
  split; [| split; [exact I1 | split; [exact I2 |]]].
  - rewrite <- (length_map Ch03.radius), I1, length_map. reflexivity.
  - repeat split. exact I3.
Qed.

Lemma X12_step_keeps_balls_inside_witness :
  Forall (insideWalls (mkVector2 10 10))
    (Ch03.balls (Ch03.scene (Ch03.Core_simulate sampleCore))).
Proof.
  destruct (X12_step_keeps_balls_inside sampleCore)
    as (_ & _ & _ & _ & _ & _ & _ & H).
  apply H. repeat constructor; simpl; lra.
Defined.

(** *** The scene the page builds *)

Lemma init_sizes (cw ch ms : R) :
  0 < cw -> 0 < ch -> 0 < ms ->
  let s := Ch03.init cw ch ms in
  0 < Ch03.cScale s /\
  ms <= Ch03.simWidth s /\ ms <= Ch03.simHeight s /\
  Rmin (Ch03.simWidth s) (Ch03.simHeight s) = ms.
Proof.
  intros Hw Hh Hm s. subst s. unfold Ch03.init.
  cbn [Ch03.cScale Ch03.simWidth Ch03.simHeight].
  destruct (Rle_dec cw ch) as [Hle | Hgt].
  - rewrite (Rmin_left cw ch Hle).
    replace (cw / (cw / ms)) with ms by (field; lra).
    assert (Hh' : ms <= ch / (cw / ms)).
    { replace (ch / (cw / ms)) with (ms * (ch / cw)) by (field; lra).
      assert (1 <= ch / cw).
      { apply Rmult_le_reg_r with cw; [lra |].
        replace (ch / cw * cw) with ch by (field; lra). lra. }
      nra. }
    repeat split.
    + apply Rdiv_lt_0_compat; lra.
    + lra.
    + exact Hh'.
    + apply Rmin_left. exact Hh'.
  - assert (Hlt : ch < cw) by lra.
    rewrite (Rmin_right cw ch) by lra.
    replace (ch / (ch / ms)) with ms by (field; lra).
    assert (Hw' : ms <= cw / (ch / ms)).
    { replace (cw / (ch / ms)) with (ms * (cw / ch)) by (field; lra).
      assert (1 <= cw / ch).
      { apply Rmult_le_reg_r with ch; [lra |].
        replace (cw / ch * ch) with cw by (field; lra). lra. }
      nra. }
    repeat split.
    + apply Rdiv_lt_0_compat; lra.
    + exact Hw'.
    + lra.
    + apply Rmin_right. exact Hw'.
Qed.

(** X13. [Scene.init] on a canvas of positive sizes makes the shorter side
    of the world exactly [minScale] long.  With [minScale] at least 0.3 (the
    page passes 2) and every [Math.random()] in [0, 1), [new Scene] holds
    twenty balls, each of radius in [0.05, 0.15), of mass [PI * r * r > 0],
    with its centre in the world and velocity components in [-1, 1), and
    every ball fits the world: the world is more than one diameter wide and
    high. *)
Theorem X13_scene_balls_fit_the_world (cw ch ms : R) (random : nat -> R) :
  0 < cw -> 0 < ch -> 0.3 <= ms ->
  (forall k : nat, 0 <= random k < 1) ->
  let s := Ch03.new_Scene cw ch ms random in
  Rmin (Ch03.simWidth s) (Ch03.simHeight s) = ms /\
  Ch03.worldSize s = mkVector2 (Ch03.simWidth s) (Ch03.simHeight s) /\
  Ch03.restitution s = 1 /\
  List.length (Ch03.balls s) = 20%nat /\
  Forall (fun b =>
            0.05 <= Ch03.radius b < 0.15 /\
            Ch03.mass b = PI * Ch03.radius b * Ch03.radius b /\
            0 < Ch03.mass b /\
            0 <= x (Ch03.pos b) <= Ch03.simWidth s /\
            0 <= y (Ch03.pos b) <= Ch03.simHeight s /\
            - 1 <= x (Ch03.vel b) < 1 /\
            - 1 <= y (Ch03.vel b) < 1 /\
            fitsWorld (Ch03.worldSize s) b) (Ch03.balls s).
Proof.
  intros Hw Hh Hm Hrnd s.
  assert (Hms : 0 < ms) by lra.
  destruct (init_sizes cw ch ms Hw Hh Hms) as (Hc & Sw & Sh & Smin).
  subst s. unfold Ch03.new_Scene, Ch03.setupBalls.
  cbn [Ch03.set_balls Ch03.simWidth Ch03.simHeight Ch03.worldSize
         Ch03.restitution Ch03.balls].
  set (s0 := Ch03.init cw ch ms) in *.
  split; [exact Smin |]. split; [reflexivity |]. split; [reflexivity |].
  split.
  - change (Ch03.balls s0) with (@nil Ch03.Ball). cbn [app].
    rewrite length_map, length_seq. reflexivity.
  - change (Ch03.balls s0) with (@nil Ch03.Ball). cbn [app].
    apply Forall_forall. intros b Hb.
    apply in_map_iff in Hb. destruct Hb as (i & <- & _).
    unfold Ch03.randomBall. cbn [Ch03.radius Ch03.mass Ch03.pos Ch03.vel x y].
    pose proof (Hrnd (5 * i)%nat) as H0.
    pose proof (Hrnd (5 * i + 1)%nat) as H1.
    pose proof (Hrnd (5 * i + 2)%nat) as H2.
    pose proof (Hrnd (5 * i + 3)%nat) as H3.
    pose proof (Hrnd (5 * i + 4)%nat) as H4.
    set (r := 0.05 + random (5 * i)%nat * 0.1).
    assert (Hr : 0.05 <= r < 0.15) by (unfold r; lra).
    split; [exact Hr |]. split; [reflexivity |].
    split.
    { apply Rmult_lt_0_compat; [apply Rmult_lt_0_compat |]; try lra.
      apply PI_RGT_0. }
    split; [split; [apply Rmult_le_pos; lra | nra] |].
    split; [split; [apply Rmult_le_pos; lra | nra] |].
    split; [lra |]. split; [lra |].
    unfold fitsWorld. cbn [Ch03.radius x y].
    change (Ch03.worldSize s0)
      with (mkVector2 (Ch03.simWidth s0) (Ch03.simHeight s0)).
    cbn [x y]. fold r. lra.
Qed.

Lemma X13_scene_balls_fit_the_world_witness :
  List.length (Ch03.balls (Ch03.new_Scene 800 600 2 halves)) = 20%nat /\
  Forall (fitsWorld (Ch03.worldSize (Ch03.new_Scene 800 600 2 halves)))
    (Ch03.balls (Ch03.new_Scene 800 600 2 halves)).
Proof.
  assert (Hw : 0 < 800) by lra.
  assert (Hh : 0 < 600) by lra.
  assert (Hm : 0.3 <= 2) by lra.
  assert (Hr : forall k : nat, 0 <= halves k < 1)
    by (intros k; unfold halves; lra).
  destruct (X13_scene_balls_fit_the_world 800 600 2 halves Hw Hh Hm Hr)
    as (_ & _ & _ & Hlen & Hall).
  split; [exact Hlen |].
  eapply Forall_impl; [| exact Hall].
  intros b Hb. apply Hb.
Defined.

Lemma fits_by_radius (w : Vector2) (bs : list Ch03.Ball) :
  forall bs' : list Ch03.Ball,
    map Ch03.radius bs' = map Ch03.radius bs ->
    Forall (fitsWorld w) bs -> Forall (fitsWorld w) bs'.
Proof.
  induction bs as [| a l IH]; intros bs' E H.
  - destruct bs'; [constructor | discriminate].
  - destruct bs' as [| a' l']; [discriminate |].
    cbn [map] in E. injection E as Ea El.
    inversion H as [| ? ? Ha Hl]; subst.
    constructor; [| apply IH; assumption].
    unfold fitsWorld in *. rewrite Ea. exact Ha.
Qed.

(** What the page-level invariant needs of one step and of the scene. *)
Lemma Core_simulate_keeps_fit (c : Ch03.Core) :
  let w := Ch03.worldSize (Ch03.scene c) in
  let c' := Ch03.Core_simulate c in
  Ch03.worldSize (Ch03.scene c') = w /\
  List.length (Ch03.balls (Ch03.scene c'))
  = List.length (Ch03.balls (Ch03.scene c)) /\
  (Forall (fitsWorld w) (Ch03.balls (Ch03.scene c)) ->
   Forall (fitsWorld w) (Ch03.balls (Ch03.scene c')) /\
   Forall (insideWalls w) (Ch03.balls (Ch03.scene c'))).
Proof.
  intros w c'. subst c'.
  cbn [Ch03.Core_simulate Ch03.scene Ch03.set_balls Ch03.balls
         Ch03.worldSize].
  destruct (simulateFrom_spec c (List.length (Ch03.balls (Ch03.scene c)))
              (Ch03.balls (Ch03.scene c)) eq_refl) as (I1 & _ & I3).
  fold w in I3.
  split; [reflexivity | split].
  - rewrite <- (length_map Ch03.radius), I1, length_map. reflexivity.
  - intros Hfit. split; [| apply I3; exact Hfit].
    eapply fits_by_radius; [exact I1 | exact Hfit].
Qed.

Lemma new_Scene_fits (cw ch ms : R) (random : nat -> R) :
  0 < cw -> 0 < ch -> 0.3 <= ms ->
  (forall k : nat, 0 <= random k < 1) ->
  let s := Ch03.new_Scene cw ch ms random in
  List.length (Ch03.balls s) = 20%nat /\
  Forall (fitsWorld (Ch03.worldSize s)) (Ch03.balls s).
Proof.
  intros Hw Hh Hm Hrnd s.
  assert (Hms : 0 < ms) by lra.
  destruct (init_sizes cw ch ms Hw Hh Hms) as (_ & Sw & Sh & _).
  subst s. unfold Ch03.new_Scene, Ch03.setupBalls.
  cbn [Ch03.set_balls Ch03.worldSize Ch03.balls].
  set (s0 := Ch03.init cw ch ms) in *.
  change (Ch03.balls s0) with (@nil Ch03.Ball). cbn [app].
  split; [rewrite length_map, length_seq; reflexivity |].
  apply Forall_forall. intros b Hb.
  apply in_map_iff in Hb. destruct Hb as (i & <- & _).
  pose proof (Hrnd (5 * i)%nat) as H0.
  unfold fitsWorld, Ch03.randomBall. cbn [Ch03.radius].
  change (Ch03.worldSize s0)
    with (mkVector2 (Ch03.simWidth s0) (Ch03.simHeight s0)).
  cbn [x y]. lra.
Qed.

(** X14. On the page of ch-03 (a canvas of positive sizes, [minScale] at
    least 0.3, every [Math.random()] in [0, 1)), after any positive number
    of simulation steps there are still twenty balls and every one lies
    between the four walls of the world. *)
Theorem X14_page_balls_stay_inside
  (cw ch ms : R) (random : nat -> R) (n : nat) :
  0 < cw -> 0 < ch -> 0.3 <= ms ->
  (forall k : nat, 0 <= random k < 1) ->
  let c0 := Ch03.new_Core (Ch03.new_Scene cw ch ms random) in
  let c := Nat.iter (S n) Ch03.Core_simulate c0 in
  Ch03.worldSize (Ch03.scene c) = Ch03.worldSize (Ch03.scene c0) /\
  List.length (Ch03.balls (Ch03.scene c)) = 20%nat /\
  Forall (insideWalls (Ch03.worldSize (Ch03.scene c)))
    (Ch03.balls (Ch03.scene c)).
Proof.
  intros Hw Hh Hm Hrnd c0 c.
  destruct (new_Scene_fits cw ch ms random Hw Hh Hm Hrnd) as (Hlen & Hfit0).
  set (w := Ch03.worldSize (Ch03.scene c0)).
  change (Forall (fitsWorld w) (Ch03.balls (Ch03.scene c0))) in Hfit0.
  change (List.length (Ch03.balls (Ch03.scene c0)) = 20%nat) in Hlen.
  assert (Hinv : forall k : nat,
             let ck := Nat.iter k Ch03.Core_simulate c0 in
             Ch03.worldSize (Ch03.scene ck) = w /\
             List.length (Ch03.balls (Ch03.scene ck)) = 20%nat /\
             Forall (fitsWorld w) (Ch03.balls (Ch03.scene ck))).
  { induction k as [| k IH].
    - cbn. split; [reflexivity | split; [exact Hlen | exact Hfit0]].
    - cbv zeta in IH |- *.
      change (Nat.iter (S k) Ch03.Core_simulate c0)
        with (Ch03.Core_simulate (Nat.iter k Ch03.Core_simulate c0)).
      set (ck := Nat.iter k Ch03.Core_simulate c0) in *.
      destruct IH as (Ew & El & Ef).
      destruct (Core_simulate_keeps_fit ck) as (S4 & S1 & S2).
      rewrite Ew in S2. destruct (S2 Ef) as (Sf & _).
      split; [rewrite S4; exact Ew |].
      split; [rewrite S1; exact El | exact Sf]. }
  subst c.
  change (Nat.iter (S n) Ch03.Core_simulate c0)
    with (Ch03.Core_simulate (Nat.iter n Ch03.Core_simulate c0)).
  destruct (Hinv n) as (Ew & El & Ef).
  set (cn := Nat.iter n Ch03.Core_simulate c0) in *.
  destruct (Core_simulate_keeps_fit cn) as (S4 & S1 & S2).
  rewrite Ew in S2. destruct (S2 Ef) as (_ & Sin).
  split; [rewrite S4; exact Ew |].
  split; [rewrite S1; exact El |].
  rewrite S4, Ew. exact Sin.
Qed.

Lemma X14_page_balls_stay_inside_witness :
  List.length
    (Ch03.balls
       (Ch03.scene
          (Nat.iter 3 Ch03.Core_simulate
             (Ch03.new_Core (Ch03.new_Scene 800 600 2 halves))))) = 20%nat.
Proof.
  assert (Hw : 0 < 800) by lra.
  assert (Hh : 0 < 600) by lra.
  assert (Hm : 0.3 <= 2) by lra.
  assert (Hr : forall k : nat, 0 <= halves k < 1)
    by (intros k; unfold halves; lra).
  exact (proj1 (proj2 (X14_page_balls_stay_inside 800 600 2 halves 2
                         Hw Hh Hm Hr))).
Defined.

End SimulationStep.

(** ** The integrator over several steps *)

Section Flight.

(** X15. [n] integration steps in a row with the same [dt] and gravity [g]
    and no collision in between add [n * dt * g] to the velocity and
    [n * dt * vel + n * (n + 1) / 2 * dt^2 * g] to the position, in ch-03
    and in part_000: the factor [n * (n + 1) / 2] is the one of the
    velocity-first order. *)
Theorem X15_free_flight_closed_form :
  (forall (b : Ch03.Ball) (dt : R) (g : Vector2) (n : nat),
      let bn := Nat.iter n (fun c => Ch03.simulate c dt g) b in
      x (Ch03.vel bn) = x (Ch03.vel b) + INR n * dt * x g /\
      y (Ch03.vel bn) = y (Ch03.vel b) + INR n * dt * y g /\
      x (Ch03.pos bn)
      = x (Ch03.pos b) + INR n * dt * x (Ch03.vel b)
        + INR n * (INR n + 1) / 2 * (dt * dt) * x g /\
      y (Ch03.pos bn)
      = y (Ch03.pos b) + INR n * dt * y (Ch03.vel b)
        + INR n * (INR n + 1) / 2 * (dt * dt) * y g) /\
  (forall (b : Part000.Ball) (gx gy dt : R) (n : nat),
      let bn :=
        Nat.iter n
          (fun c => Part000.move (Part000.applyGravity c gx gy dt) dt) b in
      Part000.vx bn = Part000.vx b + INR n * dt * gx /\
      Part000.vy bn = Part000.vy b + INR n * dt * gy /\
      Part000.x bn
      = Part000.x b + INR n * dt * Part000.vx b
        + INR n * (INR n + 1) / 2 * (dt * dt) * gx /\
      Part000.y bn
      = Part000.y b + INR n * dt * Part000.vy b
        + INR n * (INR n + 1) / 2 * (dt * dt) * gy).
Proof.
  split.
  { intros b dt g n.
    induction n as [| n IH].
    - cbn. repeat split; lra.
    - cbv zeta in IH |- *.
      change (Nat.iter (S n) (fun c => Ch03.simulate c dt g) b)
        with (Ch03.simulate
              (Nat.iter n (fun c => Ch03.simulate c dt g) b) dt g).
      set (bn := Nat.iter n (fun c => Ch03.simulate c dt g) b) in *.
      destruct IH as (Vx & Vy & Px & Py).
      rewrite S_INR.
      unfold Ch03.simulate, Ch03.set_pos, Ch03.set_vel, Ch03.add.
      cbn [Ch03.vel Ch03.pos x y].
      rewrite Vx, Vy, Px, Py. repeat split; field. }
  { intros b gx gy dt n.
    induction n as [| n IH].
    - cbn. repeat split; lra.
    - cbv zeta in IH |- *.
      change (Nat.iter (S n)
                (fun c => Part000.move (Part000.applyGravity c gx gy dt) dt)
              b)
        with (Part000.move
                (Part000.applyGravity
                   (Nat.iter n
                      (fun c =>
                         Part000.move (Part000.applyGravity c gx gy dt) dt)
                    b)
                   gx gy dt) dt).
      set (bn := Nat.iter n _ b) in *.
      destruct IH as (Vx & Vy & Px & Py).
      rewrite S_INR. unfold Part000.move, Part000.applyGravity.
      cbn [Part000.vx Part000.vy Part000.x Part000.y].
      rewrite Vx, Vy, Px, Py. repeat split; field. }
Qed.

(** *** The height of the ball of part_000 *)

(** One step of [Core.simulate] under a downward gravity [- G]: the ball is
    not below the ground afterwards, and the quantity
    [y + vy^2 / (2 G) - vy * dt / 2] does not grow. *)
Lemma flight_step (c : Part000.Core) (G : R) :
  Part000.gravity_y c = - G -> 0 < G -> 0 < Part000.timeStep c ->
  0 <= Part000.y (Part000.ball c) ->
  let dt := Part000.timeStep c in
  let b := Part000.ball c in
  let c' := Part000.simulate c in
  let b' := Part000.ball c' in
  Part000.gravity_x c' = Part000.gravity_x c /\
  Part000.gravity_y c' = Part000.gravity_y c /\
  Part000.timeStep c' = Part000.timeStep c /\
  Part000.scene c' = Part000.scene c /\
  0 <= Part000.y b' /\
  Part000.y b' + Part000.vy b' * Part000.vy b' / (2 * G)
  - Part000.vy b' * dt / 2
  <= Part000.y b + Part000.vy b * Part000.vy b / (2 * G)
     - Part000.vy b * dt / 2.
Proof.
  intros HG HGpos Hdt Hy dt b c' b'.
  subst c' b'. unfold Part000.simulate.
  unfold Part000.handleCollision.
  cbn [Part000.set_ball Part000.ball Part000.scene Part000.gravity_x
         Part000.gravity_y Part000.timeStep].
  fold dt b. rewrite HG.
  set (b1 := Part000.move
               (Part000.applyGravity b (Part000.gravity_x c) (- G) dt) dt).
  destruct (Part000_sides (Part000.scene c) b1) as (Sy & Svy & _).
  set (b2 := Part000.hitRight (Part000.scene c) (Part000.hitLeft b1)) in *.
  assert (V1 : Part000.vy b1 = Part000.vy b - G * dt)
    by (unfold b1, Part000.move, Part000.applyGravity; cbn; ring).
  assert (Y1 : Part000.y b1 = Part000.y b + Part000.vy b1 * dt)
    by (unfold b1, Part000.move, Part000.applyGravity; cbn; ring).
  assert (Efree :
            Part000.y b1 + Part000.vy b1 * Part000.vy b1 / (2 * G)
            - Part000.vy b1 * dt / 2
            = Part000.y b + Part000.vy b * Part000.vy b / (2 * G)
              - Part000.vy b * dt / 2).
  { rewrite Y1, V1. field. lra. }
  repeat split; try reflexivity.
  - unfold Part000.hitGround. unfold lt_b.
    destruct (Rlt_dec (Part000.y b2) 0); cbn; lra.
  - rewrite <- Efree, <- Sy, <- Svy.
    unfold Part000.hitGround. unfold lt_b.
    destruct (Rlt_dec (Part000.y b2) 0) as [Hneg | Hpos];
      cbn [Part000.y Part000.vy].
    + assert (Hd : Part000.y b2 - Part000.vy b2 * dt = Part000.y b)
        by (rewrite Sy, Svy, Y1; ring).
      change (0 <= Part000.y b) in Hy.
      assert (E : Part000.y b2 + Part000.vy b2 * Part000.vy b2 / (2 * G)
                  - Part000.vy b2 * dt / 2
                  - (0 + - Part000.vy b2 * - Part000.vy b2 / (2 * G)
                     - - Part000.vy b2 * dt / 2)
                  = Part000.y b2 - Part000.vy b2 * dt) by (field; lra).
      lra.
    + lra.
Qed.

Lemma height_bound (G dt yb vyb : R) :
  0 < G ->
  yb <= (yb + vyb * vyb / (2 * G) - vyb * dt / 2) + G * (dt * dt) / 8.
Proof.
  intros HG.
  assert (E : (yb + vyb * vyb / (2 * G) - vyb * dt / 2) + G * (dt * dt) / 8
              - yb
              = (vyb - G * dt / 2) * (vyb - G * dt / 2) / (2 * G))
    by (field; lra).
  assert (0 <= (vyb - G * dt / 2) * (vyb - G * dt / 2) / (2 * G)).
  { apply Rmult_le_pos.
    - replace ((vyb - G * dt / 2) * (vyb - G * dt / 2))
        with ((vyb - G * dt / 2) * (vyb - G * dt / 2) + 0 * 0) by ring.
      apply square_sum_nonneg.
    - apply Rlt_le, Rinv_0_lt_compat. lra. }
  lra.
Qed.

Lemma flight_invariant (c : Part000.Core) (G : R) (n : nat) :
  Part000.gravity_y c = - G -> 0 < G -> 0 < Part000.timeStep c ->
  0 <= Part000.y (Part000.ball c) ->
  let dt := Part000.timeStep c in
  let b := Part000.ball c in
  let cn := Nat.iter n Part000.simulate c in
  let bn := Part000.ball cn in
  Part000.gravity_y cn = - G /\
  Part000.timeStep cn = dt /\
  Part000.scene cn = Part000.scene c /\
  0 <= Part000.y bn /\
  Part000.y bn + Part000.vy bn * Part000.vy bn / (2 * G)
  - Part000.vy bn * dt / 2
  <= Part000.y b + Part000.vy b * Part000.vy b / (2 * G)
     - Part000.vy b * dt / 2.
Proof.
  intros HG HGpos Hdt Hy dt b. induction n as [| n IH].
  - cbn. fold b. repeat split; try assumption; lra.
  - cbv zeta in IH |- *.
    change (Nat.iter (S n) Part000.simulate c)
      with (Part000.simulate (Nat.iter n Part000.simulate c)).
    set (cn := Nat.iter n Part000.simulate c) in *.
    destruct IH as (I1 & I2 & I3 & I4 & I5).
    assert (Hdtn : 0 < Part000.timeStep cn) by (rewrite I2; exact Hdt).
    destruct (flight_step cn G I1 HGpos Hdtn I4)
      as (_ & S2 & S3 & S4 & S5 & S6).
    rewrite I2 in S6. fold dt in S6.
    repeat split.
    + rewrite S2. exact I1.
    + rewrite S3. exact I2.
    + rewrite S4. exact I3.
    + exact S5.
    + fold dt. lra.
Qed.

(** X16. In part_000, under a downward gravity [- G] and a positive time
    step [dt], a ball that starts on or above the ground is never below the
    ground after a step, and after any number of steps, bounces on the
    ground and on the side walls included, its height is at most
    [y0 + vy0^2 / (2 G) - vy0 * dt / 2 + G * dt^2 / 8]: the bounces never
    take it higher. *)
Theorem X16_height_never_grows (c : Part000.Core) (G : R) (n : nat) :
  Part000.gravity_y c = - G -> 0 < G -> 0 < Part000.timeStep c ->
  0 <= Part000.y (Part000.ball c) ->
  let dt := Part000.timeStep c in
  let b := Part000.ball c in
  let bn := Part000.ball (Nat.iter n Part000.simulate c) in
  0 <= Part000.y bn /\
  Part000.y bn
  <= Part000.y b + Part000.vy b * Part000.vy b / (2 * G)
     - Part000.vy b * dt / 2 + G * (dt * dt) / 8.
Proof.
  intros HG HGpos Hdt Hy dt b bn.
  destruct (flight_invariant c G n HG HGpos Hdt Hy) as (_ & _ & _ & I4 & I5).
  fold dt b bn in I4, I5.
  split; [exact I4 |].
  pose proof (height_bound G dt (Part000.y bn) (Part000.vy bn) HGpos). lra.
Qed.

Lemma X16_height_never_grows_witness :
  Part000.y (Part000.ball (Nat.iter 100 Part000.simulate inwardCore))
  <= 3 + 15 * 15 / (2 * 10) - 15 * (1 / 60) / 2
     + 10 * (1 / 60 * (1 / 60)) / 8.
Proof.
  assert (HG : Part000.gravity_y inwardCore = - 10) by reflexivity.
  assert (HGpos : 0 < 10) by lra.
  assert (Hdt : 0 < Part000.timeStep inwardCore) by (simpl; lra).
  assert (Hy : 0 <= Part000.y (Part000.ball inwardCore)) by (simpl; lra).
  exact (proj2 (X16_height_never_grows inwardCore 10 100 HG HGpos Hdt Hy)).
Defined.

(** X17. The comment of [Core.handleCollision] is right about the page of
    part_000: on a canvas of positive sizes, where the world is at least 20
    high, the ball thrown from (0.2, 0.2) with velocity (10, 15) under
    gravity -10 stays below 11.33 at every step and never reaches the
    upper boundary, for which there is no test. *)
Theorem X17_page_ball_below_ceiling (cw ch : R) (n : nat) :
  0 < cw -> 0 < ch ->
  let cn := Nat.iter n Part000.simulate (Part000.pageCore cw ch) in
  20 <= Part000.simHeight (Part000.scene cn) /\
  0 <= Part000.y (Part000.ball cn) <= 11.33 /\
  Part000.y (Part000.ball cn) < Part000.simHeight (Part000.scene cn).
Proof.
  intros Hw Hh cn.
  assert (HG : Part000.gravity_y (Part000.pageCore cw ch) = - 10)
    by reflexivity.
  assert (HGpos : 0 < 10) by lra.
  assert (Hdt : 0 < Part000.timeStep (Part000.pageCore cw ch))
    by (simpl; lra).
  assert (Hy : 0 <= Part000.y (Part000.ball (Part000.pageCore cw ch)))
    by (simpl; lra).
  destruct (flight_invariant (Part000.pageCore cw ch) 10 n HG HGpos Hdt Hy)
    as (_ & _ & Hs & I4 & I5).
  fold cn in Hs, I4, I5.
  pose proof (height_bound 10 (Part000.timeStep (Part000.pageCore cw ch))
                (Part000.y (Part000.ball cn)) (Part000.vy (Part000.ball cn))
                HGpos) as Hb.
  assert (Hsh : 20 <= Part000.simHeight (Part000.scene cn)).
  { rewrite Hs. unfold Part000.pageCore, Part000.new_Core, Part000.init.
    cbn [Part000.scene Part000.simHeight].
    destruct (Rle_dec cw ch) as [Hle | Hgt].
    - rewrite (Rmin_left cw ch Hle).
      replace (ch / (cw / 20)) with (20 * (ch / cw)) by (field; lra).
      assert (1 <= ch / cw).
      { apply Rmult_le_reg_r with cw; [lra |].
        replace (ch / cw * cw) with ch by (field; lra). lra. }
      lra.
    - rewrite (Rmin_right cw ch) by lra.
      replace (ch / (ch / 20)) with 20 by (field; lra). lra. }
  cbn [Part000.pageCore Part000.new_Core Part000.timeStep Part000.ball
         Part000.pageBall Part000.y Part000.vy] in I5, Hb.
  split; [exact Hsh |].
  assert (Part000.y (Part000.ball cn) <= 11.33).
  { unfold Part000.pageCore, Part000.new_Core, Part000.pageBall in I5, Hb.
    cbn in I5, Hb. lra. }
  split; [split; [exact I4 | assumption] | lra].
Qed.

Lemma X17_page_ball_below_ceiling_witness :
  Part000.y (Part000.ball
               (Nat.iter 1000 Part000.simulate (Part000.pageCore 800 600)))
  <= 11.33.
Proof.
  assert (Hw : 0 < 800) by lra.
  assert (Hh : 0 < 600) by lra.
  exact (proj2 (proj1 (proj2 (X17_page_ball_below_ceiling 800 600 1000
                                Hw Hh)))).
Defined.

End Flight.

(** ** The cue and the game *)

Section CueGame.

Import Practice.

Lemma getCurveValue_at_0 (maxValue minValue : R) :
  getCurveValue maxValue minValue 0 = minValue.
Proof.
  rewrite getCurveValue_eq. replace (- 3 * 0) with 0 by ring.
  rewrite exp_0. ring.
Qed.

Lemma getCurveValue_before_0 (maxValue minValue a : R) :
  minValue < maxValue -> a < 0 ->
  getCurveValue maxValue minValue a < minValue.
Proof.
  intros Hm Ha. rewrite getCurveValue_eq.
  assert (He : 1 < exp (- 3 * a)).
  { rewrite <- exp_0. apply exp_increasing. lra. }
  assert (0 < (maxValue - minValue) * (exp (- 3 * a) - 1))
    by (apply Rmult_lt_0_compat; lra).
  lra.
Qed.

(** X18. While the cue is charging, an update at a time not before the
    start of the charge gives a power in [MIN_POWER, MAX_POWER) = [10, 100)
    and an offset in [MIN_SHIFT, MAX_SHIFT) = [0, 30); an update at a time
    before the start, as after the clock was set back, gives a power below
    [MIN_POWER] and a negative offset. *)
Theorem X18_charge_within_bounds (c : Cue) (now : R) :
  isCharging c = true ->
  (startChargeTime c <= now ->
   MIN_POWER <= power (updateCharge c now) < MAX_POWER /\
   MIN_SHIFT <= shift (updateCharge c now) < MAX_SHIFT) /\
  (now < startChargeTime c ->
   power (updateCharge c now) < MIN_POWER /\
   shift (updateCharge c now) < MIN_SHIFT).
Proof.
  intros Hc. rewrite (updateCharge_charging c now Hc). cbn [power shift].
  set (t := Rmin ((now - startChargeTime c) / CHARGE_TIME) 1).
  assert (HP : MIN_POWER < MAX_POWER) by (unfold MIN_POWER, MAX_POWER; lra).
  assert (HS : MIN_SHIFT < MAX_SHIFT) by (unfold MIN_SHIFT, MAX_SHIFT; lra).
  split.
  - intros Hnow.
    assert (Ht : 0 <= t).
    { unfold t. apply Rmin_glb; [| lra].
      unfold CHARGE_TIME. apply Rmult_le_pos; lra. }
    repeat split.
    + rewrite <- (getCurveValue_at_0 MAX_POWER MIN_POWER) at 1.
      apply getCurveValue_mono; lra.
    + apply getCurveValue_below_max. exact HP.
    + rewrite <- (getCurveValue_at_0 MAX_SHIFT MIN_SHIFT) at 1.
      apply getCurveValue_mono; lra.
    + apply getCurveValue_below_max. exact HS.
  - intros Hnow.
    assert (Ht : t < 0).
    { unfold t.
      apply Rle_lt_trans with ((now - startChargeTime c) / CHARGE_TIME).
      - apply Rmin_l.
      - unfold CHARGE_TIME.
        assert (0 < (startChargeTime c - now) / 2000)
          by (apply Rdiv_lt_0_compat; lra).
        lra. }
    split; apply getCurveValue_before_0; assumption.
Qed.

Lemma X18_charge_within_bounds_witness :
  MIN_POWER <= power (updateCharge chargingCue 1500) < MAX_POWER /\
  power (updateCharge chargingCue 900) < MIN_POWER.
Proof.
  assert (Hc : isCharging chargingCue = true) by reflexivity.
  destruct (X18_charge_within_bounds chargingCue 1500 Hc) as (Hin & _).
  destruct (X18_charge_within_bounds chargingCue 900 Hc) as (_ & Hout).
  split.
  - apply Hin. simpl. lra.
  - apply Hout. simpl. lra.
Defined.

Lemma release_idle (c : Cue) (b : Ball) :
  isCharging c = false -> release c b = (c, b).
Proof. intros H. unfold release. rewrite H. reflexivity. Qed.

Lemma release_charging (c : Cue) (b : Ball) :
  isCharging c = true ->
  release c b =
  (reset c,
   set_vel b
     (add (vel b) (direction c)
        (- (PI * 0.5 * 0.5 * 2 * (power c / 2) / mass b)))).
Proof. intros H. unfold release. rewrite H. reflexivity. Qed.

(** X19. [release] has an effect only while the cue is charging: on an idle
    cue it returns the cue and the ball as they are, so a second release in
    a row changes nothing.  On a charging cue and a ball of nonzero mass it
    keeps the position, radius and mass of the ball and subtracts from its
    velocity the aim direction times [PI * power / (4 * mass)]; for a ball
    of radius 0.5 and mass [PI * 0.5 * 0.5], as the game builds it, that
    factor is the power itself. *)
Theorem X19_release_launches_once (c : Cue) (b : Ball) :
  (isCharging c = false -> release c b = (c, b)) /\
  release (fst (release c b)) (snd (release c b)) = release c b /\
  (isCharging c = true -> mass b <> 0 ->
   let b' := snd (release c b) in
   pos b' = pos b /\ radius b' = radius b /\ mass b' = mass b /\
   x (vel b') = x (vel b) - PI * power c / (4 * mass b) * x (direction c) /\
   y (vel b') = y (vel b) - PI * power c / (4 * mass b) * y (direction c) /\
   (mass b = PI * 0.5 * 0.5 ->
    x (vel b') = x (vel b) - power c * x (direction c) /\
    y (vel b') = y (vel b) - power c * y (direction c))).
Proof.
  split; [apply release_idle | split].
  - destruct (isCharging c) eqn:Hc.
    + rewrite (release_charging c b Hc). cbn [fst snd].
      apply release_idle. reflexivity.
    + rewrite (release_idle c b Hc). cbn [fst snd].
      apply release_idle. exact Hc.
  - intros Hc Hm b'. subst b'. rewrite (release_charging c b Hc).
    cbn [snd]. unfold set_vel, add. cbn [pos radius mass vel x y].
    split; [reflexivity |]. split; [reflexivity |]. split; [reflexivity |].
    replace 0.5 with (1 / 2) by lra.
    split; [field; exact Hm |]. split; [field; exact Hm |].
    intros Em. rewrite Em. pose proof PI_RGT_0.
    split; field; lra.
Qed.

Lemma X19_release_launches_once_witness :
  release idleCue cueBall = (idleCue, cueBall) /\
  x (vel (snd (release chargingCue cueBall))) = - 55.
Proof.
  destruct (X19_release_launches_once idleCue cueBall) as (Hidle & _).
  destruct (X19_release_launches_once chargingCue cueBall) as (_ & _ & Hgo).
  split; [apply Hidle; reflexivity |].
  assert (Hc : isCharging chargingCue = true) by reflexivity.
  assert (Hm : mass cueBall <> 0) by (pose proof PI_RGT_0; simpl; lra).
  destruct (Hgo Hc Hm) as (_ & _ & _ & _ & _ & Hgame).
  destruct (Hgame eq_refl) as (Ex & _). rewrite Ex. simpl. lra.
Defined.

(** *** The game over a sequence of events *)

(** What every handler keeps: the world, the radius and the mass of the
    ball, and, while the cue is idle, a power and a start time of 0. *)
Lemma dispatch_keeps (r : Renderer) (w : World) (g : Game) (e : Event) :
  world g = w /\
  radius (ball g) = 0.5 /\
  mass (ball g) = PI * 0.5 * 0.5 /\
  (isCharging (cue g) = false ->
   power (cue g) = 0 /\ startChargeTime (cue g) = 0) ->
  world (dispatch r g e) = w /\
  radius (ball (dispatch r g e)) = 0.5 /\
  mass (ball (dispatch r g e)) = PI * 0.5 * 0.5 /\
  (isCharging (cue (dispatch r g e)) = false ->
   power (cue (dispatch r g e)) = 0 /\
   startChargeTime (cue (dispatch r g e)) = 0).
Proof.
  intros (Hw & Hr & Hm & Hidle).
  destruct g as [gw gb [p dir a ch st sh]].
  cbn [world ball cue isCharging power startChargeTime] in *.
  destruct e as [ex ey rx ry | code now | code | now]; cbn [dispatch].
  - unfold handleMouseMove, updateDirection. cbn. auto.
  - unfold handleKeyDown. cbn [cue isCharging].
    destruct (String.eqb code "Space" && negb ch); cbn; auto.
    repeat split; auto; discriminate.
  - unfold handleKeyUp. destruct (String.eqb code "Space"); cbn; auto.
    unfold release. cbn [isCharging]. destruct ch; cbn; auto.
  - unfold update. cbn [world ball cue].
    destruct (Practice_walls_frame gw (simulate gb (1 / 60))) as (Er & Em).
    rewrite Er, Em. cbn [simulate set_pos radius mass].
    unfold updateCharge. cbn [isCharging]. destruct ch; cbn; auto.
    repeat split; auto; discriminate.
Qed.

Lemma run_keeps (r : Renderer) (w : World) (es : list Event) :
  forall g : Game,
    world g = w /\
    radius (ball g) = 0.5 /\
    mass (ball g) = PI * 0.5 * 0.5 /\
    (isCharging (cue g) = false ->
     power (cue g) = 0 /\ startChargeTime (cue g) = 0) ->
    world (run r g es) = w /\
    radius (ball (run r g es)) = 0.5 /\
    mass (ball (run r g es)) = PI * 0.5 * 0.5 /\
    (isCharging (cue (run r g es)) = false ->
     power (cue (run r g es)) = 0 /\
     startChargeTime (cue (run r g es)) = 0).
Proof.
  induction es as [| e es IH]; intros g H.
  - exact H.
  - cbn [run fold_left]. apply (IH (dispatch r g e)).
    apply dispatch_keeps. exact H.
Qed.

Lemma new_Game_keeps (r : Renderer) (random1 random2 now : R) :
  let g := new_Game r random1 random2 now in
  radius (ball g) = 0.5 /\
  mass (ball g) = PI * 0.5 * 0.5 /\
  (isCharging (cue g) = false ->
   power (cue g) = 0 /\ startChargeTime (cue g) = 0).
Proof.
  intros g. subst g. unfold new_Game, update. cbn [world ball cue].
  set (w := new_World _ _).
  destruct (Practice_walls_frame w (simulate (initBall w random1 random2)
                                      (1 / 60))) as (Er & Em).
  rewrite Er, Em. cbn. auto.
Qed.

Lemma tap_keeps_ball (r : Renderer) (g : Game) (t : R) :
  isCharging (cue g) = false -> power (cue g) = 0 ->
  let g' := run r g [KeyDown "Space" t; KeyUp "Space"] in
  ball g' = ball g /\
  isCharging (cue g') = false /\ power (cue g') = 0.
Proof.
  intros Hc Hp g'. subst g'.
  destruct g as [gw [br bm bp [bvx bvy]] [p dir a ch st sh]].
  cbn [cue isCharging power] in Hc, Hp. subst ch p.
  cbn. repeat split.
  unfold set_vel, add. cbn. f_equal. f_equal; unfold Rdiv; ring.
Qed.

(** X20. From the game the constructor builds, after any sequence of mouse
    moves, key presses, key releases and animation frames: the world is the
    one the game started with, the ball still has radius 0.5 and mass
    [PI * 0.5 * 0.5], and whenever the cue is idle its power and its start
    time are 0.  So pressing and releasing Space with no animation frame in
    between leaves the ball exactly as it was: a launch needs a frame of
    charging. *)
Theorem X20_idle_cue_has_no_power
  (r : Renderer) (random1 random2 now0 : R) (es : list Event) :
  let g0 := new_Game r random1 random2 now0 in
  let g := run r g0 es in
  world g = world g0 /\
  radius (ball g) = 0.5 /\
  mass (ball g) = PI * 0.5 * 0.5 /\
  (isCharging (cue g) = false ->
   power (cue g) = 0 /\
   startChargeTime (cue g) = 0 /\
   forall t : R,
     let g' := run r g [KeyDown "Space" t; KeyUp "Space"] in
     ball g' = ball g /\
     isCharging (cue g') = false /\ power (cue g') = 0).
Proof.
  intros g0 g.
  destruct (new_Game_keeps r random1 random2 now0) as (H1 & H2 & H3).
  fold g0 in H1, H2, H3.
  destruct (run_keeps r (world g0) es g0) as (K0 & K1 & K2 & K3).
  { split; [reflexivity | split; [exact H1 | split; [exact H2 | exact H3]]]. }
  fold g in K0, K1, K2, K3.
  split; [exact K0 | split; [exact K1 | split; [exact K2 |]]].
  intros Hc. destruct (K3 Hc) as (Kp & Ks).
  split; [exact Kp | split; [exact Ks |]].
  intros t. apply tap_keeps_ball; assumption.
Qed.

Lemma X20_idle_cue_has_no_power_witness :
  let r := new_Renderer 820 700 in
  let g := run r (new_Game r 0.5 0.5 0)
             [MouseMove 10 10 0 0; KeyDown "Space" 100; Frame 116;
              KeyUp "Space"; Frame 132] in
  ball (run r g [KeyDown "Space" 200; KeyUp "Space"]) = ball g.
Proof.
  intros r g.
  destruct (X20_idle_cue_has_no_power r 0.5 0.5 0
              [MouseMove 10 10 0 0; KeyDown "Space" 100; Frame 116;
               KeyUp "Space"; Frame 132]) as (_ & _ & _ & H).
  fold g in H.
  assert (Hc : isCharging (cue g) = false) by reflexivity.
  destruct (H Hc) as (_ & _ & Htap).
  exact (proj1 (Htap 200)).
Defined.

(** X21. Holding Space from time [t0], with one animation frame at time
    [t1] before the key is released, launches the ball of the game: the
    release subtracts from the velocity the ball has after the frame the
    aim direction times the power charged, which is the value of the charge
    curve at [t1 - t0]; the cue is idle again, with power 0. *)
Theorem X21_launch_speed_is_the_power
  (r : Renderer) (g : Game) (t0 t1 : R) :
  isCharging (cue g) = false ->
  mass (ball g) = PI * 0.5 * 0.5 ->
  let P := getCurveValue MAX_POWER MIN_POWER
             (Rmin ((t1 - t0) / CHARGE_TIME) 1) in
  let gf := run r g [KeyDown "Space" t0; Frame t1] in
  let g' := run r g [KeyDown "Space" t0; Frame t1; KeyUp "Space"] in
  power (cue gf) = P /\
  pos (ball g') = pos (ball gf) /\
  x (vel (ball g')) = x (vel (ball gf)) - P * x (direction (cue g)) /\
  y (vel (ball g')) = y (vel (ball gf)) - P * y (direction (cue g)) /\
  isCharging (cue g') = false /\ power (cue g') = 0.
Proof.
  intros Hc Hm P gf g'.
  destruct g as [gw gb [p dir a ch st sh]].
  cbn [cue isCharging ball direction] in *. subst ch.
  set (bf := handleWallCollision gw (simulate gb (1 / 60))).
  assert (Ef : gf =
               {| world := gw; ball := bf;
                  cue := {| power := P; direction := dir; angle := a;
                            isCharging := true; startChargeTime := t0;
                            shift := getCurveValue MAX_SHIFT MIN_SHIFT
                                       (Rmin ((t1 - t0) / CHARGE_TIME) 1) |}
               |}) by reflexivity.
  assert (Eg : g' = handleKeyUp gf "Space") by reflexivity.
  rewrite Eg, Ef. clear Eg Ef gf g'.
  unfold handleKeyUp. change (String.eqb "Space" "Space") with true.
  cbv iota. cbn [cue ball world].
  rewrite release_charging by reflexivity.
  cbn [cue ball power isCharging reset direction].
  destruct (Practice_walls_frame gw (simulate gb (1 / 60))) as (_ & Em).
  fold bf in Em. cbn [simulate set_pos mass] in Em.
  split; [reflexivity |].
  unfold set_vel, add. cbn [pos vel x y].
  split; [reflexivity |].
  rewrite Em, Hm. pose proof PI_RGT_0.
  replace 0.5 with (1 / 2) by lra.
  split; [field; lra |]. split; [field; lra |].
  split; reflexivity.
Qed.

Lemma X21_launch_speed_is_the_power_witness :
  let r := new_Renderer 820 700 in
  power (cue (run r idleGame [KeyDown "Space" 0; Frame 5000]))
  = getCurveValue MAX_POWER MIN_POWER (Rmin ((5000 - 0) / CHARGE_TIME) 1).
Proof.
  intros r.
  assert (Hc : isCharging (cue idleGame) = false) by reflexivity.
  assert (Hm : mass (ball idleGame) = PI * 0.5 * 0.5) by reflexivity.
  exact (proj1 (X21_launch_speed_is_the_power r idleGame 0 5000 Hc Hm)).
Defined.

(** *** Aiming *)

Lemma length_zero (v : Vector2) : length v = 0 -> v = mkVector2 0 0.
Proof.
  intros H. destruct v as [vx vy]. unfold length in H. cbn [x y] in H.
  apply sqrt_eq_0 in H; [| apply square_sum_nonneg].
  assert (vx * vx = 0 /\ vy * vy = 0) as (Hx & Hy).
  { pose proof (square_sum_nonneg vx 0). pose proof (square_sum_nonneg vy 0).
    split; lra. }
  apply Rmult_integral in Hx. apply Rmult_integral in Hy.
  f_equal; tauto.
Qed.

Lemma normalize_cases (v : Vector2) :
  (v = mkVector2 0 0 /\ normalize v = v) \/
  (0 < length v /\ length (normalize v) = 1).
Proof.
  pose proof (length_nonneg v) as Hpos. change (0 <= length v) in Hpos.
  unfold normalize. cbv zeta. unfold gt_b.
  destruct (Rgt_dec (length v) 0) as [Hgt | Hle].
  - right. split; [lra |].
    assert (Hne : Ch03.length v <> 0) by (change (length v <> 0); lra).
    pose proof (scale_unit v Hne) as Hu.
    change (Ch03.scale v (1 / Ch03.length v)) with (scale v (1 / length v))
      in Hu.
    unfold Ch03.dot in Hu. unfold length at 1. rewrite Hu. apply sqrt_1.
  - left. split; [| reflexivity]. apply length_zero. lra.
Qed.

(** X22. [Vector.normalize] returns a vector of length 1, except on the
    zero vector, which it returns unchanged.  So [updateDirection] leaves
    the cue with a unit direction when the pointer is not on the centre of
    the ball and with the zero direction when it is; in both cases it sets
    a defined angle and keeps power, charging flag, start time and
    offset. *)
Theorem X22_direction_is_unit (c : Cue) (ballPos mousePos : Vector2) :
  let c' := updateDirection c ballPos mousePos in
  (mousePos <> ballPos -> length (direction c') = 1) /\
  (mousePos = ballPos -> direction c' = mkVector2 0 0) /\
  angle c' <> None /\
  power c' = power c /\
  isCharging c' = isCharging c /\
  startChargeTime c' = startChargeTime c /\
  shift c' = shift c.
Proof.
  intros c'. subst c'. unfold updateDirection.
  cbn [direction angle power isCharging startChargeTime shift].
  split; [| split; [| repeat split; discriminate]].
  - intros Hne.
    destruct (normalize_cases (Vector_subtract mousePos ballPos))
      as [(Hz & _) | (_ & Hu)]; [| exact Hu].
    exfalso. apply Hne.
    destruct mousePos as [mx my], ballPos as [bx by_].
    unfold Vector_subtract in Hz. cbn [x y] in Hz.
    injection Hz as Hx Hy. f_equal; lra.
  - intros ->.
    destruct (normalize_cases (Vector_subtract ballPos ballPos))
      as [(Hz & Hn) | (Hpos & _)].
    + rewrite Hn. exact Hz.
    + exfalso. unfold length, Vector_subtract in Hpos. cbn [x y] in Hpos.
      replace ((x ballPos - x ballPos) * (x ballPos - x ballPos)
               + (y ballPos - y ballPos) * (y ballPos - y ballPos))
        with 0 in Hpos by ring.
      rewrite sqrt_0 in Hpos. lra.
Qed.

Lemma X22_direction_is_unit_witness :
  length (direction (updateDirection idleCue (mkVector2 3 4) (mkVector2 6 8)))
  = 1 /\
  direction (updateDirection idleCue (mkVector2 3 4) (mkVector2 3 4))
  = mkVector2 0 0.
Proof.
  destruct (X22_direction_is_unit idleCue (mkVector2 3 4) (mkVector2 6 8))
    as (Hu & _).
  destruct (X22_direction_is_unit idleCue (mkVector2 3 4) (mkVector2 3 4))
    as (_ & Hz & _).
  split.
  - apply Hu. intros E. assert (H : 6 = 3) by (injection E; auto). lra.
  - apply Hz. reflexivity.
Defined.

Lemma atan_sign (t : R) :
  (0 <= t -> 0 <= atan t) /\ (t <= 0 -> atan t <= 0).
Proof.
  split; intros H.
  - destruct H as [H | <-]; [| rewrite atan_0; lra].
    rewrite <- atan_0. left. apply atan_increasing. exact H.
  - destruct H as [H | ->]; [| rewrite atan_0; lra].
    rewrite <- atan_0. left. apply atan_increasing. exact H.
Qed.

Lemma atan2_range (yy xx : R) : - PI < atan2 yy xx <= PI.
Proof.
  pose proof PI_RGT_0 as Hpi.
  pose proof (atan_bound (yy / xx)) as Hb.
  unfold atan2, gt_b, lt_b.
  destruct (Rgt_dec xx 0) as [Hx | Hx]; [lra |].
  destruct (Rlt_dec xx 0) as [Hx' | Hx'].
  - destruct (Rlt_dec yy 0) as [Hy | Hy].
    + assert (Hq : 0 < yy / xx).
      { replace (yy / xx) with (- yy * / - xx) by (field; lra).
        apply Rmult_lt_0_compat; [lra |].
        apply Rinv_0_lt_compat. lra. }
      apply atan_increasing in Hq. rewrite atan_0 in Hq. lra.
    + assert (yy / xx <= 0).
      { replace (yy / xx) with (- (yy * / - xx)) by (field; lra).
        assert (0 <= yy * / - xx).
        { apply Rmult_le_pos; [lra |].
          apply Rlt_le, Rinv_0_lt_compat. lra. }
        lra. }
      pose proof (proj2 (atan_sign (yy / xx))). lra.
  - destruct (Rgt_dec yy 0); [lra |].
    destruct (Rlt_dec yy 0); lra.
Qed.

Lemma js_rem_range (a b : R) : 0 <= a -> 0 < b -> 0 <= js_rem a b < b.
Proof.
  intros Ha Hb. unfold js_rem. cbv zeta.
  assert (Hq : 0 <= a / b).
  { apply Rmult_le_pos; [exact Ha |]. apply Rlt_le, Rinv_0_lt_compat. lra. }
  rewrite lt_b_false by lra.
  destruct (base_Int_part (a / b)) as (Hlow & Hup).
  set (k := IZR (Int_part (a / b))) in *.
  assert (Ea : a = b * (a / b)) by (field; lra).
  assert (H1 : b * k <= b * (a / b)) by (apply Rmult_le_compat_l; lra).
  assert (H2 : b * (a / b - 1) < b * k) by (apply Rmult_lt_compat_l; lra).
  lra.
Qed.

(** X23. [calculateAngle] always returns an angle in degrees in
    [0, 360), whatever the vector, the zero vector included. *)
Theorem X23_angle_in_0_360 (v : Vector2) : 0 <= calculateAngle v < 360.
Proof.
  unfold calculateAngle. cbv zeta.
  pose proof PI_RGT_0 as Hpi.
  destruct (atan2_range (y v) (x v)) as (Hlo & Hhi).
  set (t := atan2 (y v) (x v)) in *.
  assert (Hd : - 180 <= t * (180 / PI) <= 180).
  { assert (E : t * (180 / PI) = 180 * (t / PI)) by (field; lra).
    rewrite E.
    assert (- 1 <= t / PI <= 1).
    { split.
      - apply Rmult_le_reg_r with PI; [lra |].
        replace (t / PI * PI) with t by (field; lra). lra.
      - apply Rmult_le_reg_r with PI; [lra |].
        replace (t / PI * PI) with t by (field; lra). lra. }
    lra. }
  apply js_rem_range; lra.
Qed.

(** *** The renderer of the cue game *)

(** X24. For a renderer whose scale is not zero, as it is for a canvas of
    positive sizes, the conversions between world and canvas coordinates
    undo each other in both directions; so a mouse event at the canvas
    image of a world point [p] aims the cue along the unit vector from the
    ball to [p]. *)
Theorem X24_canvas_world_round_trip (r : Renderer) :
  Renderer_scale r <> 0 ->
  (forall a : R, toWorldX r (toCanvasX r a) = a) /\
  (forall a : R, toWorldY r (toCanvasY r a) = a) /\
  (forall a : R, toCanvasX r (toWorldX r a) = a) /\
  (forall a : R, toCanvasY r (toWorldY r a) = a) /\
  (forall (g : Game) (p : Vector2) (rectx recty : R),
      direction
        (cue (handleMouseMove r g (rectx + toCanvasX r (x p))
                (recty + toCanvasY r (y p)) rectx recty))
      = normalize (Vector_subtract p (pos (ball g)))).
Proof.
  intros Hs.
  assert (H1 : forall a : R, toWorldX r (toCanvasX r a) = a)
    by (intros a; unfold toWorldX, toCanvasX; field; exact Hs).
  assert (H2 : forall a : R, toWorldY r (toCanvasY r a) = a)
    by (intros a; unfold toWorldY, toCanvasY; field; exact Hs).
  split; [exact H1 | split; [exact H2 | split; [| split]]].
  - intros a. unfold toWorldX, toCanvasX. field. exact Hs.
  - intros a. unfold toWorldY, toCanvasY. field. exact Hs.
  - intros g p rectx recty. unfold handleMouseMove, updateDirection.
    cbn [cue direction].
    replace (rectx + toCanvasX r (x p) - rectx) with (toCanvasX r (x p))
      by ring.
    replace (recty + toCanvasY r (y p) - recty) with (toCanvasY r (y p))
      by ring.
    rewrite H1, H2. destruct p as [px py]. reflexivity.
Qed.

Lemma new_Renderer_scale (innerWidth innerHeight : R) :
  20 < innerWidth -> 100 < innerHeight ->
  0 < Renderer_scale (new_Renderer innerWidth innerHeight).
Proof.
  intros Hw Hh. unfold new_Renderer. cbn [Renderer_scale].
  apply Rdiv_lt_0_compat; [| lra].
  apply Rmin_glb_lt; lra.
Qed.

Lemma X24_canvas_world_round_trip_witness :
  toWorldX (new_Renderer 820 700) (toCanvasX (new_Renderer 820 700) 7) = 7.
Proof.
  assert (Hs : Renderer_scale (new_Renderer 820 700) <> 0).
  { pose proof (new_Renderer_scale 820 700). lra. }
  exact (proj1 (X24_canvas_world_round_trip (new_Renderer 820 700) Hs) 7).
Defined.

End CueGame.

(** ** Kicking the ball of index3.js *)

Section Kick.

Lemma kickBall_fields (b : Practice3.Ball) (dir : Vector2) :
  Practice3.gravity (Practice3.kickBall b dir)
  = mkVector2 (x (Practice3.gravity b)) (y (Practice3.gravity b) - 9.81) /\
  Practice3.vel (Practice3.kickBall b dir)
  = mkVector2 (x (Practice3.vel b) + x dir * 20)
      (y (Practice3.vel b) + y dir * 20) /\
  Practice3.pos (Practice3.kickBall b dir) = Practice3.pos b /\
  Practice3.radius (Practice3.kickBall b dir) = Practice3.radius b /\
  Practice3.mass (Practice3.kickBall b dir) = Practice3.mass b.
Proof.
  unfold Practice3.kickBall, Practice3.updateGravity, Practice3.set_gravity,
    Practice3.set_vel, Practice3.add.
  cbn. repeat split. f_equal; lra.
Qed.

Lemma kicks_fields (dirs : list Vector2) :
  forall b : Practice3.Ball,
    let bn := fold_left Practice3.kickBall dirs b in
    Practice3.gravity bn
    = mkVector2 (x (Practice3.gravity b))
        (y (Practice3.gravity b) - 9.81 * INR (List.length dirs)) /\
    Practice3.pos bn = Practice3.pos b /\
    Practice3.radius bn = Practice3.radius b /\
    Practice3.mass bn = Practice3.mass b.
Proof.
  induction dirs as [| d dirs IH]; intros b.
  - cbn. repeat split. destruct (Practice3.gravity b) as [gx gy]. cbn.
    f_equal. lra.
  - cbn [fold_left]. cbv zeta in IH |- *.
    destruct (IH (Practice3.kickBall b d)) as (Ig & Ip & Ir & Im).
    destruct (kickBall_fields b d) as (Kg & _ & Kp & Kr & Km).
    rewrite Ig, Ip, Ir, Im, Kg, Kp, Kr, Km. cbn [x y].
    repeat split. change (List.length (d :: dirs)) with (S (List.length dirs)).
    rewrite S_INR. f_equal. lra.
Qed.

(** X25. Every kick adds (0, -9.81) to the gravity of the ball itself: after
    [n] kicks the vertical gravity of the ball is the one it had less
    [9.81 * n], whatever the directions of the kicks, while its position,
    radius and mass are as before.  The ball the page starts with, of
    gravity (0, 0), falls faster with every click. *)
Theorem X25_kicks_accumulate_gravity
  (dirs : list Vector2) (b : Practice3.Ball) :
  let bn := fold_left Practice3.kickBall dirs b in
  Practice3.gravity bn
  = mkVector2 (x (Practice3.gravity b))
      (y (Practice3.gravity b) - 9.81 * INR (List.length dirs)) /\
  Practice3.pos bn = Practice3.pos b /\
  Practice3.radius bn = Practice3.radius b /\
  Practice3.mass bn = Practice3.mass b /\
  (forall dt : R,
      y (Practice3.vel (Practice3.update bn dt))
      = y (Practice3.vel bn)
        + (y (Practice3.gravity b) - 9.81 * INR (List.length dirs)) * dt).
Proof.
  intros bn. destruct (kicks_fields dirs b) as (Hg & Hp & Hr & Hm).
  fold bn in Hg, Hp, Hr, Hm.
  split; [exact Hg | split; [exact Hp | split; [exact Hr | split]]];
    [exact Hm |].
  intros dt. unfold Practice3.update, Practice3.set_pos, Practice3.set_vel,
               Practice3.add.
  cbn [Practice3.vel y]. rewrite Hg. reflexivity.
Qed.

Lemma pointer_unit (r : Practice3.Renderer) (cx cy : R) :
  Practice3.pointerPos r cx cy <> mkVector2 0 0 ->
  let p := Practice3.pointerPos r cx cy in
  let dir := Practice3.scale p (1 / Practice3.length p) in
  x dir * x dir + y dir * y dir = 1.
Proof.
  intros Hne p dir.
  assert (Hl : Ch03.length p <> 0).
  { intros H0. apply Hne. apply length_zero. exact H0. }
  exact (scale_unit p Hl).
Qed.

(** X26. The click listener of index3.js turns the place of the click into
    world coordinates that [cX] and [cY] send back to the place of the
    click.  Unless the click is on the origin of the world, it adds to the
    velocity of the ball a vector of length exactly 20, along the direction
    from the origin of the world to the click, not from the ball, and
    (0, -9.81) to its gravity. *)
Theorem X26_click_kicks_with_speed_20
  (r : Practice3.Renderer) (b : Practice3.Ball) (cx cy : R) :
  let p := Practice3.pointerPos r cx cy in
  let b' := Practice3.onClick r b cx cy in
  Practice3.cX (x p) = cx /\
  Practice3.cY r (y p) = cy /\
  (p <> mkVector2 0 0 ->
   Practice3.length (Practice3.subtract (Practice3.vel b') (Practice3.vel b))
   = 20 /\
   Practice3.subtract (Practice3.vel b') (Practice3.vel b)
   = Practice3.scale p (20 / Practice3.length p) /\
   y (Practice3.gravity b') = y (Practice3.gravity b) - 9.81).
Proof.
  intros p b'.
  split; [| split].
  - unfold Practice3.cX, p, Practice3.pointerPos, Practice3.renderer_scale.
    cbn [x]. field.
  - unfold Practice3.cY, p, Practice3.pointerPos, Practice3.renderer_scale.
    cbn [y]. field.
  - intros Hne.
    pose proof (pointer_unit r cx cy Hne) as Hu. cbv zeta in Hu. fold p in Hu.
    assert (Hl : Practice3.length p <> 0).
    { intros H0. apply Hne. apply length_zero. exact H0. }
    subst b'. unfold Practice3.onClick. cbv zeta. fold p.
    set (dir := Practice3.scale p (1 / Practice3.length p)) in *.
    destruct (kickBall_fields b dir) as (Kg & Kv & _).
    rewrite Kg, Kv. cbn [x y].
    split; [| split; [| reflexivity]].
    + unfold Practice3.length, Practice3.subtract. cbn [x y].
      apply sqrt_lem_1; [apply square_sum_nonneg | lra |].
      replace ((x (Practice3.vel b) + x dir * 20 - x (Practice3.vel b))
               * (x (Practice3.vel b) + x dir * 20 - x (Practice3.vel b))
               + (y (Practice3.vel b) + y dir * 20 - y (Practice3.vel b))
                 * (y (Practice3.vel b) + y dir * 20 - y (Practice3.vel b)))
        with (400 * (x dir * x dir + y dir * y dir)) by ring.
      rewrite Hu. ring.
    + unfold Practice3.subtract, dir, Practice3.scale. cbn [x y].
      f_equal; field; exact Hl.
Qed.

Lemma X26_click_kicks_with_speed_20_witness :
  Practice3.length
    (Practice3.subtract
       (Practice3.vel (Practice3.onClick dampedCanvas Practice3.firstBall
                         60 220))
       (Practice3.vel Practice3.firstBall)) = 20.
Proof.
  destruct (X26_click_kicks_with_speed_20 dampedCanvas Practice3.firstBall
              60 220) as (_ & _ & H).
  apply H. unfold Practice3.pointerPos, Practice3.renderer_scale. cbn.
  intros E. assert (H3 : 60 / 20 = 0) by (injection E; auto). lra.
Defined.

End Kick.

(** ** The vector class of ch-03 *)

Section VectorAlgebra.

(** X27. On the vectors of ch-03, [subtract] undoes [add] with the same
    vector and scale, and [subtractVectors] undoes [addVectors]; [scale]
    multiplies the length by the absolute value of the factor; and the dot
    product of two vectors is at most the product of their lengths. *)
Theorem X27_vector_operations (u v : Vector2) (s : R) :
  Ch03.subtract (Ch03.add u v s) v s = u /\
  Ch03.add (Ch03.subtract u v s) v s = u /\
  Ch03.subtractVectors (Ch03.addVectors u v) v = u /\
  Ch03.length (Ch03.scale u s) = Rabs s * Ch03.length u /\
  Ch03.dot u v = Ch03.dot v u /\
  Ch03.dot u v <= Ch03.length u * Ch03.length v.
Proof.
  destruct u as [ux uy], v as [vx vy].
  unfold Ch03.subtract, Ch03.add, Ch03.subtractVectors, Ch03.addVectors,
    Ch03.scale, Ch03.dot, Ch03.length.
  cbn [x y].
  split; [f_equal; ring |]. split; [f_equal; ring |].
  split; [f_equal; ring |]. split; [| split; [ring |]].
  - replace (ux * s * (ux * s) + uy * s * (uy * s))
      with (s * s * (ux * ux + uy * uy)) by ring.
    rewrite sqrt_mult_alt
      by (replace (s * s) with (s * s + 0 * 0) by ring;
          apply square_sum_nonneg).
    f_equal. fold (Rsqr s). apply sqrt_Rsqr_abs.
  - pose proof (sqrt_cauchy ux uy vx vy) as H. unfold Rsqr in H. exact H.
Qed.

End VectorAlgebra.
